(** * TimeTable-Generator: the CSP solver of [timetable_solver.py]

    A shallow embedding of the entity model, the [Timetable] aggregate with
    its three conflict indices, the input normaliser, the domain builder,
    the consistency checker and the backtracking search of
    [FinalFixSolver], followed by the properties established about them.

    Conventions of the embedding.
    - A Python [dict] or [set] whose iteration order is never observed is a
      [gmap] / [gset]; their Leibniz equality is Python's [==] on dicts and
      sets.  A [defaultdict(set)] is a [gmap string (gset string)] together
      with the read [m[k]] that inserts the empty set under a missing key.
    - A dict that is iterated ([self.instructors.values()], ...) is an
      insertion-ordered association list with unique keys ([odict]).
    - Mutable objects are values.  The objects stored in the solver's
      dicts are pairwise distinct (one per key, and the key is the
      object's own [id]), so mutating an object is updating the entry of
      its id.  Each object owns its lists (the loaders build them per row).
    - Exceptions are a result type; [print] calls are events appended to an
      output log; wall-clock timing is left out. *)

From stdpp Require Import base decidable option list gmap strings fin_maps.
From Stdlib Require Import ZArith NArith Lia.

Open Scope string_scope.
Open Scope list_scope.

(** ** Entity model *)

Module Course.
Record t := mk { id : string; name : string; credits : Z; type : string }.
End Course.

Module Instructor.
Record t := mk
  { id : string; name : string;
    unavailable_days : list string; qualified_courses : list string }.
End Instructor.

Module Room.
Record t := mk { id : string; type : string; capacity : Z }.
End Room.

Module Section_.
Record t := mk { id : string; student_count : Z; courses : list string }.
End Section_.

Module TimeSlot.
Record t := mk
  { id : string; day : string; start_time : string; end_time : string;
    duration : Z }.
End TimeSlot.

Record Assignment := mkAssignment
  { section_id : string;
    course_id : string;
    time_slot : TimeSlot.t;
    room : Room.t;
    instructor : Instructor.t }.

#[global] Instance Instructor_eq_dec : EqDecision Instructor.t.
Proof. solve_decision. Defined.
#[global] Instance Room_eq_dec : EqDecision Room.t.
Proof. solve_decision. Defined.
#[global] Instance TimeSlot_eq_dec : EqDecision TimeSlot.t.
Proof. solve_decision. Defined.
#[global] Instance Assignment_eq_dec : EqDecision Assignment.
Proof. solve_decision. Defined.

(** A CSP variable is a [(section_id, course_id)] pair. *)
Abbreviation var := (string * string)%type.

(** ** Exceptions *)

Inductive exn := KeyError | ValueError | ZeroDivisionError.

Inductive res (A : Type) :=
  | Ok (a : A)
  | Raise (e : exn).
Arguments Ok {A} a.
Arguments Raise {A} e.

#[global] Instance res_bind : MBind res := λ A B k m,
  match m with Ok a => k a | Raise e => Raise e end.

(** ** Timetable *)

Record Timetable := mkTimetable
  { assignments : list Assignment;
    assignment_dict : gmap (string * string) Assignment;
    instructor_schedule : gmap string (gset string);
    room_schedule : gmap string (gset string);
    section_schedule : gmap string (gset string) }.

(** [Timetable()] *)
Definition Timetable_new : Timetable :=
  mkTimetable [] ∅ ∅ ∅ ∅.

(** The set stored under [k], the empty set when [k] is missing. *)
Definition slots (m : gmap string (gset string)) (k : string) : gset string :=
  default ∅ (m !! k).

(** The read [m[k]] of a [defaultdict(set)]: a missing key is inserted with
    the empty set. *)
Definition touch (k : string) (m : gmap string (gset string))
  : gmap string (gset string) :=
  match m !! k with
  | Some _ => m
  | None => <[k := ∅]> m
  end.

(** [m[k].add(x)] *)
Definition sched_add (k x : string) (m : gmap string (gset string))
  : gmap string (gset string) :=
  <[k := slots m k ∪ {[x]}]> m.

(** [m[k].remove(x)]: [set.remove] raises [KeyError] on a missing element. *)
Definition sched_remove (k x : string) (m : gmap string (gset string))
  : res (gmap string (gset string)) :=
  if decide (x ∈ slots m k) then Ok (<[k := slots m k ∖ {[x]}]> m)
  else Raise KeyError.

(** [list.remove(x)]: drops the first element equal to [x]; [None] stands
    for the [ValueError] raised when there is none. *)
Fixpoint list_remove (x : Assignment) (l : list Assignment)
  : option (list Assignment) :=
  match l with
  | [] => None
  | y :: l' =>
      if decide (y = x) then Some l'
      else match list_remove x l' with
           | Some r => Some (y :: r)
           | None => None
           end
  end.

Definition add_assignment (tbl : Timetable) (a : Assignment) : Timetable :=
  mkTimetable
    (assignments tbl ++ [a])
    (<[(section_id a, course_id a) := a]> (assignment_dict tbl))
    (sched_add (Instructor.id (instructor a)) (TimeSlot.id (time_slot a))
       (instructor_schedule tbl))
    (sched_add (Room.id (room a)) (TimeSlot.id (time_slot a))
       (room_schedule tbl))
    (sched_add (section_id a) (TimeSlot.id (time_slot a))
       (section_schedule tbl)).

Definition remove_assignment (tbl : Timetable) (a : Assignment)
  : res Timetable :=
  match list_remove a (assignments tbl) with
  | None => Raise ValueError
  | Some l =>
      match assignment_dict tbl !! (section_id a, course_id a) with
      | None => Raise KeyError
      | Some _ =>
          i ← sched_remove (Instructor.id (instructor a))
                (TimeSlot.id (time_slot a)) (instructor_schedule tbl);
          r ← sched_remove (Room.id (room a))
                (TimeSlot.id (time_slot a)) (room_schedule tbl);
          s ← sched_remove (section_id a)
                (TimeSlot.id (time_slot a)) (section_schedule tbl);
          Ok (mkTimetable l
                (delete (section_id a, course_id a) (assignment_dict tbl))
                i r s)
      end
  end.

(** ** Insertion-ordered dictionaries

    [{x.id: x for x in xs}] keeps the position of the first occurrence of a
    key and the value of its last occurrence. *)

Definition odict (V : Type) := list (string * V).

Fixpoint odict_set {V} (k : string) (v : V) (d : odict V) : odict V :=
  match d with
  | [] => [(k, v)]
  | (k', v') :: d' =>
      if decide (k' = k) then (k, v) :: d' else (k', v') :: odict_set k v d'
  end.

Fixpoint odict_get {V} (k : string) (d : odict V) : option V :=
  match d with
  | [] => None
  | (k', v') :: d' => if decide (k' = k) then Some v' else odict_get k d'
  end.

(** In-place mutation of the object stored under [k]. *)
Fixpoint odict_alter {V} (f : V → V) (k : string) (d : odict V) : odict V :=
  match d with
  | [] => []
  | (k', v') :: d' =>
      if decide (k' = k) then (k', f v') :: d'
      else (k', v') :: odict_alter f k d'
  end.

Definition odict_values {V} (d : odict V) : list V := d.*2.

Definition odict_of_list {V} (key : V → string) (l : list V) : odict V :=
  foldl (λ d v, odict_set (key v) v d) [] l.

(** Python's [needle in haystack] on strings. *)
Fixpoint contains (needle haystack : string) : bool :=
  String.prefix needle haystack ||
  match haystack with
  | EmptyString => false
  | String _ rest => contains needle rest
  end.

(** ** Output log *)

Inductive event :=
  | EvNoQualifiedInstructors (course_id : string)
  | EvNoSuitableRooms (course_id room_type : string)
  | EvProblemSize (n : nat)
  | EvDomainSizes (smallest largest : nat)
  | EvZeroDomainVars (n : nat)
  | EvAllDomainsValid
  | EvAttempt (attempt max_attempts : nat)
  | EvSearchStart
  | EvProgress (assigned total : nat) (backtracks : N)
  | EvSolutionFound
  | EvNoSolution (attempt : nat) (backtracks : N).

(** ** Input normaliser *)

Definition set_room_type (ty : string) (r : Room.t) : Room.t :=
  Room.mk (Room.id r) ty (Room.capacity r).

(** [for room in lab_rooms[:n]: room.type = 'Classroom'], on the list
    [rooms] whose objects [lab_rooms] shares: the first [n] rooms of type
    Lab change type, every other room is left as it is. *)
Fixpoint convert_labs (n : nat) (rooms : list Room.t) : list Room.t :=
  match rooms with
  | [] => []
  | r :: rest =>
      if decide (Room.type r = "Lab") then
        match n with
        | O => r :: rest
        | S n' => set_room_type "Classroom" r :: convert_labs n' rest
        end
      else r :: convert_labs n rest
  end.

Definition _fix_room_types (rooms : list Room.t) : odict Room.t :=
  let classroom_rooms := filter (λ r, Room.type r = "Classroom") rooms in
  let rooms :=
    if decide (length classroom_rooms = 0) then convert_labs 20 rooms
    else rooms in
  odict_of_list Room.id rooms.

Definition missing_courses : list string :=
  ["LRA401"; "LRA101"; "LRA103"; "LRA403"; "LRA106"].

Definition instructor_prefixes : list string :=
  ["PROF27"; "PROF28"; "PROF29"; "PROF30"; "PROF31"; "PROF32"; "PROF33";
   "PROF34"; "PROF35"].

Definition suitable (instr : Instructor.t) : bool :=
  existsb (λ prefix, contains prefix (Instructor.id instr))
    instructor_prefixes.

(** [if course_id not in instructor.qualified_courses:
        instructor.qualified_courses.append(course_id)] *)
Definition add_qualification (course_id : string) (instr : Instructor.t)
  : Instructor.t :=
  if decide (course_id ∈ Instructor.qualified_courses instr) then instr
  else Instructor.mk (Instructor.id instr) (Instructor.name instr)
         (Instructor.unavailable_days instr)
         (Instructor.qualified_courses instr ++ [course_id]).

(** One iteration of the loop over [missing_courses]. *)
Definition fix_course (instructors : odict Instructor.t) (course_id : string)
  : odict Instructor.t :=
  let suitable_instructors :=
    filter (λ instr, suitable instr = true) (odict_values instructors) in
  foldl (λ d instr, odict_alter (add_qualification course_id)
                      (Instructor.id instr) d)
    instructors (take 3 suitable_instructors).

Definition _fix_instructor_qualifications (instructors : odict Instructor.t)
  : odict Instructor.t :=
  foldl fix_course instructors missing_courses.

(** ** Variables and domains *)

Definition _create_variables (sections : list Section_.t) : list var :=
  section ← sections;
  course_id ← Section_.courses section;
  [(Section_.id section, course_id)].

Abbreviation value := (TimeSlot.t * Room.t * Instructor.t)%type.

Definition lab_courses : list string :=
  ["PHY113"; "PHY123"; "CHM113"; "ECE111"; "ECE223"; "ECE214"; "CNC222"].

(** The room class a course asks for. *)
Definition is_lab_course (course_id : string) (course : Course.t) : bool :=
  bool_decide (course_id ∈ lab_courses) || contains "Lab" (Course.type course).

Definition room_type_of (course_id : string) (course : Course.t) : string :=
  if is_lab_course course_id course then "Lab" else "Classroom".

Section Domains.
Variable courses : odict Course.t.
Variable instructors : odict Instructor.t.
Variable rooms : odict Room.t.
Variable time_slots : odict TimeSlot.t.

Definition suitable_rooms_of (course_id : string) (course : Course.t)
  : list Room.t :=
  filter (λ r, Room.type r = room_type_of course_id course)
    (odict_values rooms).

Definition qualified_instructors_of (course_id : string)
  : list Instructor.t :=
  filter (λ instr, course_id ∈ Instructor.qualified_courses instr)
    (odict_values instructors).

(** The three nested loops that generate a domain. *)
Definition generate_domain (suitable_rooms : list Room.t)
    (qualified_instructors : list Instructor.t) : list value :=
  time_slot ← odict_values time_slots;
  room ← suitable_rooms;
  instructor ← qualified_instructors;
  if decide (TimeSlot.day time_slot
               ∈ Instructor.unavailable_days instructor)
  then [] else [(time_slot, room, instructor)].

(** The body of the loop over [self.variables]: the domain of one
    variable and what is printed while it is built. *)
Definition domain_of (course_id : string) (course : Course.t)
  : list value * list event :=
  let suitable_rooms := suitable_rooms_of course_id course in
  let qualified_instructors := qualified_instructors_of course_id in
  match qualified_instructors, suitable_rooms with
  | [], _ => ([], [EvNoQualifiedInstructors course_id])
  | _, [] =>
      ([], [EvNoSuitableRooms course_id (room_type_of course_id course)])
  | _, _ => (generate_domain suitable_rooms qualified_instructors, [])
  end.

Fixpoint precompute_loop (variables : list var)
    (domains : gmap var (list value)) (out : list event)
  : res (gmap var (list value) * list event) :=
  match variables with
  | [] => Ok (domains, out)
  | (section_id, course_id) :: rest =>
      match odict_get course_id courses with
      | None => Raise KeyError
      | Some course =>
          let '(domain, evs) := domain_of course_id course in
          precompute_loop rest (<[(section_id, course_id) := domain]> domains)
            (out ++ evs)
      end
  end.

Definition _precompute_domains_final (variables : list var)
  : res (gmap var (list value) * list event) :=
  precompute_loop variables ∅ [].
End Domains.

(** ** The solver object *)

Record Stats := mkStats { backtracks : N; assignments_tried : N }.

Record Solver := mkSolver
  { courses : odict Course.t;
    instructors : odict Instructor.t;
    rooms : odict Room.t;
    sections : list Section_.t;
    time_slots : odict TimeSlot.t;
    variables : list var;
    domains : gmap var (list value);
    stats : Stats }.

Definition set_stats (S : Solver) (st : Stats) : Solver :=
  mkSolver (courses S) (instructors S) (rooms S) (sections S) (time_slots S)
    (variables S) (domains S) st.

(** [FinalFixSolver.__init__].  [min(domain_sizes)] raises [ValueError] on
    an empty sequence.  The per-variable diagnostics of [_debug_variable]
    and the prints of the two normaliser steps only write text and are left
    out of the log. *)
Definition FinalFixSolver_init (courses : list Course.t)
    (instructors : list Instructor.t) (rooms : list Room.t)
    (sections : list Section_.t) (time_slots : list TimeSlot.t)
  : res (Solver * list event) :=
  let courses := odict_of_list Course.id courses in
  let instructors := odict_of_list Instructor.id instructors in
  let rooms := _fix_room_types rooms in
  let time_slots := odict_of_list TimeSlot.id time_slots in
  let instructors := _fix_instructor_qualifications instructors in
  let variables := _create_variables sections in
  '(domains, out) ←
    _precompute_domains_final courses instructors rooms time_slots variables;
  let self := mkSolver courses instructors rooms sections time_slots
                variables domains (mkStats 0 0) in
  let out := out ++ [EvProblemSize (length variables)] in
  let domain_sizes := (λ kv, length kv.2) <$> map_to_list domains in
  match domain_sizes with
  | [] => Raise ValueError
  | n :: ns =>
      let out := out ++ [EvDomainSizes (foldr Nat.min n ns)
                                       (foldr Nat.max n ns)] in
      let zero_domain_vars :=
        filter (λ kv, length kv.2 = 0) (map_to_list domains) in
      match zero_domain_vars with
      | [] => Ok (self, out ++ [EvAllDomainsValid])
      | _ :: _ => Ok (self, out ++ [EvZeroDomainVars (length zero_domain_vars)])
      end
  end.

(** ** Consistency checker

    The three reads of the [defaultdict] indices insert missing keys, so
    the checker returns the timetable next to its verdict. *)

Definition with_instructor_schedule (tbl : Timetable) m : Timetable :=
  mkTimetable (assignments tbl) (assignment_dict tbl) m (room_schedule tbl)
    (section_schedule tbl).
Definition with_room_schedule (tbl : Timetable) m : Timetable :=
  mkTimetable (assignments tbl) (assignment_dict tbl) (instructor_schedule tbl) m
    (section_schedule tbl).
Definition with_section_schedule (tbl : Timetable) m : Timetable :=
  mkTimetable (assignments tbl) (assignment_dict tbl) (instructor_schedule tbl)
    (room_schedule tbl) m.

Definition _is_consistent (timetable : Timetable) (new_assignment : Assignment)
  : bool * Timetable :=
  let slot := TimeSlot.id (time_slot new_assignment) in
  let instr := Instructor.id (instructor new_assignment) in
  let timetable :=
    with_instructor_schedule timetable
      (touch instr (instructor_schedule timetable)) in
  if decide (slot ∈ slots (instructor_schedule timetable) instr)
  then (false, timetable) else
  let rm := Room.id (room new_assignment) in
  let timetable :=
    with_room_schedule timetable (touch rm (room_schedule timetable)) in
  if decide (slot ∈ slots (room_schedule timetable) rm)
  then (false, timetable) else
  let sec := section_id new_assignment in
  let timetable :=
    with_section_schedule timetable (touch sec (section_schedule timetable)) in
  if decide (slot ∈ slots (section_schedule timetable) sec)
  then (false, timetable) else
  (true, timetable).

(** The per-day cap hard-coded in the load-balancing check. *)
Definition DAY_CAP : nat := 55.

(** [sum(1 for a in timetable.assignments if a.time_slot.day == day)] *)
Definition day_count (day : string) (l : list Assignment) : nat :=
  length (filter (λ a, TimeSlot.day (time_slot a) = day) l).

Definition _is_consistent_with_load_balancing (timetable : Timetable)
    (new_assignment : Assignment) : bool * Timetable :=
  let '(ok, timetable) := _is_consistent timetable new_assignment in
  if negb ok then (false, timetable) else
  let day := TimeSlot.day (time_slot new_assignment) in
  let day_assignments := day_count day (assignments timetable) in
  if decide (DAY_CAP ≤ day_assignments)%nat then (false, timetable)
  else (true, timetable).

(** ** Variable selection (MRV) *)

(** [domain_size < min_size], where [None] is [float('inf')]. *)
Definition below (domain_size : nat) (min_size : option nat) : bool :=
  match min_size with
  | None => true
  | Some m => bool_decide (domain_size < m)%nat
  end.

Section Search.
Variable domains : gmap var (list value).
(** [len(self.variables)] *)
Variable n_variables : nat.
Variables max_backtracks print_interval : N.

Fixpoint select_loop (unassigned : list var) (min_size : option nat)
    (selected_var : option var) : res (option var) :=
  match unassigned with
  | [] => Ok selected_var
  | v :: rest =>
      match domains !! v with
      | None => Raise KeyError
      | Some domain =>
          let domain_size := length domain in
          if below domain_size min_size
          then select_loop rest (Some domain_size) (Some v)
          else select_loop rest min_size selected_var
      end
  end.

Definition _select_next_variable (unassigned : list var)
  : res (option var) :=
  match unassigned with
  | [] => Ok None
  | _ => select_loop unassigned None None
  end.

(** ** Backtracking search *)

(** What the search mutates: the timetable object, the two counters of
    the solver, the text written so far, and (a record kept for the
    properties below, read by no operation) the successive states of the
    timetable after each call that can change it. *)
Record SearchState := mkState
  { st_timetable : Timetable;
    st_stats : Stats;
    st_out : list event;
    st_trace : list Timetable }.

Inductive outcome (A : Type) :=
  | Returned (a : A)
  | Raised (e : exn)
  | OutOfFuel.
Arguments Returned {A} a.
Arguments Raised {A} e.
Arguments OutOfFuel {A}.

Definition set_timetable (st : SearchState) (tbl : Timetable) : SearchState :=
  mkState tbl (st_stats st) (st_out st) (st_trace st ++ [tbl]).

Definition incr_tried (st : SearchState) : SearchState :=
  mkState (st_timetable st)
    (mkStats (backtracks (st_stats st))
             (assignments_tried (st_stats st) + 1)%N)
    (st_out st) (st_trace st).

Definition incr_backtracks (st : SearchState) : SearchState :=
  mkState (st_timetable st)
    (mkStats (backtracks (st_stats st) + 1)%N
             (assignments_tried (st_stats st)))
    (st_out st) (st_trace st).

(** The progress report: [assignments_tried % print_interval] and the
    division by [len(self.variables)] raise on a zero divisor. *)
Definition report_progress (st : SearchState) : res SearchState :=
  if decide (print_interval = 0%N) then Raise ZeroDivisionError else
  if decide ((assignments_tried (st_stats st) `mod` print_interval)%N = 0%N)
  then
    if decide (n_variables = 0) then Raise ZeroDivisionError else
    Ok (mkState (st_timetable st) (st_stats st)
          (st_out st ++
             [EvProgress (length (assignments (st_timetable st)))
                n_variables (backtracks (st_stats st))])
          (st_trace st))
  else Ok st.

(** The loop over the values of [var]'s domain; [rec] is the recursive
    call of [backtrack]. *)
Fixpoint try_values
    (rec : SearchState → list var → outcome (option Timetable * SearchState))
    (v : var) (unassigned : list var) (domain : list value)
    (st : SearchState) : outcome (option Timetable * SearchState) :=
  match domain with
  | [] => Returned (None, st)
  | (time_slot, room, instructor) :: rest =>
      let new_assignment :=
        mkAssignment v.1 v.2 time_slot room instructor in
      let st := incr_tried st in
      match report_progress st with
      | Raise e => Raised e
      | Ok st =>
          let '(ok, tbl) :=
            _is_consistent_with_load_balancing (st_timetable st)
              new_assignment in
          let st := set_timetable st tbl in
          if ok then
            let st := set_timetable st (add_assignment tbl new_assignment) in
            let new_unassigned := filter (λ u, u ≠ v) unassigned in
            match rec st new_unassigned with
            | Returned (Some result, st) => Returned (Some result, st)
            | Returned (None, st) =>
                match remove_assignment (st_timetable st) new_assignment with
                | Raise e => Raised e
                | Ok tbl =>
                    try_values rec v unassigned rest
                      (incr_backtracks (set_timetable st tbl))
                end
            | Raised e => Raised e
            | OutOfFuel => OutOfFuel
            end
          else try_values rec v unassigned rest st
      end
  end.

(** The inner function [backtrack].  Each recursive call is on a strictly
    shorter list, so [fuel = len(unassigned)] is never used up. *)
Fixpoint backtrack (fuel : nat) (st : SearchState) (unassigned : list var)
  : outcome (option Timetable * SearchState) :=
  match unassigned with
  | [] => Returned (Some (st_timetable st), st)
  | _ :: _ =>
      if decide (max_backtracks < backtracks (st_stats st))%N
      then Returned (None, st) else
      match _select_next_variable unassigned with
      | Raise e => Raised e
      | Ok None => Returned (None, st)
      | Ok (Some v) =>
          match domains !! v with
          | None => Raised KeyError
          | Some domain =>
              match fuel with
              | O => OutOfFuel
              | S fuel' => try_values (backtrack fuel') v unassigned domain st
              end
          end
      end
  end.
End Search.

Arguments Returned {A} a.
Arguments Raised {A} e.
Arguments OutOfFuel {A}.

(** What a call leaves behind: its return value, the solver with its
    counters, the text it wrote and the timetable states it went through. *)
Record Run := mkRun
  { result : option Timetable;
    self : Solver;
    output : list event;
    visited : list Timetable }.

Definition backtracking_search (S : Solver) (max_backtracks print_interval : N)
  : outcome Run :=
  let S := set_stats S (mkStats 0 0) in
  let initial_timetable := Timetable_new in
  let st := mkState initial_timetable (stats S) [EvSearchStart]
              [initial_timetable] in
  match backtrack (domains S) (length (variables S)) max_backtracks
          print_interval (length (variables S)) st (variables S) with
  | Returned (r, st) =>
      Returned (mkRun r (set_stats S (st_stats st)) (st_out st) (st_trace st))
  | Raised e => Raised e
  | OutOfFuel => OutOfFuel
  end.

Definition MAX_BACKTRACKS : N := 100000.
Definition PRINT_INTERVAL : N := 500.

(** The loop [for attempt in range(max_attempts)] of [solve], from attempt
    number [attempt] with [remaining] iterations to go.  A [Timetable]
    object is always truthy. *)
Fixpoint solve_loop (max_attempts : nat) (S : Solver) (attempt remaining : nat)
    (out : list event) (seen : list Timetable) : outcome Run :=
  match remaining with
  | O => Returned (mkRun None S out seen)
  | S remaining' =>
      let out := out ++ [EvAttempt (attempt + 1) max_attempts] in
      match backtracking_search S MAX_BACKTRACKS PRINT_INTERVAL with
      | Returned r =>
          let out := out ++ output r in
          let seen := seen ++ visited r in
          match result r with
          | Some tbl =>
              Returned (mkRun (Some tbl) (self r) (out ++ [EvSolutionFound]) seen)
          | None =>
              solve_loop max_attempts (self r) (attempt + 1) remaining'
                (out ++ [EvNoSolution (attempt + 1)
                           (backtracks (stats (self r)))])
                seen
          end
      | Raised e => Raised e
      | OutOfFuel => OutOfFuel
      end
  end.

Definition solve (S : Solver) (max_attempts : nat) : outcome Run :=
  solve_loop max_attempts S 0 max_attempts [] [].

Definition MAX_ATTEMPTS : nat := 3.

(** The whole pipeline: build the solver from the five collections and call
    [solve()]. *)
Definition solve_entities (courses : list Course.t)
    (instructors : list Instructor.t) (rooms : list Room.t)
    (sections : list Section_.t) (time_slots : list TimeSlot.t)
  : outcome Run :=
  match FinalFixSolver_init courses instructors rooms sections time_slots with
  | Raise e => Raised e
  | Ok (solver, out) =>
      match solve solver MAX_ATTEMPTS with
      | Returned r =>
          Returned (mkRun (result r) (self r) (out ++ output r) (visited r))
      | o => o
      end
  end.

(** * Properties *)

(** ** The conflict indices *)

Lemma slots_touch k k' m : slots (touch k m) k' = slots m k'.
Proof.
  unfold touch, slots. destruct (m !! k) eqn:E; [done|].
  destruct (decide (k = k')) as [->|Hne].
  - by rewrite lookup_insert_eq, E.
  - by rewrite lookup_insert_ne.
Qed.

Lemma touch_is_Some k m : is_Some (touch k m !! k).
Proof.
  unfold touch. destruct (m !! k) eqn:E; [by rewrite E|].
  rewrite lookup_insert_eq. eauto.
Qed.

Lemma touch_id k m : is_Some (m !! k) → touch k m = m.
Proof. intros [s Hs]. unfold touch. by rewrite Hs. Qed.

Lemma insert_slots k m : <[k := slots m k]> m = touch k m.
Proof.
  unfold touch, slots. destruct (m !! k) eqn:E; simpl; [|done].
  by apply insert_id.
Qed.

Lemma slots_insert k k' s m :
  slots (<[k := s]> m) k' = if decide (k = k') then s else slots m k'.
Proof.
  unfold slots. destruct (decide (k = k')) as [->|Hne].
  - by rewrite lookup_insert_eq.
  - by rewrite lookup_insert_ne.
Qed.

Lemma sched_remove_add k x m :
  x ∉ slots m k → sched_remove k x (sched_add k x m) = Ok (touch k m).
Proof.
  intros Hx. unfold sched_remove, sched_add.
  rewrite slots_insert. rewrite (decide_True (P := k = k)) by done.
  rewrite decide_True
    by (apply elem_of_union; right; by apply elem_of_singleton).
  rewrite insert_insert_eq. f_equal.
  assert ((slots m k ∪ {[x]}) ∖ {[x]} = slots m k) as ->.
  { apply set_eq. intros y.
    rewrite elem_of_difference, elem_of_union, elem_of_singleton.
    split; [intros [[?|?] ?]; done|]. intros Hy. split; [by left|].
    by intros ->. }
  apply insert_slots.
Qed.

Lemma list_remove_app_last a l :
  a ∉ l → list_remove a (l ++ [a]) = Some l.
Proof.
  induction l as [|y l IH]; intros Hnotin; simpl.
  - by rewrite decide_True.
  - apply not_elem_of_cons in Hnotin as [Hne Hl].
    rewrite decide_False by done. by rewrite IH.
Qed.

Lemma list_remove_elem_of a l : a ∈ l → is_Some (list_remove a l).
Proof.
  induction l as [|y l IH]; intros Hin; simpl.
  - by apply elem_of_nil in Hin.
  - destruct (decide (y = a)); [eauto|].
    apply elem_of_cons in Hin as [->|Hin]; [done|].
    destruct (IH Hin) as [r ->]. eauto.
Qed.

(** The timetable left by the three index reads of the conflict check. *)
Definition touched (tbl : Timetable) (a : Assignment) : Timetable :=
  mkTimetable (assignments tbl) (assignment_dict tbl)
    (touch (Instructor.id (instructor a)) (instructor_schedule tbl))
    (touch (Room.id (room a)) (room_schedule tbl))
    (touch (section_id a) (section_schedule tbl)).

(** A candidate is free in a timetable when none of its three resources
    holds its slot. *)
Definition free (tbl : Timetable) (a : Assignment) : Prop :=
  (TimeSlot.id (time_slot a)
     ∉ slots (instructor_schedule tbl) (Instructor.id (instructor a))) ∧
  (TimeSlot.id (time_slot a)
     ∉ slots (room_schedule tbl) (Room.id (room a))) ∧
  (TimeSlot.id (time_slot a)
     ∉ slots (section_schedule tbl) (section_id a)).

Lemma remove_add tbl a :
  a ∉ assignments tbl →
  assignment_dict tbl !! (section_id a, course_id a) = None →
  free tbl a →
  remove_assignment (add_assignment tbl a) a = Ok (touched tbl a).
Proof.
  intros Hl Hd (Hi & Hr & Hs). unfold remove_assignment, add_assignment.
  simpl. rewrite list_remove_app_last, lookup_insert_eq by done.
  rewrite !sched_remove_add by done. simpl.
  by rewrite delete_insert_eq, delete_id.
Qed.

(** Two timetables are the [same] when they agree on the list, on the map
    and on the slot set of every key of the three indices: they differ at
    most by keys that hold the empty set. *)
Definition same (t t' : Timetable) : Prop :=
  assignments t' = assignments t ∧
  assignment_dict t' = assignment_dict t ∧
  (∀ k, slots (instructor_schedule t') k = slots (instructor_schedule t) k) ∧
  (∀ k, slots (room_schedule t') k = slots (room_schedule t) k) ∧
  (∀ k, slots (section_schedule t') k = slots (section_schedule t) k).

Lemma same_refl t : same t t.
Proof. by repeat split. Qed.

Lemma same_trans t1 t2 t3 : same t1 t2 → same t2 t3 → same t1 t3.
Proof.
  intros (A1 & D1 & I1 & R1 & S1) (A2 & D2 & I2 & R2 & S2).
  repeat split; intros; congruence.
Qed.

Lemma same_touched t a : same t (touched t a).
Proof. repeat split; intros; simpl; apply slots_touch. Qed.

Lemma free_same t t' a : same t t' → free t a → free t' a.
Proof.
  intros (_ & _ & I & R & S) (Hi & Hr & Hs).
  unfold free. by rewrite I, R, S.
Qed.

(** ** The consistency checker *)

Lemma _is_consistent_same t a : same t (_is_consistent t a).2.
Proof.
  unfold _is_consistent. repeat case_decide; simpl;
    repeat split; intros; simpl; rewrite ?slots_touch; done.
Qed.

Lemma _is_consistent_true t a :
  (_is_consistent t a).1 = true →
  free t a ∧ (_is_consistent t a).2 = touched t a.
Proof.
  unfold _is_consistent, free. simpl.
  repeat case_decide; simpl; try discriminate.
  rewrite !slots_touch in *. done.
Qed.

Lemma _is_consistent_false t a :
  (_is_consistent t a).1 = false → ¬ free t a.
Proof.
  unfold _is_consistent, free. simpl.
  repeat case_decide; simpl; try discriminate;
    rewrite ?slots_touch in *; tauto.
Qed.

Lemma load_balancing_same t a :
  same t (_is_consistent_with_load_balancing t a).2.
Proof.
  unfold _is_consistent_with_load_balancing.
  pose proof (_is_consistent_same t a) as H.
  destruct (_is_consistent t a) as [ok t']; simpl in *.
  destruct ok; simpl; [case_decide|]; done.
Qed.

Lemma load_balancing_true t a :
  (_is_consistent_with_load_balancing t a).1 = true →
  free t a ∧
  (day_count (TimeSlot.day (time_slot a)) (assignments t) < DAY_CAP)%nat ∧
  (_is_consistent_with_load_balancing t a).2 = touched t a.
Proof.
  unfold _is_consistent_with_load_balancing.
  pose proof (_is_consistent_true t a) as H.
  destruct (_is_consistent t a) as [ok t']; simpl in *.
  destruct ok; simpl; [|discriminate].
  destruct H as [Hfree ->]; [done|]. simpl.
  case_decide; simpl; [discriminate|]. intros _. split_and!; [done|lia|done].
Qed.

Lemma load_balancing_cap t a :
  (DAY_CAP ≤ day_count (TimeSlot.day (time_slot a)) (assignments t))%nat →
  (_is_consistent_with_load_balancing t a).1 = false.
Proof.
  intros Hcap. unfold _is_consistent_with_load_balancing.
  pose proof (_is_consistent_same t a) as (HA & _).
  destruct (_is_consistent t a) as [ok t']; simpl in *.
  destruct ok; simpl; [|done]. rewrite HA. by rewrite decide_True.
Qed.

(** ** Invariants of the timetable under search *)

Definition instr_key (a : Assignment) : string * string :=
  (Instructor.id (instructor a), TimeSlot.id (time_slot a)).
Definition room_key (a : Assignment) : string * string :=
  (Room.id (room a), TimeSlot.id (time_slot a)).
Definition section_key (a : Assignment) : string * string :=
  (section_id a, TimeSlot.id (time_slot a)).

(** Every assignment of the list is recorded in the three indices. *)
Definition index_sound (tbl : Timetable) : Prop :=
  ∀ a, a ∈ assignments tbl →
    (TimeSlot.id (time_slot a)
       ∈ slots (instructor_schedule tbl) (Instructor.id (instructor a))) ∧
    (TimeSlot.id (time_slot a)
       ∈ slots (room_schedule tbl) (Room.id (room a))) ∧
    (TimeSlot.id (time_slot a)
       ∈ slots (section_schedule tbl) (section_id a)).

(** No two assignments share an (instructor id, slot id), a (room id, slot
    id) or a (section id, slot id) pair. *)
Definition conflict_free (l : list Assignment) : Prop :=
  NoDup (instr_key <$> l) ∧ NoDup (room_key <$> l) ∧
  NoDup (section_key <$> l).

Definition capped (l : list Assignment) : Prop :=
  ∀ day, (day_count day l ≤ DAY_CAP)%nat.

(** The assignment binds its variable to a value of the variable's
    domain. *)
Definition in_domain (domains : gmap var (list value)) (a : Assignment)
  : Prop :=
  ∃ domain, domains !! (section_id a, course_id a) = Some domain ∧
            (time_slot a, room a, instructor a) ∈ domain.

Definition good (domains : gmap var (list value)) (tbl : Timetable) : Prop :=
  index_sound tbl ∧ conflict_free (assignments tbl) ∧
  capped (assignments tbl) ∧ Forall (in_domain domains) (assignments tbl).

Lemma good_new domains : good domains Timetable_new.
Proof.
  split_and!; simpl.
  - intros a Ha. by apply elem_of_nil in Ha.
  - split_and!; constructor.
  - intros d. unfold day_count. simpl. unfold DAY_CAP. lia.
  - constructor.
Qed.

Lemma good_same domains t t' : same t t' → good domains t → good domains t'.
Proof.
  intros (A & D & I & R & S) (Hs & Hc & Hcap & Hd).
  split_and!; rewrite ?A; try done.
  intros a Ha. rewrite A in Ha. rewrite I, R, S. by apply Hs.
Qed.

Lemma slots_sched_add k x m k' :
  slots (sched_add k x m) k' =
  if decide (k = k') then slots m k ∪ {[x]} else slots m k'.
Proof. unfold sched_add. apply slots_insert. Qed.

Lemma slots_sched_add_mono k x m k' y :
  y ∈ slots m k' → y ∈ slots (sched_add k x m) k'.
Proof.
  intros Hy. rewrite slots_sched_add.
  case_decide; subst; [apply elem_of_union; by left|done].
Qed.

Lemma slots_sched_add_new k x m : x ∈ slots (sched_add k x m) k.
Proof.
  rewrite slots_sched_add, decide_True by done.
  apply elem_of_union. right. by apply elem_of_singleton.
Qed.

Lemma free_not_elem_of t a : index_sound t → free t a → a ∉ assignments t.
Proof. intros Hs (Hi & _) Ha. by destruct (Hs a Ha) as (? & _). Qed.

Lemma NoDup_snoc_fmap {A B} (f : A → B) (l : list A) (a : A) :
  NoDup (f <$> l) → (∀ b, b ∈ l → f b ≠ f a) → NoDup (f <$> (l ++ [a])).
Proof.
  intros Hnd Hne. rewrite fmap_app. apply NoDup_app. split_and!; [done| |].
  - intros y Hy Hy'. simpl in Hy'. apply list_elem_of_singleton in Hy' as ->.
    apply list_elem_of_fmap in Hy as (b & Hb & Hbl). by apply (Hne b).
  - simpl. apply NoDup_singleton.
Qed.

Lemma day_count_snoc day l a :
  day_count day (l ++ [a]) =
  (day_count day l +
   (if decide (TimeSlot.day (time_slot a) = day) then 1 else 0))%nat.
Proof.
  unfold day_count. rewrite filter_app, length_app. f_equal.
  rewrite filter_cons, filter_nil. by case_decide.
Qed.

Lemma good_add domains t a :
  good domains t → free t a →
  (day_count (TimeSlot.day (time_slot a)) (assignments t) < DAY_CAP)%nat →
  in_domain domains a →
  good domains (add_assignment t a).
Proof.
  intros (Hs & (Ni & Nr & Ns) & Hcap & Hd) (Fi & Fr & Fs) Hday Ha.
  split_and!; simpl.
  - intros b Hb. apply elem_of_app in Hb as [Hb|Hb].
    + destruct (Hs b Hb) as (? & ? & ?).
      split_and!; by apply slots_sched_add_mono.
    + apply list_elem_of_singleton in Hb as ->.
      split_and!; apply slots_sched_add_new.
  - split_and!; apply NoDup_snoc_fmap; try done;
      intros b Hb Heq; destruct (Hs b Hb) as (Hbi & Hbr & Hbs);
      unfold instr_key, room_key, section_key in Heq;
      injection Heq as E1 E2; rewrite E1, E2 in *; done.
  - intros d. rewrite day_count_snoc. case_decide; subst.
    + lia.
    + specialize (Hcap d). lia.
  - apply Forall_app. split; [done|]. by constructor.
Qed.

Lemma sched_remove_same m m' k x :
  (∀ k', slots m' k' = slots (sched_add k x m) k') →
  x ∉ slots m k →
  ∃ m'', sched_remove k x m' = Ok m'' ∧ ∀ k', slots m'' k' = slots m k'.
Proof.
  intros Hm Hx. unfold sched_remove.
  pose proof (Hm k) as Hk. rewrite slots_sched_add in Hk.
  rewrite (decide_True (P := k = k)) in Hk by done.
  rewrite decide_True.
  2:{ rewrite Hk. apply elem_of_union. right. by apply elem_of_singleton. }
  eexists. split; [done|]. intros k'. rewrite slots_insert.
  case_decide; subst.
  - rewrite Hk. apply set_eq. intros y.
    rewrite elem_of_difference, elem_of_union, elem_of_singleton.
    split; [intros [[?|?] ?]; done|]. intros Hy. split; [by left|].
    intros ->. done.
  - rewrite Hm, slots_sched_add. by rewrite decide_False.
Qed.

(** Backtracking: removing the assignment that was added restores the
    timetable, provided the state in between is the [same] as right after
    the add. *)
Lemma remove_same t a t' :
  same (add_assignment t a) t' →
  a ∉ assignments t →
  assignment_dict t !! (section_id a, course_id a) = None →
  free t a →
  ∃ t'', remove_assignment t' a = Ok t'' ∧ same t t''.
Proof.
  intros (A & D & I & R & S) Hl Hd (Fi & Fr & Fs).
  unfold remove_assignment. simpl in *.
  rewrite A, list_remove_app_last by done.
  rewrite D, lookup_insert_eq.
  destruct (sched_remove_same _ _ _ _ I Fi) as (mi & -> & Hmi).
  destruct (sched_remove_same _ _ _ _ R Fr) as (mr & -> & Hmr).
  destruct (sched_remove_same _ _ _ _ S Fs) as (ms & -> & Hms).
  simpl. eexists. split; [done|].
  repeat split; simpl; try done.
  by rewrite delete_insert_eq, delete_id.
Qed.

(** ** Variable selection *)

Definition domain_size (domains : gmap var (list value)) (v : var) : nat :=
  length (default [] (domains !! v)).

Section SearchFacts.
Variable domains : gmap var (list value).
Variable n_variables : nat.
Variables max_backtracks print_interval : N.

Let dsize := domain_size domains.

Definition covered (unassigned : list var) : Prop :=
  Forall (λ v, is_Some (domains !! v)) unassigned.

Lemma select_loop_spec l min_size selected :
  covered l →
  ∃ r, select_loop domains l min_size selected = Ok r ∧
    ((r = selected ∧ Forall (λ u, below (dsize u) min_size = false) l) ∨
     (∃ v pre post, r = Some v ∧ l = pre ++ v :: post ∧
        below (dsize v) min_size = true ∧
        Forall (λ u, dsize v < dsize u)%nat pre ∧
        Forall (λ u, dsize v ≤ dsize u)%nat post)).
Proof.
  intros Hcov. revert min_size selected.
  induction Hcov as [|u rest [d Hd] Hrest IH]; intros min_size selected.
  - simpl. eexists. split; [done|]. left. by split.
  - simpl. rewrite Hd.
    assert (Hu : dsize u = length d).
    { unfold dsize, domain_size. by rewrite Hd. }
    destruct (below (length d) min_size) eqn:Hb.
    + destruct (IH (Some (length d)) (Some u))
        as (r & Hr & [[-> Hall]|(v & pre & post & -> & -> & Hv & Hpre & Hpost)]).
      * exists (Some u). split; [done|]. right.
        exists u, [], rest. split_and!; try done.
        -- by rewrite Hu.
        -- eapply Forall_impl; [exact Hall|]. simpl. intros x Hx.
           apply bool_decide_eq_false in Hx. lia.
      * exists (Some v). split; [done|]. right.
        exists v, (u :: pre), post. simpl in Hv.
        apply bool_decide_eq_true in Hv. split_and!; try done.
        -- destruct min_size as [m|]; simpl in *; [|done].
           apply bool_decide_eq_true in Hb.
           apply bool_decide_eq_true. lia.
        -- constructor; [lia|done].
    + destruct (IH min_size selected)
        as (r & Hr & [[-> Hall]|(v & pre & post & -> & -> & Hv & Hpre & Hpost)]).
      * exists selected. split; [done|]. left. split; [done|].
        constructor; [by rewrite Hu|done].
      * exists (Some v). split; [done|]. right.
        exists v, (u :: pre), post. split_and!; try done.
        constructor; [|done].
        destruct min_size as [m|]; simpl in *; [|done].
        apply bool_decide_eq_false in Hb.
        apply bool_decide_eq_true in Hv. lia.
Qed.

Lemma _select_next_variable_spec unassigned :
  unassigned ≠ [] → covered unassigned →
  ∃ v pre post,
    _select_next_variable domains unassigned = Ok (Some v) ∧
    unassigned = pre ++ v :: post ∧
    Forall (λ u, dsize v < dsize u)%nat pre ∧
    Forall (λ u, dsize v ≤ dsize u)%nat post.
Proof.
  intros Hne Hcov. unfold _select_next_variable.
  destruct unassigned as [|u rest]; [done|].
  destruct (select_loop_spec (u :: rest) None None Hcov)
    as (r & Hr & [[-> Hall]|(v & pre & post & -> & Hl & Hv & Hpre & Hpost)]).
  - apply Forall_cons in Hall as [Hu _]. discriminate.
  - exists v, pre, post. by split_and!.
Qed.
End SearchFacts.

(** ** The search *)

Section SearchSpec.
Variable domains : gmap var (list value).
Variable n_variables : nat.
Variables max_backtracks print_interval : N.
Hypothesis print_interval_pos : print_interval ≠ 0%N.

(** The map has no entry yet for the variables still to assign. *)
Definition fresh (tbl : Timetable) (unassigned : list var) : Prop :=
  ∀ v, v ∈ unassigned → assignment_dict tbl !! v = None.

Definition search_pre (st : SearchState) (unassigned : list var) : Prop :=
  covered domains unassigned ∧
  (unassigned ≠ [] → n_variables ≠ 0) ∧
  good domains (st_timetable st) ∧
  fresh (st_timetable st) unassigned.

(** A call returns; every state it goes through is [good]; on success
    the result is the timetable object itself, on failure the timetable
    is the [same] as at the call. *)
Definition search_post (st : SearchState)
    (o : outcome (option Timetable * SearchState)) : Prop :=
  ∃ r st', o = Returned (r, st') ∧
    (∃ new, st_trace st' = st_trace st ++ new ∧ Forall (good domains) new) ∧
    match r with
    | Some t => t = st_timetable st' ∧ good domains t
    | None => same (st_timetable st) (st_timetable st')
    end.

Lemma report_progress_ok st :
  n_variables ≠ 0 →
  ∃ st', report_progress n_variables print_interval st = Ok st' ∧
         st_timetable st' = st_timetable st ∧
         st_stats st' = st_stats st ∧
         st_trace st' = st_trace st.
Proof.
  intros Hn. unfold report_progress.
  rewrite decide_False by done.
  case_decide; [rewrite decide_False by done|]; eauto.
Qed.

Lemma search_post_step st1 st2 new o :
  st_trace st2 = st_trace st1 ++ new → Forall (good domains) new →
  same (st_timetable st1) (st_timetable st2) →
  search_post st2 o → search_post st1 o.
Proof.
  intros Htr Hnew Hsame (r & st' & -> & (new' & Htr' & Hnew') & Hr).
  exists r, st'. split; [done|]. split.
  - exists (new ++ new'). rewrite Htr', Htr, app_assoc. split; [done|].
    by apply Forall_app.
  - destruct r; [done|]. by eapply same_trans.
Qed.

Lemma Forall_pair {A} (P : A → Prop) x y : P x → P y → Forall P [x; y].
Proof. intros Hx Hy. constructor; [done|]. by constructor. Qed.

Lemma try_values_spec rec v unassigned dom :
  (∀ st, search_pre st (filter (λ u, u ≠ v) unassigned) →
         search_post st (rec st (filter (λ u, u ≠ v) unassigned))) →
  v ∈ unassigned → domains !! v = Some dom →
  ∀ domain st, domain ⊆ dom → search_pre st unassigned →
    search_post st
      (try_values n_variables print_interval rec v unassigned domain st).
Proof.
  intros Hrec Hv Hdom. induction domain as [|[[ts rm] ins] rest IH];
    intros st Hsub (Hcov & Hn & Hgood & Hfresh).
  { simpl. exists None, st. split; [done|]. split; [|apply same_refl].
    exists []. by rewrite app_nil_r. }
  assert (Hn' : n_variables ≠ 0).
  { apply Hn. intros ->. by apply elem_of_nil in Hv. }
  assert (Hrest : rest ⊆ dom).
  { intros x Hx. apply Hsub. by right. }
  simpl.
  destruct (report_progress_ok (incr_tried st) Hn')
    as (st1 & -> & Ht1 & Hs1 & Htr1).
  simpl in Ht1, Htr1.
  set (a := mkAssignment v.1 v.2 ts rm ins).
  pose proof (load_balancing_same (st_timetable st1) a) as Hsame.
  pose proof (load_balancing_true (st_timetable st1) a) as Htrue.
  destruct (_is_consistent_with_load_balancing (st_timetable st1) a)
    as [ok t1]. simpl in Hsame, Htrue. rewrite Ht1 in Hsame.
  assert (Hgood1 : good domains t1) by (by eapply good_same).
  assert (Hfresh1 : fresh t1 unassigned).
  { intros u Hu. destruct Hsame as (_ & -> & _). by apply Hfresh. }
  destruct ok.
  - destruct (Htrue eq_refl) as (Hfree & Hday & _).
    rewrite Ht1 in Hfree, Hday.
    assert (Hfree1 : free t1 a) by (by eapply free_same).
    assert (Hday1 : (day_count (TimeSlot.day (time_slot a)) (assignments t1)
                     < DAY_CAP)%nat).
    { destruct Hsame as (-> & _). done. }
    assert (Hin : in_domain domains a).
    { exists dom. simpl. rewrite <- surjective_pairing. split; [done|].
      apply Hsub. by left. }
    assert (Hgood2 : good domains (add_assignment t1 a))
      by (by apply good_add).
    set (st2 := set_timetable (set_timetable st1 t1) (add_assignment t1 a)).
    assert (Hpre2 : search_pre st2 (filter (λ u, u ≠ v) unassigned)).
    { split_and!; try done.
      - apply Forall_forall. intros u Hu.
        apply list_elem_of_filter in Hu as [_ Hu].
        by eapply Forall_forall in Hcov.
      - intros u Hu. apply list_elem_of_filter in Hu as [Hne Hu]. simpl.
        rewrite <- surjective_pairing.
        rewrite lookup_insert_ne by done. by apply Hfresh1. }
    destruct (Hrec st2 Hpre2)
      as (r & st3 & -> & (new & Htr3 & Hnew) & Hr).
    destruct r as [t|].
    + exists (Some t), st3. split; [done|]. split; [|done].
      exists ([t1; add_assignment t1 a] ++ new). split.
      * rewrite Htr3. simpl. rewrite Htr1. by rewrite <- !app_assoc.
      * apply Forall_app. split; [|done]. by apply Forall_pair.
    + destruct (remove_same t1 a (st_timetable st3)) as (t4 & -> & Hsame4).
      * done.
      * by apply free_not_elem_of; [destruct Hgood1|].
      * simpl. rewrite <- surjective_pairing. by apply Hfresh1.
      * done.
      * eapply (search_post_step st
                  (incr_backtracks (set_timetable st3 t4))
                  ([t1; add_assignment t1 a] ++ new ++ [t4])).
        -- simpl. rewrite Htr3. simpl. rewrite Htr1.
           by rewrite <- !app_assoc.
        -- apply Forall_app. split; [by apply Forall_pair|].
           apply Forall_app. split; [done|]. constructor; [|done].
           by eapply good_same.
        -- simpl. by eapply same_trans.
        -- apply IH; [done|]. split_and!; try done; simpl.
           ++ by eapply good_same.
           ++ intros u Hu. destruct Hsame4 as (_ & -> & _).
              by apply Hfresh1.
  - eapply (search_post_step st (set_timetable st1 t1) [t1]).
    + simpl. by rewrite Htr1.
    + by constructor.
    + done.
    + apply IH; [done|]. by split_and!.
Qed.

Lemma filter_ne_length (v : var) (l : list var) :
  v ∈ l → (length (filter (λ u, u ≠ v) l) < length l)%nat.
Proof.
  induction l as [|u l IH]; intros Hv; [by apply elem_of_nil in Hv|].
  rewrite filter_cons. pose proof (length_filter (λ u, u ≠ v) l).
  case_decide as Hu; simpl.
  - apply elem_of_cons in Hv as [->|Hv]; [done|]. specialize (IH Hv). lia.
  - lia.
Qed.

Lemma backtrack_spec fuel : ∀ st unassigned,
  (length unassigned ≤ fuel)%nat →
  search_pre st unassigned →
  search_post st
    (backtrack domains n_variables max_backtracks print_interval
       fuel st unassigned).
Proof.
  induction fuel as [|fuel IH]; intros st unassigned Hlen Hpre.
  - destruct unassigned; [|simpl in Hlen; lia]. simpl.
    exists (Some (st_timetable st)), st. split; [done|].
    split; [exists []; by rewrite app_nil_r|]. split; [done|apply Hpre].
  - destruct unassigned as [|u rest] eqn:Hun.
    { simpl. exists (Some (st_timetable st)), st. split; [done|].
      split; [exists []; by rewrite app_nil_r|]. split; [done|apply Hpre]. }
    rewrite <- Hun in *.
    assert (backtrack domains n_variables max_backtracks print_interval
              (S fuel) st unassigned =
            if decide (max_backtracks < backtracks (st_stats st))%N
            then Returned (None, st) else
            match _select_next_variable domains unassigned with
            | Raise e => Raised e
            | Ok None => Returned (None, st)
            | Ok (Some v) =>
                match domains !! v with
                | None => Raised KeyError
                | Some domain =>
                    try_values n_variables print_interval
                      (backtrack domains n_variables max_backtracks
                         print_interval fuel) v unassigned domain st
                end
            end) as ->.
    { rewrite Hun. reflexivity. }
    case_decide.
    { exists None, st. split; [done|]. split; [|apply same_refl].
      exists []. by rewrite app_nil_r. }
    destruct Hpre as (Hcov & Hn & Hgood & Hfresh).
    destruct (_select_next_variable_spec domains unassigned)
      as (v & pre & post & -> & Hl & _); [by rewrite Hun|done|].
    assert (Hv : v ∈ unassigned).
    { rewrite Hl. apply elem_of_app. right. by left. }
    pose proof (proj1 (Forall_forall _ _) Hcov v Hv) as [dom Hdom].
    rewrite Hdom.
    apply (try_values_spec _ v unassigned dom); try done.
    intros st' Hpre'. apply IH; [|done].
    pose proof (filter_ne_length v unassigned Hv). lia.
Qed.
End SearchSpec.

(** ** The domain builder *)

Section DomainFacts.
Variable courses : odict Course.t.
Variable instructors : odict Instructor.t.
Variable rooms : odict Room.t.
Variable time_slots : odict TimeSlot.t.

Lemma generate_domain_elem_of srooms sinstrs ts rm ins :
  (ts, rm, ins) ∈ generate_domain time_slots srooms sinstrs →
  ts ∈ odict_values time_slots ∧ rm ∈ srooms ∧ ins ∈ sinstrs ∧
  TimeSlot.day ts ∉ Instructor.unavailable_days ins.
Proof.
  unfold generate_domain. intros H.
  apply list_elem_of_bind in H as (ts' & H & Hts).
  apply list_elem_of_bind in H as (rm' & H & Hrm).
  apply list_elem_of_bind in H as (ins' & H & Hins).
  case_decide; [by apply elem_of_nil in H|].
  apply list_elem_of_singleton in H. by simplify_eq.
Qed.

Lemma domain_of_elem_of course_id course ts rm ins :
  (ts, rm, ins) ∈ (domain_of instructors rooms time_slots course_id course).1 →
  ts ∈ odict_values time_slots ∧
  rm ∈ odict_values rooms ∧
  Room.type rm = room_type_of course_id course ∧
  ins ∈ odict_values instructors ∧
  course_id ∈ Instructor.qualified_courses ins ∧
  TimeSlot.day ts ∉ Instructor.unavailable_days ins.
Proof.
  unfold domain_of. intros H.
  assert (Hg : (ts, rm, ins) ∈ generate_domain time_slots
                 (suitable_rooms_of rooms course_id course)
                 (qualified_instructors_of instructors course_id)).
  { destruct (qualified_instructors_of instructors course_id);
      [by apply elem_of_nil in H|].
    destruct (suitable_rooms_of rooms course_id course);
      [by apply elem_of_nil in H|]. done. }
  apply generate_domain_elem_of in Hg as (Hts & Hrm & Hins & Hday).
  apply list_elem_of_filter in Hrm as [Hty Hrm].
  apply list_elem_of_filter in Hins as [Hq Hins]. done.
Qed.

(** Where every entry of the domains comes from. *)
Definition domain_built (v : var) (domain : list value) : Prop :=
  ∃ course, odict_get v.2 courses = Some course ∧
    domain = (domain_of instructors rooms time_slots v.2 course).1.

Lemma precompute_loop_spec variables : ∀ d out d' out',
  precompute_loop courses instructors rooms time_slots variables d out
    = Ok (d', out') →
  (∀ v, v ∈ variables ∨ is_Some (d !! v) → is_Some (d' !! v)) ∧
  (∀ v domain, d' !! v = Some domain →
     d !! v = Some domain ∨ domain_built v domain) ∧
  (∀ v, is_Some (d' !! v) → v ∈ variables ∨ is_Some (d !! v)).
Proof.
  induction variables as [|[sec cid] rest IH]; intros d out d' out' H.
  - simpl in H. simplify_eq. split_and!; [|by left|by right].
    intros v [Hv|Hv]; [by apply elem_of_nil in Hv|done].
  - simpl in H. destruct (odict_get cid courses) as [course|] eqn:Hc;
      [|discriminate].
    destruct (domain_of instructors rooms time_slots cid course)
      as [domain evs] eqn:Hdom.
    apply IH in H as (H1 & H2 & H3). split_and!.
    + intros v [Hv|Hv]; apply H1.
      * apply elem_of_cons in Hv as [->|Hv]; [right|by left].
        rewrite lookup_insert_eq. eauto.
      * right. destruct (decide ((sec, cid) = v)) as [->|Hne].
        -- rewrite lookup_insert_eq. eauto.
        -- by rewrite lookup_insert_ne.
    + intros v dom' Hv. destruct (H2 v dom' Hv) as [Hi|Hb]; [|by right].
      destruct (decide ((sec, cid) = v)) as [<-|Hne].
      * rewrite lookup_insert_eq in Hi. simplify_eq. right.
        exists course. simpl. by rewrite Hdom.
      * rewrite lookup_insert_ne in Hi by done. by left.
    + intros v Hv. destruct (H3 v Hv) as [Hr|Hi]; [left; by right|].
      destruct (decide ((sec, cid) = v)) as [<-|Hne]; [left; by left|].
      rewrite lookup_insert_ne in Hi by done. by right.
Qed.
End DomainFacts.

(** What a solver built by [FinalFixSolver.__init__] satisfies. *)
Record well_built (S : Solver) : Prop :=
  { wb_nonempty : variables S ≠ [];
    wb_covered : covered (domains S) (variables S);
    wb_keys : ∀ v, is_Some (domains S !! v) → v ∈ variables S;
    wb_domains : ∀ v domain, domains S !! v = Some domain →
      domain_built (courses S) (instructors S) (rooms S) (time_slots S)
        v domain }.

Lemma FinalFixSolver_init_well_built cs ins rs ss tsl S out :
  FinalFixSolver_init cs ins rs ss tsl = Ok (S, out) → well_built S.
Proof.
  unfold FinalFixSolver_init. intros H.
  destruct (_precompute_domains_final _ _ _ _ _) as [[d o]|e] eqn:Hp;
    [|discriminate].
  simpl in H.
  apply precompute_loop_spec in Hp as (H1 & H2 & H3).
  destruct (map_to_list d) as [|kv kvs] eqn:Hd; [discriminate|].
  simpl in H.
  assert (HS : S = mkSolver (odict_of_list Course.id cs)
                 (_fix_instructor_qualifications
                    (odict_of_list Instructor.id ins))
                 (_fix_room_types rs) ss (odict_of_list TimeSlot.id tsl)
                 (_create_variables ss) d (mkStats 0 0)).
  { destruct (filter _ _); by simplify_eq. }
  subst S. clear H. split; simpl.
  - intros Hv. assert (Hkv : kv ∈ map_to_list d) by (rewrite Hd; by left).
    destruct kv as [k x]. apply elem_of_map_to_list in Hkv.
    destruct (H3 k) as [Hk|[? Hk]]; [eauto| |by rewrite lookup_empty in Hk].
    rewrite Hv in Hk. by apply elem_of_nil in Hk.
  - apply Forall_forall. intros v Hv. apply H1. by left.
  - intros v Hv. destruct (H3 v Hv) as [?|[? Hk]]; [done|].
    by rewrite lookup_empty in Hk.
  - intros v dom Hv. destruct (H2 v dom Hv) as [Hk|?]; [|done].
    by rewrite lookup_empty in Hk.
Qed.

(** ** [backtracking_search] and [solve] *)

Lemma PRINT_INTERVAL_pos : PRINT_INTERVAL ≠ 0%N.
Proof. done. Qed.

Lemma backtracking_search_set_stats S x mb pi :
  backtracking_search (set_stats S x) mb pi = backtracking_search S mb pi.
Proof. reflexivity. Qed.

Lemma backtracking_search_self S mb pi r :
  backtracking_search S mb pi = Returned r → ∃ x, self r = set_stats S x.
Proof.
  unfold backtracking_search. intros H.
  destruct (backtrack _ _ _ _ _ _ _) as [[res st]| |]; simplify_eq.
  by eexists.
Qed.

Lemma backtracking_search_again S mb pi r :
  backtracking_search S mb pi = Returned r →
  backtracking_search (self r) mb pi = Returned r.
Proof.
  intros H. destruct (backtracking_search_self _ _ _ _ H) as [x ->].
  by rewrite backtracking_search_set_stats.
Qed.

Lemma backtracking_search_spec S mb pi :
  pi ≠ 0%N → covered (domains S) (variables S) →
  ∃ r, backtracking_search S mb pi = Returned r ∧
       Forall (good (domains S)) (visited r) ∧
       (∀ t, result r = Some t → good (domains S) t).
Proof.
  intros Hpi Hcov. unfold backtracking_search. simpl.
  set (st0 := mkState Timetable_new _ _ _).
  destruct (backtrack_spec (domains S) (length (variables S)) mb pi Hpi
              (length (variables S)) st0 (variables S))
    as (res & st & Hb & (new & Htr & Hnew) & Hres).
  - done.
  - split_and!; [done| |apply good_new|done].
    intros Hne Hlen. by apply length_zero_iff_nil in Hlen.
  - simpl in Hb. rewrite Hb. eexists. split; [done|]. simpl. split.
    + rewrite Htr. apply Forall_app. split; [|done].
      constructor; [apply good_new|done].
    + intros t ->. apply Hres.
Qed.

Lemma solve_loop_spec n remaining : ∀ S attempt out seen,
  covered (domains S) (variables S) →
  Forall (good (domains S)) seen →
  ∃ r, solve_loop n S attempt remaining out seen = Returned r ∧
       (∃ x, self r = set_stats S x) ∧
       Forall (good (domains S)) (visited r) ∧
       (∀ t, result r = Some t → good (domains S) t).
Proof.
  induction remaining as [|remaining IH]; intros S attempt out seen Hcov Hseen.
  - simpl. eexists. split; [done|]. simpl. split_and!; [|done|done].
    exists (stats S). by destruct S.
  - simpl.
    destruct (backtracking_search_spec S MAX_BACKTRACKS PRINT_INTERVAL
                PRINT_INTERVAL_pos Hcov) as (r & Hr & Hvis & Hres).
    rewrite Hr.
    destruct (backtracking_search_self _ _ _ _ Hr) as [x Hx].
    assert (Hseen' : Forall (good (domains S)) (seen ++ visited r))
      by (by apply Forall_app).
    destruct (result r) as [t|] eqn:Et.
    + eexists. split; [done|]. simpl. split_and!; [by eexists|done|].
      intros t' [= <-]. by apply Hres.
    + rewrite Hx.
      destruct (IH (set_stats S x) (attempt + 1)
                  (out ++ [EvAttempt (attempt + 1) n] ++ output r ++
                     [EvNoSolution (attempt + 1)
                        (backtracks (stats (set_stats S x)))])
                  (seen ++ visited r) Hcov Hseen')
        as (r' & Hr' & [x' Hx'] & Hvis' & Hres').
      rewrite <- !app_assoc. rewrite Hr'. eexists. split; [done|].
      split_and!; [by exists x'|done|done].
Qed.

(** [solve] terminates with a return value on every well-built solver. *)
Lemma solve_spec S n :
  well_built S →
  ∃ r, solve S n = Returned r ∧
       (∃ x, self r = set_stats S x) ∧
       Forall (good (domains S)) (visited r) ∧
       (∀ t, result r = Some t → good (domains S) t).
Proof. intros HS. apply solve_loop_spec; [apply HS|constructor]. Qed.

Lemma solve_entities_spec cs ins rs ss tsl r :
  solve_entities cs ins rs ss tsl = Returned r →
  ∃ S out, FinalFixSolver_init cs ins rs ss tsl = Ok (S, out) ∧
    well_built S ∧
    (∃ x, self r = set_stats S x) ∧
    Forall (good (domains S)) (visited r) ∧
    (∀ t, result r = Some t → good (domains S) t).
Proof.
  unfold solve_entities. intros H.
  destruct (FinalFixSolver_init cs ins rs ss tsl) as [[S out]|e] eqn:Hinit;
    [|discriminate].
  pose proof (FinalFixSolver_init_well_built _ _ _ _ _ _ _ Hinit) as HS.
  destruct (solve_spec S MAX_ATTEMPTS HS) as (r' & Hr' & Hx & Hvis & Hres).
  rewrite Hr' in H. simplify_eq. simpl. by exists S, out.
Qed.

(** The pipeline never runs out of fuel: it returns, or raises what
    [FinalFixSolver.__init__] raises. *)
Lemma solve_entities_total cs ins rs ss tsl :
  (∃ r, solve_entities cs ins rs ss tsl = Returned r) ∨
  (∃ e, FinalFixSolver_init cs ins rs ss tsl = Raise e ∧
        solve_entities cs ins rs ss tsl = Raised e).
Proof.
  unfold solve_entities.
  destruct (FinalFixSolver_init cs ins rs ss tsl) as [[S out]|e] eqn:Hinit.
  - left.
    pose proof (FinalFixSolver_init_well_built _ _ _ _ _ _ _ Hinit) as HS.
    destruct (solve_spec S MAX_ATTEMPTS HS) as (r' & -> & _). by eexists.
  - right. by exists e.
Qed.

(** ** A small instance

    One section taking a classroom course and a lab course (lab by its id),
    two Monday slots, one room of each class, one instructor qualified for
    both and one who is away on Mondays. *)

Definition demo_courses : list Course.t :=
  [Course.mk "ENG101" "English" 3 "Lecture";
   Course.mk "PHY113" "Physics" 3 "Lecture"].
Definition demo_instructors : list Instructor.t :=
  [Instructor.mk "PROF01" "Ada" ["Monday"] ["ENG101"; "PHY113"];
   Instructor.mk "PROF02" "Bob" [] ["ENG101"; "PHY113"]].
Definition demo_rooms : list Room.t :=
  [Room.mk "LAB1" "Lab" 20; Room.mk "RM1" "Classroom" 40].
Definition demo_sections : list Section_.t :=
  [Section_.mk "S1" 30 ["ENG101"; "PHY113"]].
Definition demo_time_slots : list TimeSlot.t :=
  [TimeSlot.mk "T1" "Monday" "09:00" "09:45" 45;
   TimeSlot.mk "T2" "Monday" "10:00" "10:45" 45].

Definition no_run : Run :=
  mkRun None (mkSolver [] [] [] [] [] [] ∅ (mkStats 0 0)) [] [].

Definition demo_run : Run :=
  Eval vm_compute in
    match solve_entities demo_courses demo_instructors demo_rooms
            demo_sections demo_time_slots with
    | Returned r => r
    | _ => no_run
    end.

Definition demo_timetable : Timetable :=
  Eval vm_compute in default Timetable_new (result demo_run).

Lemma demo_run_eq :
  solve_entities demo_courses demo_instructors demo_rooms demo_sections
    demo_time_slots = Returned demo_run.
Proof. vm_compute. reflexivity. Qed.

Lemma demo_result_eq : result demo_run = Some demo_timetable.
Proof. vm_compute. reflexivity. Qed.

Example demo_assignments :
  (λ a, (section_id a, course_id a, TimeSlot.id (time_slot a),
         Room.id (room a), Instructor.id (instructor a)))
    <$> assignments demo_timetable =
  [("S1", "ENG101", "T1", "RM1", "PROF02");
   ("S1", "PHY113", "T2", "LAB1", "PROF02")].
Proof. vm_compute. reflexivity. Qed.

(** ** No double booking *)

Lemma filter_le_1 {A B} `{EqDecision B} (f : A → B) (P : A → Prop)
    `{∀ a, Decision (P a)} (k : B) (l : list A) :
  NoDup (f <$> l) → (∀ a, P a → f a = k) →
  (length (filter P l) ≤ 1)%nat.
Proof.
  intros Hnd HP. induction l as [|a l IH]; [simpl; lia|].
  rewrite fmap_cons in Hnd. apply NoDup_cons in Hnd as [Hnotin Hnd].
  rewrite filter_cons. case_decide as Ha; [|by apply IH].
  destruct (filter P l) as [|b l'] eqn:E; [simpl; lia|].
  assert (Hb : b ∈ filter P l) by (rewrite E; by left).
  apply list_elem_of_filter in Hb as [Pb Hb]. exfalso.
  apply Hnotin. apply list_elem_of_fmap. exists b. split; [|done].
  by rewrite (HP a Ha), (HP b Pb).
Qed.

(** C1.  In every timetable returned by [solve], at most one assignment
    has a given instructor and time slot, at most one a given room and time
    slot, and at most one a given section and time slot; the same holds
    when resources and slots are compared by id alone. *)
Theorem C1_no_double_booking cs ins rs ss tsl r t :
  solve_entities cs ins rs ss tsl = Returned r →
  result r = Some t →
  (∀ I T, (length (filter (λ a, instructor a = I ∧ time_slot a = T)
                     (assignments t)) ≤ 1)%nat) ∧
  (∀ R T, (length (filter (λ a, room a = R ∧ time_slot a = T)
                     (assignments t)) ≤ 1)%nat) ∧
  (∀ sec T, (length (filter (λ a, section_id a = sec ∧ time_slot a = T)
                       (assignments t)) ≤ 1)%nat) ∧
  conflict_free (assignments t).
Proof.
  intros Hrun Hres.
  destruct (solve_entities_spec _ _ _ _ _ _ Hrun)
    as (S & out & _ & _ & _ & _ & Hgood).
  destruct (Hgood t Hres) as (_ & Hcf & _).
  pose proof Hcf as (Ni & Nr & Ns). split_and!; [| | |done].
  - intros I T.
    apply (filter_le_1 instr_key _ (Instructor.id I, TimeSlot.id T));
      [done|]. by intros a [<- <-].
  - intros R T.
    apply (filter_le_1 room_key _ (Room.id R, TimeSlot.id T)); [done|].
    by intros a [<- <-].
  - intros sec T.
    apply (filter_le_1 section_key _ (sec, TimeSlot.id T)); [done|].
    by intros a [<- <-].
Qed.

Lemma C1_no_double_booking_witness :
  solve_entities demo_courses demo_instructors demo_rooms demo_sections
    demo_time_slots = Returned demo_run ∧
  result demo_run = Some demo_timetable ∧
  conflict_free (assignments demo_timetable).
Proof.
  split; [exact demo_run_eq|]. split; [exact demo_result_eq|].
  apply (C1_no_double_booking demo_courses demo_instructors demo_rooms
           demo_sections demo_time_slots demo_run demo_timetable).
  - exact demo_run_eq.
  - exact demo_result_eq.
Defined.

(** ** Qualification, availability and room class *)

Lemma in_domain_built S a :
  well_built S → in_domain (domains S) a →
  ∃ course, odict_get (course_id a) (courses S) = Some course ∧
    (time_slot a, room a, instructor a)
      ∈ (domain_of (instructors S) (rooms S) (time_slots S)
           (course_id a) course).1.
Proof.
  intros HS (dom & Hdom & Ha).
  destruct (wb_domains S HS _ _ Hdom) as (course & Hc & ->).
  by exists course.
Qed.

(** C2.  Every assignment of a timetable returned by [solve] has an
    instructor who is qualified for its course and who is not unavailable
    on the day of its time slot. *)
Theorem C2_instructor_qualified_and_available cs ins rs ss tsl r t a :
  solve_entities cs ins rs ss tsl = Returned r →
  result r = Some t →
  a ∈ assignments t →
  course_id a ∈ Instructor.qualified_courses (instructor a) ∧
  TimeSlot.day (time_slot a) ∉ Instructor.unavailable_days (instructor a).
Proof.
  intros Hrun Hres Ha.
  destruct (solve_entities_spec _ _ _ _ _ _ Hrun)
    as (S & out & _ & HS & _ & _ & Hgood).
  destruct (Hgood t Hres) as (_ & _ & _ & Hdom).
  pose proof (proj1 (Forall_forall _ _) Hdom a Ha) as Hin.
  destruct (in_domain_built S a HS Hin) as (course & _ & Hel).
  apply domain_of_elem_of in Hel. tauto.
Qed.

Lemma C2_instructor_qualified_and_available_witness :
  Forall (λ a,
    course_id a ∈ Instructor.qualified_courses (instructor a) ∧
    TimeSlot.day (time_slot a) ∉ Instructor.unavailable_days (instructor a))
    (assignments demo_timetable).
Proof.
  apply Forall_forall. intros a Ha.
  apply (C2_instructor_qualified_and_available demo_courses demo_instructors
           demo_rooms demo_sections demo_time_slots demo_run demo_timetable a).
  - exact demo_run_eq.
  - exact demo_result_eq.
  - exact Ha.
Defined.



Lemma room_type_of_Lab course_id course :
  room_type_of course_id course = "Lab" ↔
  (course_id ∈ lab_courses ∨ contains "Lab" (Course.type course) = true).
Proof.
  unfold room_type_of, is_lab_course.
  destruct (bool_decide (course_id ∈ lab_courses)) eqn:Hl; simpl.
  - apply bool_decide_eq_true in Hl. tauto.
  - apply bool_decide_eq_false in Hl.
    destruct (contains "Lab" (Course.type course)); simpl.
    + tauto.
    + split; [discriminate|]. intros [?|?]; [done|discriminate].
Qed.

Lemma room_type_of_cases course_id course :
  room_type_of course_id course = "Lab" ∨
  room_type_of course_id course = "Classroom".
Proof. unfold room_type_of. destruct (is_lab_course _ _); eauto. Qed.

(** C3.  In a timetable returned by [solve], the room of an assignment has
    type "Lab" exactly when the course id is in the lab-course set or the
    type of the course contains "Lab"; every other assignment has a room of
    type "Classroom". *)
Theorem C3_room_type_law cs ins rs ss tsl r t a :
  solve_entities cs ins rs ss tsl = Returned r →
  result r = Some t →
  a ∈ assignments t →
  ∃ course,
    odict_get (course_id a) (courses (self r)) = Some course ∧
    (Room.type (room a) = "Lab" ↔
     (course_id a ∈ lab_courses ∨
      contains "Lab" (Course.type course) = true)) ∧
    (Room.type (room a) ≠ "Lab" → Room.type (room a) = "Classroom").
Proof.
  intros Hrun Hres Ha.
  destruct (solve_entities_spec _ _ _ _ _ _ Hrun)
    as (S & out & _ & HS & [x Hx] & _ & Hgood).
  destruct (Hgood t Hres) as (_ & _ & _ & Hdom).
  pose proof (proj1 (Forall_forall _ _) Hdom a Ha) as Hin.
  destruct (in_domain_built S a HS Hin) as (course & Hc & Hel).
  apply domain_of_elem_of in Hel as (_ & _ & Hty & _).
  exists course. rewrite Hx. simpl. split; [done|]. rewrite Hty. split.
  - apply room_type_of_Lab.
  - by destruct (room_type_of_cases (course_id a) course).
Qed.

Lemma C3_room_type_law_witness :
  Forall (λ a, ∃ course,
    odict_get (course_id a) (courses (self demo_run)) = Some course ∧
    (Room.type (room a) = "Lab" ↔
     (course_id a ∈ lab_courses ∨
      contains "Lab" (Course.type course) = true)) ∧
    (Room.type (room a) ≠ "Lab" → Room.type (room a) = "Classroom"))
    (assignments demo_timetable).
Proof.
  apply Forall_forall. intros a Ha.
  apply (C3_room_type_law demo_courses demo_instructors demo_rooms
           demo_sections demo_time_slots demo_run demo_timetable a).
  - exact demo_run_eq.
  - exact demo_result_eq.
  - exact Ha.
Defined.

(** ** The day cap *)

(** A timetable whose Monday already carries [DAY_CAP] assignments, and a
    further Monday candidate that clashes with none of them. *)
Definition monday_slot (n : nat) : TimeSlot.t :=
  TimeSlot.mk (String (Ascii.ascii_of_nat (48 + n)) "M") "Monday" "09:00"
    "09:45" 45.

Definition full_monday : Timetable :=
  mkTimetable
    ((λ n, mkAssignment "S1" "ENG101" (monday_slot n)
             (Room.mk "RM1" "Classroom" 40)
             (Instructor.mk "PROF02" "Bob" [] ["ENG101"])) <$> seq 0 DAY_CAP)
    ∅ ∅ ∅ ∅.

Definition late_candidate : Assignment :=
  mkAssignment "S2" "ENG101" (monday_slot 99) (Room.mk "RM2" "Classroom" 40)
    (Instructor.mk "PROF03" "Cy" [] ["ENG101"]).

(** C4.  The load-balancing check rejects a candidate as soon as its day
    already carries [DAY_CAP] (55) assignments; hence every timetable state
    the search goes through, and every timetable [solve] returns, has at
    most [DAY_CAP] assignments on each day. *)
Theorem C4_day_cap cs ins rs ss tsl r :
  solve_entities cs ins rs ss tsl = Returned r →
  (∀ tbl a,
     (DAY_CAP ≤ day_count (TimeSlot.day (time_slot a)) (assignments tbl))%nat →
     (_is_consistent_with_load_balancing tbl a).1 = false) ∧
  Forall (λ tbl, ∀ day, (day_count day (assignments tbl) ≤ DAY_CAP)%nat)
    (visited r) ∧
  (∀ t, result r = Some t →
        ∀ day, (day_count day (assignments t) ≤ DAY_CAP)%nat).
Proof.
  intros Hrun.
  destruct (solve_entities_spec _ _ _ _ _ _ Hrun)
    as (S & out & _ & _ & _ & Hvis & Hgood).
  split_and!.
  - intros tbl a. apply load_balancing_cap.
  - eapply Forall_impl; [exact Hvis|]. by intros tbl (_ & _ & Hcap & _).
  - intros t Hres. by destruct (Hgood t Hres) as (_ & _ & Hcap & _).
Qed.

Lemma C4_day_cap_witness :
  (_is_consistent_with_load_balancing full_monday late_candidate).1 = false ∧
  Forall (λ tbl, ∀ day, (day_count day (assignments tbl) ≤ DAY_CAP)%nat)
    (visited demo_run) ∧
  (∀ day, (day_count day (assignments demo_timetable) ≤ DAY_CAP)%nat).
Proof.
  destruct (C4_day_cap demo_courses demo_instructors demo_rooms
              demo_sections demo_time_slots demo_run demo_run_eq)
    as (Hreject & Hvis & Hres).
  split_and!.
  - apply Hreject. vm_compute. lia.
  - exact Hvis.
  - exact (Hres demo_timetable demo_result_eq).
Defined.

Example full_monday_conflict_free :
  (_is_consistent full_monday late_candidate).1 = true.
Proof. vm_compute. reflexivity. Qed.

(** ** MRV selection *)

(** C5.  On a non-empty list of unassigned variables the selection returns
    a variable of the list whose precomputed domain is smallest, and the
    first such: every variable before it has a strictly larger domain,
    every variable after it a domain at least as large. *)
Theorem C5_mrv_first_smallest domains unassigned :
  unassigned ≠ [] →
  covered domains unassigned →
  ∃ v pre post,
    _select_next_variable domains unassigned = Ok (Some v) ∧
    unassigned = pre ++ v :: post ∧
    Forall (λ u, domain_size domains v < domain_size domains u)%nat pre ∧
    Forall (λ u, domain_size domains v ≤ domain_size domains u)%nat post.
Proof. apply _select_next_variable_spec. Qed.

Example demo_select :
  _select_next_variable (domains (self demo_run))
    [("S1", "ENG101"); ("S1", "PHY113")] = Ok (Some ("S1", "ENG101")).
Proof. vm_compute. reflexivity. Qed.

Lemma demo_covered :
  covered (domains (self demo_run)) (variables (self demo_run)).
Proof. repeat constructor; vm_compute; eauto. Qed.

Lemma C5_mrv_first_smallest_witness :
  ∃ v pre post,
    _select_next_variable (domains (self demo_run)) (variables (self demo_run))
      = Ok (Some v) ∧
    variables (self demo_run) = pre ++ v :: post ∧
    Forall (λ u, domain_size (domains (self demo_run)) v
                 < domain_size (domains (self demo_run)) u)%nat pre ∧
    Forall (λ u, domain_size (domains (self demo_run)) v
                 ≤ domain_size (domains (self demo_run)) u)%nat post.
Proof.
  apply (C5_mrv_first_smallest (domains (self demo_run))
           (variables (self demo_run))).
  - discriminate.
  - exact demo_covered.
Defined.

(** ** Add then remove *)

Definition demo_slot : TimeSlot.t :=
  TimeSlot.mk "T1" "Monday" "09:00" "09:45" 45.
Definition demo_room : Room.t := Room.mk "RM1" "Classroom" 40.
Definition demo_instructor : Instructor.t :=
  Instructor.mk "PROF02" "Bob" [] ["ENG101"; "PHY113"].

(** Two assignments of the same instructor, room and slot to two
    sections. *)
Definition first_booking : Assignment :=
  mkAssignment "S1" "ENG101" demo_slot demo_room demo_instructor.
Definition second_booking : Assignment :=
  mkAssignment "S2" "ENG101" demo_slot demo_room demo_instructor.

Definition booked_once : Timetable :=
  add_assignment Timetable_new first_booking.

(** On the empty timetable the add and remove leave an empty set under the
    three keys of the assignment, so the indices are not the dicts they
    were.  On a timetable where the slot of the instructor is already
    taken, the remove also frees the slot the earlier assignment holds;
    and adding an assignment that is already there, then removing it,
    deletes its map entry. *)
Lemma C6_add_remove_counterexample :
  remove_assignment (add_assignment Timetable_new first_booking) first_booking
    ≠ Ok Timetable_new ∧
  (∃ t', remove_assignment (add_assignment booked_once second_booking)
           second_booking = Ok t' ∧
         slots (instructor_schedule booked_once) "PROF02" = {["T1"]} ∧
         slots (instructor_schedule t') "PROF02" = ∅) ∧
  (∃ t', remove_assignment (add_assignment booked_once first_booking)
           first_booking = Ok t' ∧
         assignment_dict booked_once !! ("S1", "ENG101") = Some first_booking ∧
         assignment_dict t' !! ("S1", "ENG101") = None).
Proof.
  split_and!.
  - vm_compute. discriminate.
  - eexists. split_and!; vm_compute; reflexivity.
  - eexists. split_and!; vm_compute; reflexivity.
Qed.

(** C6 (amended).  When the assignment is not in the list, its variable has
    no entry in the map and its slot is free for its instructor, its room
    and its section, add followed by remove succeeds and restores the list
    and the map exactly; each index gets back the slot set of every key,
    and is the dict it was except that the key of the assignment is now
    present (with the empty set if it was missing).  When the three keys
    were already present the timetable is restored exactly. *)
Theorem C6_add_remove_restores tbl a :
  a ∉ assignments tbl →
  assignment_dict tbl !! (section_id a, course_id a) = None →
  free tbl a →
  ∃ tbl', remove_assignment (add_assignment tbl a) a = Ok tbl' ∧
    assignments tbl' = assignments tbl ∧
    assignment_dict tbl' = assignment_dict tbl ∧
    instructor_schedule tbl' =
      touch (Instructor.id (instructor a)) (instructor_schedule tbl) ∧
    room_schedule tbl' = touch (Room.id (room a)) (room_schedule tbl) ∧
    section_schedule tbl' = touch (section_id a) (section_schedule tbl) ∧
    same tbl tbl' ∧
    (is_Some (instructor_schedule tbl !! Instructor.id (instructor a)) →
     is_Some (room_schedule tbl !! Room.id (room a)) →
     is_Some (section_schedule tbl !! section_id a) →
     tbl' = tbl).
Proof.
  intros Hl Hd Hfree. exists (touched tbl a).
  split; [by apply remove_add|]. split_and!; try done.
  - apply same_touched.
  - intros Hi Hr Hs. unfold touched. rewrite !touch_id by done.
    by destruct tbl.
Qed.

Lemma C6_add_remove_restores_witness :
  remove_assignment
    (add_assignment (_is_consistent Timetable_new first_booking).2
       first_booking) first_booking
  = Ok (_is_consistent Timetable_new first_booking).2.
Proof.
  destruct (C6_add_remove_restores
              (_is_consistent Timetable_new first_booking).2 first_booking)
    as (tbl' & Hrm & _ & _ & _ & _ & _ & _ & Heq).
  - vm_compute. intros H. by apply elem_of_nil in H.
  - vm_compute. reflexivity.
  - apply (free_same Timetable_new); [apply _is_consistent_same|].
    unfold free. simpl. unfold slots. rewrite !lookup_empty. simpl.
    split_and!; apply not_elem_of_empty.
  - rewrite Hrm. f_equal. apply Heq; vm_compute; eauto.
Defined.

(** ** Qualification augmentation *)

(** The instructors dict is keyed by the ids of its values, without
    repetition. *)
Definition keyed_by_id (d : odict Instructor.t) : Prop :=
  NoDup d.*1 ∧ Forall (λ kv, kv.1 = Instructor.id kv.2) d.

Lemma odict_set_keys {V} k (v : V) d :
  (odict_set k v d).*1 = if decide (k ∈ d.*1) then d.*1 else d.*1 ++ [k].
Proof.
  induction d as [|[k' v'] d IH]; [done|]. csimpl.
  destruct (decide (k' = k)) as [->|Hne]; csimpl.
  - rewrite decide_True; [done|]. by left.
  - rewrite IH. destruct (decide (k ∈ d.*1)) as [Hin|Hnotin].
    + rewrite decide_True; [done|]. by right.
    + rewrite decide_False; [done|].
      intros Hin. apply elem_of_cons in Hin as [->|Hin]; done.
Qed.


Lemma odict_set_keyed k v d :
  keyed_by_id d → k = Instructor.id v → keyed_by_id (odict_set k v d).
Proof.
  intros [Hnd Hid] ->. split.
  - rewrite odict_set_keys. case_decide; [done|].
    apply NoDup_app. split_and!; [done| |apply NoDup_singleton].
    intros x Hx Hx'. apply list_elem_of_singleton in Hx' as ->. done.
  - clear Hnd. induction d as [|[k' v'] d IH]; simpl.
    + by constructor.
    + apply Forall_cons in Hid as [Hk Hd]. case_decide.
      * by constructor.
      * constructor; [done|]. by apply IH.
Qed.

Lemma odict_of_list_keyed l : keyed_by_id (odict_of_list Instructor.id l).
Proof.
  unfold odict_of_list.
  assert (H : ∀ d, keyed_by_id d →
    keyed_by_id (foldl (λ d v, odict_set (Instructor.id v) v d) d l)).
  { induction l as [|v l IH]; intros d Hd; simpl; [done|].
    apply IH. by apply odict_set_keyed. }
  apply H. split; constructor.
Qed.

(** Applying [f] to the values stored under the keys [ks]. *)
Definition alter_at (f : Instructor.t → Instructor.t) (ks : list string)
    (d : odict Instructor.t) : odict Instructor.t :=
  (λ kv, (kv.1, if decide (kv.1 ∈ ks) then f kv.2 else kv.2)) <$> d.

Lemma alter_at_keys f ks d : (alter_at f ks d).*1 = d.*1.
Proof.
  unfold alter_at. rewrite <- list_fmap_compose. by apply list_fmap_ext.
Qed.

Lemma alter_at_nil f d : alter_at f [] d = d.
Proof.
  unfold alter_at. rewrite <- (list_fmap_id d) at 2.
  apply list_fmap_ext. by intros _ [k v] _.
Qed.

Lemma odict_alter_not_elem_of {V} (f : V → V) k d :
  k ∉ d.*1 → odict_alter f k d = d.
Proof.
  induction d as [|[k' v'] d IH]; intros Hk; csimpl; [done|].
  csimpl in Hk. apply not_elem_of_cons in Hk as [Hne Hk].
  rewrite decide_False by done. by rewrite IH.
Qed.

Lemma odict_alter_alter_at f k d :
  NoDup d.*1 → odict_alter f k d = alter_at f [k] d.
Proof.
  induction d as [|[k' v'] d IH]; intros Hnd; csimpl; [done|].
  csimpl in Hnd. apply NoDup_cons in Hnd as [Hk' Hnd].
  destruct (decide (k' = k)) as [->|Hne].
  - rewrite decide_True by (by left). f_equal.
    rewrite <- (odict_alter_not_elem_of f k d) at 1 by done. by apply IH.
  - rewrite decide_False.
    2:{ intros Hin. by apply list_elem_of_singleton in Hin. }
    f_equal. by apply IH.
Qed.

Lemma foldl_odict_alter f ks : ∀ d,
  NoDup d.*1 → NoDup ks →
  foldl (λ d k, odict_alter f k d) d ks = alter_at f ks d.
Proof.
  induction ks as [|k ks IH]; intros d Hd Hks; simpl.
  - by rewrite alter_at_nil.
  - apply NoDup_cons in Hks as [Hk Hks].
    rewrite odict_alter_alter_at by done.
    rewrite IH by (by rewrite ?alter_at_keys).
    unfold alter_at. rewrite <- list_fmap_compose.
    apply list_fmap_ext. intros _ [k' v'] _. simpl.
    destruct (decide (k' = k)) as [->|Hne].
    + rewrite (decide_True (P := k ∈ [k])) by (by left).
      rewrite decide_False by done. rewrite decide_True by (by left). done.
    + rewrite (decide_False (P := k' ∈ [k])).
      2:{ intros Hin. by apply list_elem_of_singleton in Hin. }
      destruct (decide (k' ∈ ks)) as [Hin|Hnotin].
      * rewrite decide_True by (by right). done.
      * rewrite decide_False; [done|].
        intros Hin. apply elem_of_cons in Hin as [?|?]; done.
Qed.

(** The first three instructors the prefixes match, and their ids. *)
Definition first_three (d : odict Instructor.t) : list Instructor.t :=
  take 3 (filter (λ instr, suitable instr = true) (odict_values d)).

Definition targets (d : odict Instructor.t) : list string :=
  Instructor.id <$> first_three d.

Lemma keyed_values_ids d :
  keyed_by_id d → Instructor.id <$> odict_values d = d.*1.
Proof.
  intros [_ Hid]. unfold odict_values. rewrite <- list_fmap_compose.
  apply list_fmap_ext. intros i kv Hkv. simpl.
  symmetry. eapply Forall_lookup_1 in Hid; [exact Hid|exact Hkv].
Qed.

Lemma targets_NoDup d : keyed_by_id d → NoDup (targets d).
Proof.
  intros Hd. apply (sublist_NoDup _ (Instructor.id <$> odict_values d)).
  - rewrite keyed_values_ids by done. apply Hd.
  - apply fmap_sublist. unfold first_three.
    etrans; [apply sublist_take|apply sublist_filter].
Qed.

Lemma fix_course_spec d course_id :
  keyed_by_id d →
  fix_course d course_id =
  alter_at (add_qualification course_id) (targets d) d.
Proof.
  intros Hd. unfold fix_course. fold (first_three d).
  rewrite <- (foldl_fmap (λ d k, odict_alter (add_qualification course_id) k d)
                d (first_three d) Instructor.id).
  apply foldl_odict_alter; [apply Hd|by apply targets_NoDup].
Qed.

Lemma add_qualification_id c i :
  Instructor.id (add_qualification c i) = Instructor.id i.
Proof. unfold add_qualification. by case_decide. Qed.

Lemma suitable_by_id i j :
  Instructor.id i = Instructor.id j → suitable i = suitable j.
Proof. unfold suitable. by intros ->. Qed.

Lemma filter_suitable_ids (l l' : list Instructor.t) :
  Instructor.id <$> l = Instructor.id <$> l' →
  Instructor.id <$> filter (λ i, suitable i = true) l =
  Instructor.id <$> filter (λ i, suitable i = true) l'.
Proof.
  revert l'. induction l as [|i l IH]; intros [|j l'] H; csimpl in *;
    try done.
  injection H as Hij Hl. rewrite !filter_cons.
  rewrite (suitable_by_id i j Hij).
  case_decide; csimpl; rewrite (IH l' Hl); congruence.
Qed.

Lemma alter_at_keyed f ks d :
  (∀ i, Instructor.id (f i) = Instructor.id i) →
  keyed_by_id d → keyed_by_id (alter_at f ks d).
Proof.
  intros Hf [Hnd Hid]. split; [by rewrite alter_at_keys|].
  unfold alter_at. apply Forall_fmap. eapply Forall_impl; [exact Hid|].
  intros [k v] Hk. simpl in *. case_decide; [by rewrite Hf|done].
Qed.

Lemma alter_at_targets f ks d :
  (∀ i, Instructor.id (f i) = Instructor.id i) →
  targets (alter_at f ks d) = targets d.
Proof.
  intros Hf. unfold targets, first_three. rewrite !fmap_take. f_equal.
  apply filter_suitable_ids. unfold odict_values, alter_at.
  rewrite <- !list_fmap_compose. apply list_fmap_ext.
  intros _ [k v] _. simpl. case_decide; [by rewrite Hf|done].
Qed.

Lemma alter_at_compose f g ks d :
  alter_at f ks (alter_at g ks d) = alter_at (f ∘ g) ks d.
Proof.
  unfold alter_at. rewrite <- list_fmap_compose. apply list_fmap_ext.
  intros _ [k v] _. simpl. by case_decide.
Qed.

(** All the courses of [cs], one after the other, on one instructor. *)
Definition add_qualifications (cs : list string) (i : Instructor.t)
  : Instructor.t :=
  foldl (λ i c, add_qualification c i) i cs.

Lemma add_qualifications_id cs : ∀ i,
  Instructor.id (add_qualifications cs i) = Instructor.id i.
Proof.
  induction cs as [|c cs IH]; intros i; simpl; [done|].
  unfold add_qualifications in *. simpl. by rewrite IH, add_qualification_id.
Qed.

Lemma fix_courses_spec cs : ∀ d,
  keyed_by_id d →
  foldl fix_course d cs = alter_at (add_qualifications cs) (targets d) d.
Proof.
  induction cs as [|c cs IH]; intros d Hd; simpl.
  - unfold alter_at. rewrite <- (list_fmap_id d) at 1.
    apply list_fmap_ext. intros _ [k v] _. simpl. by case_decide.
  - rewrite fix_course_spec by done.
    rewrite IH by (apply alter_at_keyed; [apply add_qualification_id|done]).
    rewrite alter_at_targets by apply add_qualification_id.
    by rewrite alter_at_compose.
Qed.

(** The instructor once every missing course it lacks has been appended. *)
Definition augmented (cs : list string) (i : Instructor.t) : Instructor.t :=
  Instructor.mk (Instructor.id i) (Instructor.name i)
    (Instructor.unavailable_days i)
    (Instructor.qualified_courses i ++
       filter (λ c, c ∉ Instructor.qualified_courses i) cs).

Lemma filter_ext_elem_of {A} (P Q : A → Prop) `{∀ x, Decision (P x)}
    `{∀ x, Decision (Q x)} (l : list A) :
  (∀ x, x ∈ l → P x ↔ Q x) → filter P l = filter Q l.
Proof.
  induction l as [|x l IH]; intros Hext; [done|].
  rewrite !filter_cons.
  assert (Hl : filter P l = filter Q l).
  { apply IH. intros y Hy. apply Hext. by right. }
  pose proof (Hext x (list_elem_of_here x l)) as Hx.
  destruct (decide (P x)), (decide (Q x)); rewrite ?Hl; tauto.
Qed.

Lemma add_qualifications_augmented cs : ∀ i,
  NoDup cs → add_qualifications cs i = augmented cs i.
Proof.
  induction cs as [|c cs IH]; intros i Hnd.
  - unfold augmented. simpl. rewrite app_nil_r. by destruct i.
  - apply NoDup_cons in Hnd as [Hc Hnd].
    unfold add_qualifications in *. simpl. rewrite IH by done.
    unfold augmented, add_qualification. rewrite filter_cons.
    destruct (decide (c ∈ Instructor.qualified_courses i)) as [Hin|Hnotin].
    + rewrite decide_False by (intros H; by apply H). done.
    + rewrite decide_True by done. simpl. f_equal.
      rewrite <- app_assoc. simpl. do 2 f_equal.
      apply filter_ext_elem_of. intros x Hxcs. split.
      * intros H Hx. apply H. apply elem_of_app. by left.
      * intros H Hx. apply elem_of_app in Hx as [Hx|Hx]; [done|].
        apply list_elem_of_singleton in Hx as ->. done.
Qed.

Lemma missing_courses_NoDup : NoDup missing_courses.
Proof. apply (bool_decide_unpack (NoDup missing_courses)). by vm_compute. Qed.

Lemma keyed_lookup_inj (d : odict Instructor.t) kv kv' :
  NoDup d.*1 → kv ∈ d → kv' ∈ d → kv.1 = kv'.1 → kv = kv'.
Proof.
  induction d as [|x d IH]; intros Hnd Hkv Hkv' Heq;
    [by apply elem_of_nil in Hkv|].
  csimpl in Hnd. apply NoDup_cons in Hnd as [Hx Hnd].
  apply elem_of_cons in Hkv as [->|Hkv];
    apply elem_of_cons in Hkv' as [->|Hkv']; try done.
  - exfalso. apply Hx. rewrite Heq. apply list_elem_of_fmap. by exists kv'.
  - exfalso. apply Hx. rewrite <- Heq. apply list_elem_of_fmap. by exists kv.
  - by apply IH.
Qed.

(** Under unique keys, being one of the first three matching instructors
    is the same by value and by id. *)
Lemma first_three_targets d kv :
  keyed_by_id d → kv ∈ d → kv.1 ∈ targets d ↔ kv.2 ∈ first_three d.
Proof.
  intros Hd Hkv. pose proof Hd as [Hnd Hid]. split.
  - intros Hin. apply list_elem_of_fmap in Hin as (w & Hw & Hin).
    assert (Hwd : w ∈ odict_values d).
    { unfold first_three in Hin. apply elem_of_take in Hin as (n & Hn & _).
      apply list_elem_of_lookup_2 in Hn.
      by apply list_elem_of_filter in Hn as [_ Hn]. }
    apply list_elem_of_fmap in Hwd as (kv' & -> & Hkv').
    assert (kv = kv') as <-; [|done].
    apply (keyed_lookup_inj d); try done. rewrite Hw.
    by eapply Forall_forall in Hid.
  - intros Hin. apply list_elem_of_fmap. exists kv.2. split; [|done].
    by eapply Forall_forall in Hid.
Qed.

Lemma alter_at_by_value f d :
  keyed_by_id d →
  alter_at f (targets d) d =
  (λ kv, (kv.1, if decide (kv.2 ∈ first_three d) then f kv.2 else kv.2)) <$> d.
Proof.
  intros Hd. unfold alter_at. apply list_fmap_ext. intros n kv Hn.
  apply list_elem_of_lookup_2 in Hn.
  pose proof (first_three_targets d kv Hd Hn) as Hiff. f_equal.
  destruct (decide (kv.1 ∈ targets d)), (decide (kv.2 ∈ first_three d));
    tauto.
Qed.


(** Four instructors match the prefixes; the second already teaches
    LRA101; the first one matches none. *)
Definition staff : list Instructor.t :=
  [Instructor.mk "PROF01" "Ada" [] ["ENG101"];
   Instructor.mk "PROF27" "Bea" [] [];
   Instructor.mk "PROF30" "Cy" ["Monday"] ["LRA101"];
   Instructor.mk "PROF31" "Di" [] ["HIS100"];
   Instructor.mk "PROF35" "Ed" [] []].

Example staff_augmented :
  odict_values
    (_fix_instructor_qualifications (odict_of_list Instructor.id staff)) =
  [Instructor.mk "PROF01" "Ada" [] ["ENG101"];
   Instructor.mk "PROF27" "Bea" []
     ["LRA401"; "LRA101"; "LRA103"; "LRA403"; "LRA106"];
   Instructor.mk "PROF30" "Cy" ["Monday"]
     ["LRA101"; "LRA401"; "LRA103"; "LRA403"; "LRA106"];
   Instructor.mk "PROF31" "Di" []
     ["HIS100"; "LRA401"; "LRA101"; "LRA103"; "LRA403"; "LRA106"];
   Instructor.mk "PROF35" "Ed" [] []].
Proof. vm_compute. reflexivity. Qed.



(** ** Empty variable list, empty domains, restarts *)

Lemma init_no_variables cs ins rs ss tsl :
  _create_variables ss = [] →
  FinalFixSolver_init cs ins rs ss tsl = Raise ValueError.
Proof.
  intros Hv. unfold FinalFixSolver_init. rewrite Hv. simpl.
  by rewrite map_to_list_empty.
Qed.

(** What [solve] does on a solver without variables, were one built. *)
Lemma solve_no_variables S :
  variables S = [] →
  ∃ r, solve S MAX_ATTEMPTS = Returned r ∧
       result r = Some Timetable_new ∧ stats (self r) = mkStats 0 0.
Proof.
  intros Hv. unfold solve, MAX_ATTEMPTS, solve_loop, backtracking_search.
  simpl. rewrite Hv. simpl. by eexists.
Qed.

(** C8.  With no section (hence no variable) the construction of the
    solver raises [ValueError] at [min(domain_sizes)], so no timetable is
    returned. *)
Theorem C8_no_variables_raises cs ins rs tsl :
  solve_entities cs ins rs [] tsl = Raised ValueError.
Proof.
  unfold solve_entities. by rewrite init_no_variables.
Qed.


(** A failed attempt is followed by the next one. *)
Lemma solve_loop_retry n S attempt remaining out seen r :
  backtracking_search S MAX_BACKTRACKS PRINT_INTERVAL = Returned r →
  result r = None →
  solve_loop n S attempt (Datatypes.S remaining) out seen =
  solve_loop n (self r) (attempt + 1) remaining
    (((out ++ [EvAttempt (attempt + 1) n]) ++ output r) ++
       [EvNoSolution (attempt + 1) (backtracks (stats (self r)))])
    (seen ++ visited r).
Proof. intros Hr Hnone. cbn [solve_loop]. by rewrite Hr, Hnone. Qed.


Definition infeasible_run : Run :=
  Eval vm_compute in
    match solve_entities demo_courses [] demo_rooms demo_sections
            demo_time_slots with
    | Returned r => r
    | _ => no_run
    end.






(** ** Restarts *)

(** What the caller of [solve] or [backtracking_search] can see of a call
    besides what was printed: the return value and the solver with its
    counters. *)
Definition observable (o : outcome Run) : outcome (option Timetable * Solver) :=
  match o with
  | Returned r => Returned (result r, self r)
  | Raised e => Raised e
  | OutOfFuel => OutOfFuel
  end.

(** C10.  [solve] with its three attempts returns what a single
    [backtracking_search] returns and leaves the same counters: an attempt
    does not depend on the counters it finds, and run again on the solver
    it leaves it gives the same result, so a failed first attempt is
    followed by two failed attempts. *)
Theorem C10_solve_is_one_search S :
  observable (solve S MAX_ATTEMPTS) =
    observable (backtracking_search S MAX_BACKTRACKS PRINT_INTERVAL) ∧
  (∀ x, backtracking_search (set_stats S x) MAX_BACKTRACKS PRINT_INTERVAL =
        backtracking_search S MAX_BACKTRACKS PRINT_INTERVAL) ∧
  (∀ r, backtracking_search S MAX_BACKTRACKS PRINT_INTERVAL = Returned r →
        backtracking_search (self r) MAX_BACKTRACKS PRINT_INTERVAL
          = Returned r).
Proof.
  split_and!.
  - unfold solve, MAX_ATTEMPTS.
    destruct (backtracking_search S MAX_BACKTRACKS PRINT_INTERVAL)
      as [r| |] eqn:Hr.
    + pose proof (backtracking_search_again _ _ _ _ Hr) as Hagain.
      destruct (result r) as [t|] eqn:Hres.
      * cbn [solve_loop]. rewrite Hr, Hres. simpl. by rewrite Hres.
      * do 3 (erewrite solve_loop_retry; [|first [exact Hr|exact Hagain]|done]).
        simpl. by rewrite Hres.
    + cbn [solve_loop]. by rewrite Hr.
    + cbn [solve_loop]. by rewrite Hr.
  - intros x. apply backtracking_search_set_stats.
  - intros r. apply backtracking_search_again.
Qed.

Example demo_solve_is_one_search :
  ∃ r, backtracking_search (self infeasible_run) MAX_BACKTRACKS PRINT_INTERVAL
         = Returned r ∧
       result r = result infeasible_run ∧ self r = self infeasible_run.
Proof. eexists. split_and!; vm_compute; reflexivity. Qed.

Definition infeasible_attempt : Run :=
  Eval vm_compute in
    match backtracking_search (self infeasible_run) MAX_BACKTRACKS
            PRINT_INTERVAL with
    | Returned r => r
    | _ => no_run
    end.

Lemma C10_solve_is_one_search_witness :
  observable (solve (self demo_run) MAX_ATTEMPTS) =
    observable (backtracking_search (self demo_run) MAX_BACKTRACKS
                  PRINT_INTERVAL) ∧
  backtracking_search (self infeasible_run) MAX_BACKTRACKS PRINT_INTERVAL
    = Returned infeasible_attempt ∧
  backtracking_search (self infeasible_attempt) MAX_BACKTRACKS PRINT_INTERVAL
    = Returned infeasible_attempt.
Proof.
  assert (Hr : backtracking_search (self infeasible_run) MAX_BACKTRACKS
                 PRINT_INTERVAL = Returned infeasible_attempt)
    by (vm_compute; reflexivity).
  split; [exact (proj1 (C10_solve_is_one_search (self demo_run)))|].
  split; [exact Hr|].
  exact (proj2 (proj2 (C10_solve_is_one_search (self infeasible_run)))
           infeasible_attempt Hr).
Defined.

(** * Further properties of the search *)

(** ** Exact indices, one assignment per variable, and the counters *)

Definition var_of (a : Assignment) : var := (section_id a, course_id a).

Definition value_of (a : Assignment) : value :=
  (time_slot a, room a, instructor a).

(** Every slot recorded in an index is the slot of an assignment of the
    list with that key. *)
Definition index_exact (tbl : Timetable) : Prop :=
  (∀ k x, x ∈ slots (instructor_schedule tbl) k →
     ∃ a, a ∈ assignments tbl ∧ instr_key a = (k, x)) ∧
  (∀ k x, x ∈ slots (room_schedule tbl) k →
     ∃ a, a ∈ assignments tbl ∧ room_key a = (k, x)) ∧
  (∀ k x, x ∈ slots (section_schedule tbl) k →
     ∃ a, a ∈ assignments tbl ∧ section_key a = (k, x)).

(** The list and the map hold exactly one assignment for each variable of
    [vars] that is no longer in [unassigned], and nothing else. *)
Definition bookkeeping (vars : list var) (tbl : Timetable)
    (unassigned : list var) : Prop :=
  unassigned ⊆ vars ∧
  NoDup (var_of <$> assignments tbl) ∧
  (∀ v, v ∈ vars → v ∈ unassigned ∨ v ∈ var_of <$> assignments tbl) ∧
  (∀ a, a ∈ assignments tbl → var_of a ∈ vars ∧ var_of a ∉ unassigned) ∧
  (∀ v a, assignment_dict tbl !! v = Some a ↔
          a ∈ assignments tbl ∧ var_of a = v).

Lemma index_exact_new : index_exact Timetable_new.
Proof.
  split_and!; intros k x Hx; simpl in Hx; unfold slots in Hx;
    rewrite lookup_empty in Hx; by apply not_elem_of_empty in Hx.
Qed.

Lemma index_exact_same t t' : same t t' → index_exact t → index_exact t'.
Proof.
  intros (A & _ & I & R & S) (Hi & Hr & Hs).
  split_and!; intros k x; rewrite ?I, ?R, ?S, A; auto.
Qed.

Lemma sched_add_exact (key : Assignment → string * string) m k x l a :
  key a = (k, x) →
  (∀ k' y, y ∈ slots m k' → ∃ b, b ∈ l ∧ key b = (k', y)) →
  ∀ k' y, y ∈ slots (sched_add k x m) k' →
    ∃ b, b ∈ l ++ [a] ∧ key b = (k', y).
Proof.
  intros Ha Hm k' y Hy. rewrite slots_sched_add in Hy.
  assert (Hold : y ∈ slots m k' → ∃ b, b ∈ l ++ [a] ∧ key b = (k', y)).
  { intros Hin. destruct (Hm k' y Hin) as (b & Hb & Hkb).
    exists b. split; [|done]. apply elem_of_app. by left. }
  case_decide as Hk; [|by apply Hold]. subst k'.
  apply elem_of_union in Hy as [Hy|Hy]; [by apply Hold|].
  apply elem_of_singleton in Hy as ->.
  exists a. split; [|done]. apply elem_of_app. right. by left.
Qed.

Lemma index_exact_add t a : index_exact t → index_exact (add_assignment t a).
Proof.
  intros (Hi & Hr & Hs). split_and!; simpl.
  - by apply (sched_add_exact instr_key).
  - by apply (sched_add_exact room_key).
  - by apply (sched_add_exact section_key).
Qed.

Lemma bookkeeping_new vars : bookkeeping vars Timetable_new vars.
Proof.
  split_and!; simpl.
  - done.
  - constructor.
  - intros v Hv. by left.
  - intros a Ha. by apply elem_of_nil in Ha.
  - intros v a. rewrite lookup_empty. split; [done|].
    intros [Ha _]. by apply elem_of_nil in Ha.
Qed.

Lemma bookkeeping_same vars t t' unassigned :
  same t t' → bookkeeping vars t unassigned → bookkeeping vars t' unassigned.
Proof.
  intros (A & D & _) (H1 & H2 & H3 & H4 & H5).
  split_and!; rewrite ?A, ?D; done.
Qed.

Lemma bookkeeping_fresh vars t unassigned :
  bookkeeping vars t unassigned → fresh t unassigned.
Proof.
  intros (_ & _ & _ & H4 & H5) v Hv.
  destruct (assignment_dict t !! v) as [a|] eqn:Ha; [|done].
  apply H5 in Ha as [Ha <-]. by destruct (H4 a Ha).
Qed.

Lemma bookkeeping_add vars t unassigned a :
  bookkeeping vars t unassigned →
  var_of a ∈ unassigned →
  bookkeeping vars (add_assignment t a)
    (filter (λ u, u ≠ var_of a) unassigned).
Proof.
  intros (H1 & H2 & H3 & H4 & H5) Hv. split_and!; simpl.
  - intros u Hu. apply list_elem_of_filter in Hu as [_ Hu]. by apply H1.
  - apply NoDup_snoc_fmap; [done|]. intros b Hb Heq.
    destruct (H4 b Hb) as [_ Hnot]. by rewrite Heq in Hnot.
  - intros v Hvars. rewrite fmap_app, elem_of_app.
    destruct (decide (v = var_of a)) as [->|Hne].
    + right. right. simpl. by left.
    + destruct (H3 v Hvars) as [Hu|Hl]; [left|by right; left].
      by apply list_elem_of_filter.
  - intros b Hb. apply elem_of_app in Hb as [Hb|Hb].
    + destruct (H4 b Hb) as [Hin Hnot]. split; [done|].
      intros Hf. by apply list_elem_of_filter in Hf as [_ Hf].
    + apply list_elem_of_singleton in Hb as ->. split; [by apply H1|].
      intros Hf. by apply list_elem_of_filter in Hf as [Hf _].
  - intros v b. fold (var_of a). rewrite elem_of_app, list_elem_of_singleton.
    destruct (decide (var_of a = v)) as [<-|Hne].
    + rewrite lookup_insert_eq. split.
      * intros [= <-]. split; [by right|done].
      * intros [[Hb| ->] Hvb]; [|done].
        destruct (H4 b Hb) as [_ Hnot]. by rewrite Hvb in Hnot.
    + rewrite lookup_insert_ne by done. rewrite H5. split.
      * intros [Hb Hvb]. split; [by left|done].
      * intros [[Hb| ->] Hvb]; [done|]. by destruct Hne.
Qed.

(** ** Completeness of the search *)

Lemma load_balancing_accepts t a :
  free t a →
  (day_count (TimeSlot.day (time_slot a)) (assignments t) < DAY_CAP)%nat →
  (_is_consistent_with_load_balancing t a).1 = true.
Proof.
  intros Hfree Hday. unfold _is_consistent_with_load_balancing.
  pose proof (_is_consistent_false t a) as Hf.
  pose proof (_is_consistent_same t a) as (HA & _).
  destruct (_is_consistent t a) as [ok t']; simpl in *.
  destruct ok; [|by destruct Hf]. simpl. rewrite HA.
  by rewrite decide_False by lia.
Qed.

Lemma day_count_app day l k :
  day_count day (l ++ k) = (day_count day l + day_count day k)%nat.
Proof. unfold day_count. by rewrite filter_app, length_app. Qed.

Lemma day_count_elem_of a l :
  a ∈ l → (1 ≤ day_count (TimeSlot.day (time_slot a)) l)%nat.
Proof.
  intros Ha. unfold day_count.
  assert (Hin : a ∈ filter (λ b, TimeSlot.day (time_slot b)
                                 = TimeSlot.day (time_slot a)) l)
    by (by apply list_elem_of_filter).
  destruct (filter _ l); [by apply elem_of_nil in Hin|simpl; lia].
Qed.

Lemma day_count_submseteq day l k :
  l ⊆+ k → (day_count day l ≤ day_count day k)%nat.
Proof.
  unfold day_count. induction 1 as [|x l k _ IH|x y l|x l k _ IH|l k m _ IH1 _ IH2].
  - done.
  - rewrite !filter_cons. case_decide; simpl; lia.
  - rewrite !filter_cons. repeat case_decide; simpl; lia.
  - rewrite filter_cons. case_decide; simpl; lia.
  - lia.
Qed.

Lemma NoDup_sub_multiset {A} (k l : list A) : NoDup k → l ⊆+ k → NoDup l.
Proof.
  intros Hk Hsub. apply submseteq_Permutation in Hsub as [k' Hk'].
  rewrite Hk' in Hk. by apply NoDup_app in Hk as (? & _).
Qed.

Lemma conflict_free_submseteq l k :
  l ⊆+ k → conflict_free k → conflict_free l.
Proof.
  intros Hsub (Hi & Hr & Hs).
  split_and!.
  - apply (NoDup_sub_multiset _ _ Hi). by apply fmap_submseteq.
  - apply (NoDup_sub_multiset _ _ Hr). by apply fmap_submseteq.
  - apply (NoDup_sub_multiset _ _ Hs). by apply fmap_submseteq.
Qed.

Lemma capped_submseteq l k : l ⊆+ k → capped k → capped l.
Proof.
  intros Hsub Hcap day. pose proof (day_count_submseteq day l k Hsub).
  specialize (Hcap day). lia.
Qed.

Lemma cons_filter_submseteq {A} (P : A → Prop) `{∀ x, Decision (P x)}
    (a : A) (l : list A) :
  a ∈ l → ¬ P a → a :: filter P l ⊆+ l.
Proof.
  intros Ha HP. induction l as [|b l IH]; [by apply elem_of_nil in Ha|].
  rewrite filter_cons. apply elem_of_cons in Ha as [->|Ha].
  - rewrite decide_False by done. apply submseteq_skip.
    apply sublist_submseteq, sublist_filter.
  - specialize (IH Ha). case_decide.
    + etrans; [apply submseteq_swap|]. by apply submseteq_skip.
    + by apply submseteq_cons.
Qed.

Section Completeness.
Variable domains : gmap var (list value).

(** [ext] completes the timetable: it takes its assignments from the
    domains, has one for each unassigned variable, and together with the
    assignments already made is free of conflicts and within the day
    cap. *)
Definition feasible_extension (tbl : Timetable) (unassigned : list var)
    (ext : list Assignment) : Prop :=
  Forall (in_domain domains) ext ∧
  (∀ v, v ∈ unassigned → v ∈ var_of <$> ext) ∧
  conflict_free (assignments tbl ++ ext) ∧
  capped (assignments tbl ++ ext).

Lemma feasible_extension_same t t' unassigned ext :
  same t t' → feasible_extension t unassigned ext →
  feasible_extension t' unassigned ext.
Proof. intros (A & _) (H1 & H2 & H3 & H4). split_and!; rewrite ?A; done. Qed.

(** A candidate that belongs to a feasible extension passes the check. *)
Lemma feasible_extension_accepts t unassigned ext a :
  index_exact t → feasible_extension t unassigned ext → a ∈ ext →
  (_is_consistent_with_load_balancing t a).1 = true.
Proof.
  intros (Hi & Hr & Hs) (_ & _ & (Ni & Nr & Ns) & Hcap) Ha.
  assert (Hdisj : ∀ (key : Assignment → string * string),
    NoDup (key <$> (assignments t ++ ext)) →
    ∀ b, b ∈ assignments t → key b ≠ key a).
  { intros key Hnd b Hb Heq. rewrite fmap_app in Hnd.
    apply NoDup_app in Hnd as (_ & Hd & _). apply (Hd (key b)).
    - apply list_elem_of_fmap. by exists b.
    - rewrite Heq. apply list_elem_of_fmap. by exists a. }
  apply load_balancing_accepts.
  - split_and!; intros Hin.
    + destruct (Hi _ _ Hin) as (b & Hb & Hk). by apply (Hdisj instr_key Ni b).
    + destruct (Hr _ _ Hin) as (b & Hb & Hk). by apply (Hdisj room_key Nr b).
    + destruct (Hs _ _ Hin) as (b & Hb & Hk).
      by apply (Hdisj section_key Ns b).
  - specialize (Hcap (TimeSlot.day (time_slot a))).
    rewrite day_count_app in Hcap.
    pose proof (day_count_elem_of a ext Ha). lia.
Qed.

(** Once [a] is added, the rest of the extension completes the timetable
    for the remaining variables. *)
Lemma feasible_extension_add t unassigned ext a :
  feasible_extension t unassigned ext → a ∈ ext →
  feasible_extension (add_assignment t a)
    (filter (λ u, u ≠ var_of a) unassigned)
    (filter (λ b, var_of b ≠ var_of a) ext).
Proof.
  intros (H1 & H2 & H3 & H4) Ha.
  assert (Hsub : (assignments t ++ [a]) ++
                 filter (λ b, var_of b ≠ var_of a) ext
                 ⊆+ assignments t ++ ext).
  { rewrite <- app_assoc. apply submseteq_skips_l. simpl.
    apply cons_filter_submseteq; [done|]. by intros Hne. }
  split_and!; simpl.
  - apply Forall_forall. intros b Hb.
    apply list_elem_of_filter in Hb as [_ Hb].
    by eapply Forall_forall in H1.
  - intros v Hv. apply list_elem_of_filter in Hv as [Hne Hv].
    apply H2 in Hv. apply list_elem_of_fmap in Hv as (b & -> & Hb).
    apply list_elem_of_fmap. exists b. split; [done|].
    by apply list_elem_of_filter.
  - by eapply conflict_free_submseteq.
  - by eapply capped_submseteq.
Qed.
End Completeness.

Section SearchExtra.
Variable domains : gmap var (list value).
Variable n_variables : nat.
Variables max_backtracks print_interval : N.
Variable vars : list var.
Hypothesis print_interval_pos : print_interval ≠ 0%N.

Definition extra_pre (st : SearchState) (unassigned : list var) : Prop :=
  index_exact (st_timetable st) ∧
  bookkeeping vars (st_timetable st) unassigned.

(** Backtracks never decrease, and every value tried is accounted for by
    an assignment kept or by a backtrack, or was rejected. *)
Definition counters_ok (st st' : SearchState) : Prop :=
  (backtracks (st_stats st) ≤ backtracks (st_stats st'))%N ∧
  (assignments_tried (st_stats st) + backtracks (st_stats st')
     + N.of_nat (length (assignments (st_timetable st')))
   ≤ assignments_tried (st_stats st') + backtracks (st_stats st)
     + N.of_nat (length (assignments (st_timetable st))))%N.

Definition extra_post (st : SearchState) (unassigned : list var)
    (r : option Timetable) (st' : SearchState) : Prop :=
  counters_ok st st' ∧
  match r with
  | Some t => index_exact t ∧ bookkeeping vars t []
  | None =>
      (backtracks (st_stats st') ≤ max_backtracks)%N →
      ∀ ext, ¬ feasible_extension domains (st_timetable st) unassigned ext
  end.

(** What one accepted candidate leads to. *)
Lemma accepted_step t unassigned v dom x t1 :
  good domains t → fresh t unassigned →
  v ∈ unassigned → domains !! v = Some dom → x ∈ dom →
  _is_consistent_with_load_balancing t
    (mkAssignment v.1 v.2 x.1.1 x.1.2 x.2) = (true, t1) →
  let a := mkAssignment v.1 v.2 x.1.1 x.1.2 x.2 in
  same t t1 ∧ free t1 a ∧ (a ∉ assignments t1) ∧
  assignment_dict t1 !! (section_id a, course_id a) = None ∧
  good domains (add_assignment t1 a) ∧
  fresh (add_assignment t1 a) (filter (λ u, u ≠ v) unassigned).
Proof.
  intros Hgood Hfresh Hv Hdom Hx Hcheck a.
  pose proof (load_balancing_same t a) as Hsame.
  pose proof (load_balancing_true t a) as Htrue.
  fold a in Hcheck. rewrite Hcheck in Hsame, Htrue. simpl in *.
  destruct (Htrue eq_refl) as (Hfree & Hday & _).
  assert (Hgood1 : good domains t1) by (by eapply good_same).
  assert (Hfree1 : free t1 a) by (by eapply free_same).
  assert (Hd1 : assignment_dict t1 !! v = None).
  { destruct Hsame as (_ & -> & _). by apply Hfresh. }
  assert (Hva : (v.1, v.2) = v) by (by destruct v).
  split_and!.
  - done.
  - done.
  - by apply free_not_elem_of; [destruct Hgood1|].
  - unfold a. simpl. by rewrite Hva.
  - apply good_add; try done.
    + destruct Hsame as (-> & _). done.
    + exists dom. unfold a. simpl. rewrite Hva. split; [done|].
      by destruct x as [[? ?] ?].
  - intros u Hu. apply list_elem_of_filter in Hu as [Hne Hu].
    unfold a. simpl. rewrite Hva. rewrite lookup_insert_ne by done.
    destruct Hsame as (_ & -> & _). by apply Hfresh.
Qed.

Lemma try_values_extra rec v unassigned dom :
  (∀ st, search_pre domains n_variables st (filter (λ u, u ≠ v) unassigned) →
     search_post domains st (rec st (filter (λ u, u ≠ v) unassigned))) →
  (∀ st r st',
     search_pre domains n_variables st (filter (λ u, u ≠ v) unassigned) →
     extra_pre st (filter (λ u, u ≠ v) unassigned) →
     rec st (filter (λ u, u ≠ v) unassigned) = Returned (r, st') →
     extra_post st (filter (λ u, u ≠ v) unassigned) r st') →
  v ∈ unassigned → domains !! v = Some dom →
  ∀ domain st r st',
    domain ⊆ dom →
    search_pre domains n_variables st unassigned →
    extra_pre st unassigned →
    try_values n_variables print_interval rec v unassigned domain st
      = Returned (r, st') →
    counters_ok st st' ∧
    match r with
    | Some t => index_exact t ∧ bookkeeping vars t []
    | None =>
        (backtracks (st_stats st') ≤ max_backtracks)%N →
        ∀ ext a, feasible_extension domains (st_timetable st) unassigned ext →
                 a ∈ ext → var_of a = v → value_of a ∉ domain
    end.
Proof.
  intros Hold Hnew Hv Hdom.
  induction domain as [|x rest IH]; intros st r st' Hsub Hpre Hex Heq.
  { simpl in Heq. simplify_eq. split; [split; lia|].
    intros _ ext a _ _ _. apply not_elem_of_nil. }
  destruct Hpre as (Hcov & Hn & Hgood & Hfresh). destruct Hex as (Hix & Hbk).
  assert (Hn' : n_variables ≠ 0).
  { apply Hn. intros ->. by apply elem_of_nil in Hv. }
  assert (Hrest : rest ⊆ dom) by (intros y Hy; apply Hsub; by right).
  assert (Hx : x ∈ dom) by (apply Hsub; by left).
  assert (Hva : (v.1, v.2) = v) by (by destruct v).
  destruct x as [[ts rm] ins]. simpl in Heq.
  destruct (report_progress_ok n_variables print_interval print_interval_pos
              (incr_tried st) Hn') as (st1 & Hrp & Ht1 & Hs1 & Htr1).
  rewrite Hrp in Heq. simpl in Ht1, Hs1.
  set (a := mkAssignment v.1 v.2 ts rm ins) in *.
  pose proof (load_balancing_same (st_timetable st1) a) as Hsame.
  destruct (_is_consistent_with_load_balancing (st_timetable st1) a)
    as [ok t1] eqn:Hcheck.
  simpl in Hsame. rewrite Ht1 in Hsame, Hcheck.
  assert (Hlen1 : assignments t1 = assignments (st_timetable st))
    by (by destruct Hsame).
  (* a candidate of a feasible extension with this value is [a] *)
  assert (Hsame_a : ∀ b, var_of b = v → value_of b = (ts, rm, ins) → b = a).
  { intros [s c t' r' i'] Hvb Hval. unfold var_of, value_of in *.
    simpl in *. subst a. rewrite <- Hvb. simpl. by simplify_eq. }
  destruct ok.
  - destruct (accepted_step (st_timetable st) unassigned v dom (ts, rm, ins)
                t1 Hgood Hfresh Hv Hdom Hx Hcheck)
      as (_ & Hfree1 & Hnotin & Hd1 & Hgood2 & Hfresh2).
    fold a in Hfree1, Hnotin, Hd1, Hgood2, Hfresh2.
    set (st2 := set_timetable (set_timetable st1 t1) (add_assignment t1 a))
      in *.
    assert (Hpre2 : search_pre domains n_variables st2
                      (filter (λ u, u ≠ v) unassigned)).
    { split_and!; try done.
      apply Forall_forall. intros u Hu.
      apply list_elem_of_filter in Hu as [_ Hu].
      by eapply Forall_forall in Hcov. }
    assert (Hex2 : extra_pre st2 (filter (λ u, u ≠ v) unassigned)).
    { split; simpl.
      - apply index_exact_add. by eapply index_exact_same.
      - replace (filter (λ u, u ≠ v) unassigned)
          with (filter (λ u, u ≠ var_of a) unassigned)
          by (unfold var_of, a; simpl; by rewrite Hva).
        apply (bookkeeping_add vars t1 unassigned a).
        + by eapply bookkeeping_same.
        + unfold var_of, a. simpl. by rewrite Hva. }
    destruct (Hold st2 Hpre2) as (r2 & st3 & Hrec & _ & Hr2).
    pose proof (Hnew st2 r2 st3 Hpre2 Hex2 Hrec) as ((Hbt3 & Htr3) & Hpost3).
    rewrite Hrec in Heq. simpl in Hbt3, Htr3.
    rewrite Hs1 in Hbt3, Htr3. simpl in Hbt3, Htr3.
    rewrite length_app, Hlen1 in Htr3. simpl in Htr3.
    destruct r2 as [t|].
    + simplify_eq. split; [split; simpl; lia|done].
    + destruct (remove_same t1 a (st_timetable st3) Hr2 Hnotin Hd1 Hfree1)
        as (t4 & Hrm & Hsame4).
      rewrite Hrm in Heq.
      assert (Hsame04 : same (st_timetable st) t4) by (by eapply same_trans).
      assert (Hlen3 : length (assignments (st_timetable st3)) =
                      S (length (assignments (st_timetable st)))).
      { destruct Hr2 as (-> & _). simpl.
        rewrite length_app, Hlen1. simpl. lia. }
      assert (Hlen4 : assignments t4 = assignments (st_timetable st))
        by (by destruct Hsame04).
      destruct (IH (incr_backtracks (set_timetable st3 t4)) r st' Hrest)
        as ((Hbt & Htr) & Hpost); [| |exact Heq|].
      { split_and!; try done; simpl.
        - by eapply good_same.
        - intros u Hu. destruct Hsame04 as (_ & -> & _). by apply Hfresh. }
      { split; simpl; [by eapply index_exact_same|by eapply bookkeeping_same]. }
      simpl in Hbt, Htr. rewrite Hlen4 in Htr.
      split; [split; lia|].
      destruct r as [t|]; [done|].
      intros Hmax ext b Hext Hb Hvb Hval.
      apply elem_of_cons in Hval as [Hval|Hval].
      * apply Hsame_a in Hval as ->; [|done].
        apply (Hpost3 ltac:(lia)
                 (filter (λ c, var_of c ≠ var_of a) ext)).
        replace (filter (λ u, u ≠ v) unassigned)
          with (filter (λ u, u ≠ var_of a) unassigned)
          by (unfold var_of, a; simpl; by rewrite Hva).
        apply feasible_extension_add; [|done].
        by eapply feasible_extension_same.
      * eapply (Hpost Hmax ext b); try done. simpl.
        by eapply feasible_extension_same.
  - destruct (IH (set_timetable st1 t1) r st' Hrest)
      as ((Hbt & Htr) & Hpost); [| |exact Heq|].
    { split_and!; try done; simpl.
      - by eapply good_same.
      - intros u Hu. destruct Hsame as (_ & -> & _). by apply Hfresh. }
    { split; simpl; [by eapply index_exact_same|by eapply bookkeeping_same]. }
    simpl in Hbt, Htr. rewrite Hs1, Hlen1 in *. simpl in Hbt, Htr.
    split; [split; lia|].
    destruct r as [t|]; [done|].
    intros Hmax ext b Hext Hb Hvb Hval.
    apply elem_of_cons in Hval as [Hval|Hval].
    + apply Hsame_a in Hval as ->; [|done].
      pose proof (feasible_extension_accepts domains (st_timetable st)
                    unassigned ext a Hix Hext Hb) as Hacc.
      rewrite Hcheck in Hacc. discriminate.
    + eapply (Hpost Hmax ext b); try done. simpl.
      by eapply feasible_extension_same.
Qed.

Lemma backtrack_extra fuel : ∀ st unassigned r st',
  (length unassigned ≤ fuel)%nat →
  search_pre domains n_variables st unassigned →
  extra_pre st unassigned →
  backtrack domains n_variables max_backtracks print_interval fuel st
    unassigned = Returned (r, st') →
  extra_post st unassigned r st'.
Proof.
  induction fuel as [|fuel IH]; intros st unassigned r st' Hlen Hpre Hex Heq.
  - destruct unassigned; [|simpl in Hlen; lia]. simpl in Heq. simplify_eq.
    split; [split; lia|]. apply Hex.
  - destruct unassigned as [|u rest] eqn:Hun.
    { simpl in Heq. simplify_eq. split; [split; lia|]. apply Hex. }
    rewrite <- Hun in *.
    assert (backtrack domains n_variables max_backtracks print_interval
              (S fuel) st unassigned =
            if decide (max_backtracks < backtracks (st_stats st))%N
            then Returned (None, st) else
            match _select_next_variable domains unassigned with
            | Raise e => Raised e
            | Ok None => Returned (None, st)
            | Ok (Some v) =>
                match domains !! v with
                | None => Raised KeyError
                | Some domain =>
                    try_values n_variables print_interval
                      (backtrack domains n_variables max_backtracks
                         print_interval fuel) v unassigned domain st
                end
            end) as Hunfold.
    { rewrite Hun. reflexivity. }
    rewrite Hunfold in Heq. clear Hunfold.
    case_decide as Hbudget.
    { simplify_eq. split; [split; lia|]. intros Hmax. lia. }
    pose proof Hpre as (Hcov & Hn & Hgood & Hfresh).
    destruct (_select_next_variable_spec domains unassigned)
      as (v & pre & post & Hsel & Hl & _); [by rewrite Hun|done|].
    rewrite Hsel in Heq.
    assert (Hv : v ∈ unassigned).
    { rewrite Hl. apply elem_of_app. right. by left. }
    pose proof (proj1 (Forall_forall _ _) Hcov v Hv) as [dom Hdom].
    rewrite Hdom in Heq.
    pose proof (filter_ne_length print_interval print_interval_pos v
                  unassigned Hv) as Hshorter.
    destruct (try_values_extra
                (backtrack domains n_variables max_backtracks print_interval
                   fuel) v unassigned dom) with (domain := dom) (st := st)
                (r := r) (st' := st') as (Hcnt & Hpost); try done.
    { intros st0 Hpre0.
      apply backtrack_spec; [done|lia|done]. }
    { intros st0 r0 st0' Hpre0 Hex0 Heq0. apply (IH st0 _ r0 st0'); try done.
      lia. }
    split; [done|]. destruct r as [t|]; [done|].
    intros Hmax ext Hext.
    pose proof Hext as (Hdoms & Hcover & _).
    pose proof (Hcover v Hv) as Hin.
    apply list_elem_of_fmap in Hin as (a & Hva & Ha).
    pose proof (proj1 (Forall_forall _ _) Hdoms a Ha) as (dom' & Hdom' & Hval).
    fold (var_of a) in Hdom'. rewrite <- Hva, Hdom in Hdom'. simplify_eq.
    by apply (Hpost Hmax ext a).
Qed.
End SearchExtra.

(** A complete timetable for the solver: one assignment at least for each
    variable, each taken from the domain of its variable, no resource
    booked twice at a slot, and no day over the cap. *)
Definition feasible (S : Solver) (l : list Assignment) : Prop :=
  Forall (in_domain (domains S)) l ∧
  (∀ v, v ∈ variables S → v ∈ var_of <$> l) ∧
  conflict_free l ∧ capped l.

Lemma backtracking_search_extra S mb pi r :
  pi ≠ 0%N → covered (domains S) (variables S) →
  backtracking_search S mb pi = Returned r →
  match result r with
  | Some t =>
      index_exact t ∧ bookkeeping (variables S) t [] ∧
      (backtracks (stats (self r)) + N.of_nat (length (assignments t))
       ≤ assignments_tried (stats (self r)))%N
  | None =>
      (backtracks (stats (self r)) ≤ assignments_tried (stats (self r)))%N ∧
      ((backtracks (stats (self r)) ≤ mb)%N → ∀ l, ¬ feasible S l)
  end.
Proof.
  intros Hpi Hcov. unfold backtracking_search. simpl.
  set (st0 := mkState Timetable_new _ _ _). intros Heq.
  assert (Hpre : search_pre (domains S) (length (variables S)) st0
                   (variables S)).
  { split_and!; [done| |apply good_new|done].
    intros Hne Hlen. by apply length_zero_iff_nil in Hlen. }
  destruct (backtrack_spec (domains S) (length (variables S)) mb pi Hpi
              (length (variables S)) st0 (variables S))
    as (res & st & Hb & _ & Hres); [done|done|].
  rewrite Hb in Heq. simplify_eq. simpl.
  destruct (backtrack_extra (domains S) (length (variables S)) mb pi
              (variables S) Hpi (length (variables S)) st0 (variables S)
              res st) as ((Hbt & Htr) & Hpost); try done.
  { split; [apply index_exact_new|apply bookkeeping_new]. }
  simpl in Hbt, Htr. destruct res as [t|].
  - destruct Hres as [-> _]. destruct Hpost. split_and!; [done|done|lia].
  - destruct Hres as (Hlen & _). simpl in Hlen. rewrite Hlen in Htr.
    simpl in Htr. split; [lia|]. intros Hmax l (H1 & H2 & H3 & H4).
    apply (Hpost Hmax l). by split_and!.
Qed.

(** ** What [solve] guarantees *)

Lemma solve_as_search S r :
  solve S MAX_ATTEMPTS = Returned r →
  ∃ r1, backtracking_search S MAX_BACKTRACKS PRINT_INTERVAL = Returned r1 ∧
        result r = result r1 ∧ self r = self r1.
Proof.
  unfold solve, MAX_ATTEMPTS. intros Hsolve.
  destruct (backtracking_search S MAX_BACKTRACKS PRINT_INTERVAL)
    as [r1| |] eqn:Hr1.
  - exists r1. split; [done|].
    pose proof (backtracking_search_again _ _ _ _ Hr1) as Hagain.
    destruct (result r1) as [t|] eqn:Hres.
    + cbn [solve_loop] in Hsolve. rewrite Hr1, Hres in Hsolve.
      by simplify_eq.
    + do 3 (erewrite solve_loop_retry in Hsolve;
              [|first [exact Hr1|exact Hagain]|done]).
      simpl in Hsolve. by simplify_eq.
  - cbn [solve_loop] in Hsolve. by rewrite Hr1 in Hsolve.
  - cbn [solve_loop] in Hsolve. by rewrite Hr1 in Hsolve.
Qed.

Lemma init_variables cs ins rs ss tsl S out :
  FinalFixSolver_init cs ins rs ss tsl = Ok (S, out) →
  variables S = _create_variables ss.
Proof.
  unfold FinalFixSolver_init. intros H.
  destruct (_precompute_domains_final _ _ _ _ _) as [[d o]|e]; [|discriminate].
  simpl in H. destruct (map_to_list d); [discriminate|]. simpl in H.
  destruct (filter _ _); by simplify_eq.
Qed.

(** Everything the search establishes about a run of the pipeline. *)
Lemma solve_entities_extra cs ins rs ss tsl r :
  solve_entities cs ins rs ss tsl = Returned r →
  variables (self r) = _create_variables ss ∧
  match result r with
  | Some t =>
      good (domains (self r)) t ∧ index_exact t ∧
      bookkeeping (variables (self r)) t [] ∧
      (backtracks (stats (self r)) + N.of_nat (length (assignments t))
       ≤ assignments_tried (stats (self r)))%N
  | None =>
      (backtracks (stats (self r)) ≤ assignments_tried (stats (self r)))%N ∧
      ((backtracks (stats (self r)) ≤ MAX_BACKTRACKS)%N →
       ∀ l, ¬ feasible (self r) l)
  end.
Proof.
  intros Hrun.
  destruct (solve_entities_spec _ _ _ _ _ _ Hrun)
    as (S & out & Hinit & HS & [x Hx] & _ & Hgood).
  pose proof (init_variables _ _ _ _ _ _ _ Hinit) as Hvars.
  unfold solve_entities in Hrun. rewrite Hinit in Hrun.
  destruct (solve S MAX_ATTEMPTS) as [r'| |] eqn:Hsolve; try discriminate.
  destruct (solve_as_search S r' Hsolve) as (r1 & Hr1 & Hres & Hself).
  pose proof (backtracking_search_extra S MAX_BACKTRACKS PRINT_INTERVAL r1
                PRINT_INTERVAL_pos (wb_covered S HS) Hr1) as Hextra.
  assert (Hr : result r = result r1 ∧ self r = self r1).
  { by simplify_eq. }
  destruct Hr as [Hr Hs]. rewrite Hr in *. rewrite Hs in *.
  rewrite Hx in *. simpl. split; [done|].
  destruct (result r1) as [t|]; [|done].
  destruct Hextra as (? & ? & ?). split_and!; try done. by apply Hgood.
Qed.

Definition clash_time_slots : list TimeSlot.t :=
  [TimeSlot.mk "T1" "Monday" "09:00" "09:45" 45].

(** The small instance with a single slot: the two courses of the section
    cannot both be placed. *)
Definition clash_run : Run :=
  Eval vm_compute in
    match solve_entities demo_courses demo_instructors demo_rooms
            demo_sections clash_time_slots with
    | Returned r => r
    | _ => no_run
    end.

Lemma clash_run_eq :
  solve_entities demo_courses demo_instructors demo_rooms demo_sections
    clash_time_slots = Returned clash_run.
Proof. vm_compute. reflexivity. Qed.

Example clash_run_stats :
  result clash_run = None ∧ stats (self clash_run) = mkStats 1 2.
Proof. vm_compute. done. Qed.

(** X1.  When [solve] returns no timetable and the backtrack counter it
    leaves is within the budget, the instance has no complete timetable at
    all: no list of assignments drawn from the domains covers every
    variable without a conflict and within the day cap. *)
Theorem solve_none_within_budget_infeasible cs ins rs ss tsl r :
  solve_entities cs ins rs ss tsl = Returned r →
  result r = None →
  (backtracks (stats (self r)) ≤ MAX_BACKTRACKS)%N →
  ∀ l, ¬ feasible (self r) l.
Proof.
  intros Hrun Hres Hbudget.
  destruct (solve_entities_extra _ _ _ _ _ _ Hrun) as [_ Hextra].
  rewrite Hres in Hextra. by apply Hextra.
Qed.

Lemma solve_none_within_budget_infeasible_witness :
  result clash_run = None ∧
  (backtracks (stats (self clash_run)) ≤ MAX_BACKTRACKS)%N ∧
  ∀ l, ¬ feasible (self clash_run) l.
Proof.
  assert (Hres : result clash_run = None) by (vm_compute; reflexivity).
  assert (Hb : (backtracks (stats (self clash_run)) ≤ MAX_BACKTRACKS)%N)
    by (vm_compute; discriminate).
  split; [exact Hres|]. split; [exact Hb|].
  exact (solve_none_within_budget_infeasible demo_courses demo_instructors
           demo_rooms demo_sections clash_time_slots clash_run clash_run_eq
           Hres Hb).
Defined.

Lemma elem_of_create_variables ss sid c :
  (sid, c) ∈ _create_variables ss ↔
  ∃ s, s ∈ ss ∧ Section_.id s = sid ∧ c ∈ Section_.courses s.
Proof.
  unfold _create_variables. rewrite list_elem_of_bind. split.
  - intros (s & Hin & Hs). apply list_elem_of_bind in Hin as (c' & Hin & Hc).
    apply list_elem_of_singleton in Hin. simplify_eq. by exists s.
  - intros (s & Hs & <- & Hc). exists s. split; [|done].
    apply list_elem_of_bind. exists c. split; [by left|done].
Qed.

(** X2.  A timetable returned by [solve] is complete and holds exactly one
    assignment for each variable: it is a feasible timetable, the
    (section id, course id) pairs of its assignments are pairwise distinct,
    and they are exactly the pairs of an input section's id with one of
    that section's courses. *)
Theorem solve_result_one_assignment_per_variable cs ins rs ss tsl r t :
  solve_entities cs ins rs ss tsl = Returned r →
  result r = Some t →
  feasible (self r) (assignments t) ∧
  NoDup (var_of <$> assignments t) ∧
  (∀ sid c, (sid, c) ∈ var_of <$> assignments t ↔
            ∃ s, s ∈ ss ∧ Section_.id s = sid ∧ c ∈ Section_.courses s).
Proof.
  intros Hrun Hres.
  destruct (solve_entities_extra _ _ _ _ _ _ Hrun) as [Hvars Hextra].
  rewrite Hres in Hextra.
  destruct Hextra as ((_ & Hcf & Hcap & Hdom) & _ & Hbk & _).
  destruct Hbk as (_ & Hnd & Hcover & Hin & _).
  assert (Hcov : ∀ v, v ∈ variables (self r) → v ∈ var_of <$> assignments t).
  { intros v Hv. destruct (Hcover v Hv) as [Hnil|?]; [|done].
    by apply elem_of_nil in Hnil. }
  split_and!; [by split_and!|done|].
  intros sid c. rewrite <- elem_of_create_variables, <- Hvars.
  split; [|by apply Hcov].
  intros Hv. apply list_elem_of_fmap in Hv as (a & -> & Ha).
  by destruct (Hin a Ha).
Qed.

Lemma solve_result_one_assignment_per_variable_witness :
  feasible (self demo_run) (assignments demo_timetable) ∧
  NoDup (var_of <$> assignments demo_timetable) ∧
  (∀ sid c, (sid, c) ∈ var_of <$> assignments demo_timetable ↔
            ∃ s, s ∈ demo_sections ∧ Section_.id s = sid ∧
                 c ∈ Section_.courses s).
Proof.
  exact (solve_result_one_assignment_per_variable demo_courses
           demo_instructors demo_rooms demo_sections demo_time_slots
           demo_run demo_timetable demo_run_eq demo_result_eq).
Defined.

(** X3.  In a timetable returned by [solve] the map and the list agree: the
    map sends a variable to an assignment exactly when that assignment is
    in the list and is the one of that variable. *)
Theorem solve_result_map_agrees_with_list cs ins rs ss tsl r t v a :
  solve_entities cs ins rs ss tsl = Returned r →
  result r = Some t →
  assignment_dict t !! v = Some a ↔ a ∈ assignments t ∧ var_of a = v.
Proof.
  intros Hrun Hres.
  destruct (solve_entities_extra _ _ _ _ _ _ Hrun) as [_ Hextra].
  rewrite Hres in Hextra. destruct Hextra as (_ & _ & Hbk & _).
  apply Hbk.
Qed.

Lemma solve_result_map_agrees_with_list_witness :
  Forall (λ a, assignment_dict demo_timetable !! var_of a = Some a)
    (assignments demo_timetable).
Proof.
  apply Forall_forall. intros a Ha.
  apply (solve_result_map_agrees_with_list demo_courses demo_instructors
           demo_rooms demo_sections demo_time_slots demo_run demo_timetable
           (var_of a) a demo_run_eq demo_result_eq).
  by split.
Defined.

(** X4.  In a timetable returned by [solve] each of the three indices is
    exactly the projection of the list: a slot id is recorded under an
    instructor id (room id, section id) if and only if some assignment of
    the list has that instructor (room, section) and that slot. *)
Theorem solve_result_indices_are_projections cs ins rs ss tsl r t k x :
  solve_entities cs ins rs ss tsl = Returned r →
  result r = Some t →
  (x ∈ slots (instructor_schedule t) k ↔
   ∃ a, a ∈ assignments t ∧ instr_key a = (k, x)) ∧
  (x ∈ slots (room_schedule t) k ↔
   ∃ a, a ∈ assignments t ∧ room_key a = (k, x)) ∧
  (x ∈ slots (section_schedule t) k ↔
   ∃ a, a ∈ assignments t ∧ section_key a = (k, x)).
Proof.
  intros Hrun Hres.
  destruct (solve_entities_extra _ _ _ _ _ _ Hrun) as [_ Hextra].
  rewrite Hres in Hextra.
  destruct Hextra as ((Hsound & _) & (Hi & Hr & Hs) & _).
  split_and!; (split; [by auto|]); intros (a & Ha & Hk);
    destruct (Hsound a Ha) as (Si & Sr & Ss);
    unfold instr_key, room_key, section_key in Hk; by simplify_eq.
Qed.

Lemma solve_result_indices_are_projections_witness :
  (("T1" : string) ∈ slots (instructor_schedule demo_timetable) "PROF02" ↔
   ∃ a, a ∈ assignments demo_timetable ∧ instr_key a = ("PROF02", "T1")) ∧
  (("T1" : string) ∈ slots (room_schedule demo_timetable) "LAB1" ↔
   ∃ a, a ∈ assignments demo_timetable ∧ room_key a = ("LAB1", "T1")) ∧
  (("T1" : string) ∈ slots (section_schedule demo_timetable) "S1" ↔
   ∃ a, a ∈ assignments demo_timetable ∧ section_key a = ("S1", "T1")).
Proof.
  destruct (solve_result_indices_are_projections demo_courses
              demo_instructors demo_rooms demo_sections demo_time_slots
              demo_run demo_timetable "PROF02" "T1" demo_run_eq
              demo_result_eq) as (Hi & _ & _).
  destruct (solve_result_indices_are_projections demo_courses
              demo_instructors demo_rooms demo_sections demo_time_slots
              demo_run demo_timetable "LAB1" "T1" demo_run_eq
              demo_result_eq) as (_ & Hr & _).
  destruct (solve_result_indices_are_projections demo_courses
              demo_instructors demo_rooms demo_sections demo_time_slots
              demo_run demo_timetable "S1" "T1" demo_run_eq
              demo_result_eq) as (_ & _ & Hs).
  by split_and!.
Defined.

(** X5.  The counters [solve] leaves are consistent: every backtrack and
    every assignment of the returned timetable comes from a value tried,
    so backtracks plus assignments never exceed the values tried (and
    backtracks alone do not when no timetable is returned). *)
Theorem solve_counters_consistent cs ins rs ss tsl r :
  solve_entities cs ins rs ss tsl = Returned r →
  (backtracks (stats (self r))
   + N.of_nat (length (default [] (assignments <$> result r)))
   ≤ assignments_tried (stats (self r)))%N.
Proof.
  intros Hrun.
  destruct (solve_entities_extra _ _ _ _ _ _ Hrun) as [_ Hextra].
  destruct (result r) as [t|]; simpl.
  - by destruct Hextra as (_ & _ & _ & ?).
  - destruct Hextra as [? _]. lia.
Qed.

Lemma solve_counters_consistent_witness :
  (backtracks (stats (self clash_run))
   + N.of_nat (length (default [] (assignments <$> result clash_run)))
   ≤ assignments_tried (stats (self clash_run)))%N ∧
  (backtracks (stats (self demo_run))
   + N.of_nat (length (default [] (assignments <$> result demo_run)))
   ≤ assignments_tried (stats (self demo_run)))%N.
Proof.
  split.
  - exact (solve_counters_consistent _ _ _ _ _ _ clash_run_eq).
  - exact (solve_counters_consistent _ _ _ _ _ _ demo_run_eq).
Defined.

(** * The post-hoc evaluator: hard constraint violations *)

(** [d = defaultdict(list); for a in l: d[key(a)].append(a)] *)
Definition group_by (key : Assignment → string) (l : list Assignment)
  : gmap string (list Assignment) :=
  foldl (λ d a, <[key a := default [] (d !! key a) ++ [a]]> d) ∅ l.

(** [len(time_slots) - len(set(time_slots))], added when the two differ. *)
Definition surplus (time_slots : list string) : nat :=
  if decide (length time_slots ≠ size (list_to_set time_slots : gset string))
  then length time_slots - size (list_to_set time_slots : gset string)
  else 0.

(** One of the three blocks of the count: group the assignments by a
    resource id, then add up the surplus of every group.  The groups are
    visited in the order of the dict; the sum does not depend on it. *)
Definition count_conflicts (key : Assignment → string)
    (l : list Assignment) : nat :=
  sum_list ((λ kv, surplus ((λ a, TimeSlot.id (time_slot a)) <$> kv.2))
              <$> map_to_list (group_by key l)).

Definition _count_hard_constraint_violations (timetable : Timetable) : nat :=
  count_conflicts (λ a, Instructor.id (instructor a)) (assignments timetable)
  + count_conflicts (λ a, Room.id (room a)) (assignments timetable)
  + count_conflicts section_id (assignments timetable).

Lemma group_by_lookup_gen (key : Assignment → string) (l : list Assignment) :
  ∀ (d : gmap string (list Assignment)) (k : string),
  foldl (λ d a, <[key a := default [] (d !! key a) ++ [a]]> d) d l !! k =
  match d !! k, filter (λ a, key a = k) l with
  | None, [] => None
  | o, f => Some (default [] o ++ f)
  end.
Proof.
  induction l as [|a l IH]; intros d k; simpl.
  - destruct (d !! k); simpl; [by rewrite app_nil_r|done].
  - rewrite IH, filter_cons. destruct (decide (key a = k)) as [<-|Hne].
    + rewrite lookup_insert_eq.
      destruct (d !! key a), (filter (λ b, key b = key a) l); simpl;
        by rewrite <- ?app_assoc.
    + by rewrite lookup_insert_ne.
Qed.

Lemma group_by_lookup key l k :
  group_by key l !! k =
  match filter (λ a, key a = k) l with
  | [] => None
  | f => Some f
  end.
Proof.
  unfold group_by. rewrite group_by_lookup_gen, lookup_empty.
  by destruct (filter _ l).
Qed.

Lemma size_list_to_set_le (l : list string) :
  (size (list_to_set l : gset string) ≤ length l)%nat.
Proof.
  induction l as [|x l IH]; simpl; [done|].
  pose proof (size_union_alt ({[x]} : gset string) (list_to_set l)) as Hu.
  rewrite size_singleton in Hu.
  pose proof (subseteq_size (list_to_set l ∖ {[x]} : gset string)
                (list_to_set l)) as Hd.
  rewrite Hu.
  assert (Hsub : (list_to_set l ∖ {[x]} : gset string) ⊆ list_to_set l).
  { intros y Hy. by apply elem_of_difference in Hy as [? _]. }
  specialize (Hd Hsub). lia.
Qed.

Lemma size_list_to_set_NoDup (l : list string) :
  size (list_to_set l : gset string) = length l ↔ NoDup l.
Proof.
  split; [|apply size_list_to_set].
  induction l as [|x l IH]; intros Hsize; [constructor|].
  simpl in Hsize. pose proof (size_list_to_set_le l) as Hle.
  destruct (decide (x ∈ l)) as [Hin|Hnotin].
  - assert (({[x]} ∪ list_to_set l : gset string) = list_to_set l) as Heq.
    { apply subseteq_union_1_L. apply singleton_subseteq_l.
      by apply elem_of_list_to_set. }
    rewrite Heq in Hsize. lia.
  - rewrite size_union in Hsize.
    2:{ apply disjoint_singleton_l. by rewrite elem_of_list_to_set. }
    rewrite size_singleton in Hsize. constructor; [done|]. apply IH. lia.
Qed.

Lemma surplus_zero l : surplus l = 0 ↔ NoDup l.
Proof.
  unfold surplus. rewrite <- size_list_to_set_NoDup.
  pose proof (size_list_to_set_le l). case_decide; lia.
Qed.

Lemma sum_list_zero (l : list nat) : sum_list l = 0 ↔ Forall (λ n, n = 0) l.
Proof.
  induction l as [|n l IH]; simpl; [by split; [constructor|]|].
  rewrite Forall_cons, <- IH. lia.
Qed.

Lemma count_conflicts_zero key l :
  count_conflicts key l = 0 ↔
  ∀ k, NoDup ((λ a, TimeSlot.id (time_slot a))
                <$> filter (λ a, key a = k) l).
Proof.
  unfold count_conflicts. rewrite sum_list_zero, Forall_fmap, Forall_forall.
  split.
  - intros H k.
    destruct (filter (λ a, key a = k) l) as [|a f] eqn:Hf; [constructor|].
    apply surplus_zero.
    apply (H (k, a :: f)). apply elem_of_map_to_list.
    by rewrite group_by_lookup, Hf.
  - intros H [k g] Hkg. simpl. apply surplus_zero.
    apply elem_of_map_to_list in Hkg. rewrite group_by_lookup in Hkg.
    specialize (H k). destruct (filter _ l); by simplify_eq.
Qed.

Lemma NoDup_groups_pairs (key : Assignment → string) l :
  (∀ k, NoDup ((λ a, TimeSlot.id (time_slot a))
                 <$> filter (λ a, key a = k) l)) ↔
  NoDup ((λ a, (key a, TimeSlot.id (time_slot a))) <$> l).
Proof.
  split.
  - induction l as [|a l IH]; intros H; [constructor|].
    csimpl. constructor.
    + intros Hin. apply list_elem_of_fmap in Hin as (b & Heq & Hb).
      injection Heq as Hk Hs.
      specialize (H (key a)). rewrite filter_cons in H.
      rewrite decide_True in H by done. csimpl in H.
      apply NoDup_cons in H as [Hnotin _]. apply Hnotin.
      rewrite Hs. apply list_elem_of_fmap. exists b. split; [done|].
      by apply list_elem_of_filter.
    + apply IH. intros k. specialize (H k). rewrite filter_cons in H.
      case_decide; [|done]. csimpl in H. by apply NoDup_cons in H as [_ ?].
  - intros H k.
    apply (NoDup_fmap_1 (λ s : string, (k, s))).
    rewrite <- list_fmap_compose.
    apply (NoDup_sub_multiset
             ((λ a, (key a, TimeSlot.id (time_slot a))) <$> l)); [done|].
    apply sublist_submseteq.
    assert (Heq : (λ s : string, (k, s)) ∘ (λ a, TimeSlot.id (time_slot a))
                  <$> filter (λ a, key a = k) l =
                  (λ a, (key a, TimeSlot.id (time_slot a)))
                  <$> filter (λ a, key a = k) l).
    { apply list_fmap_ext. intros i a Ha. simpl.
      apply list_elem_of_lookup_2 in Ha.
      by apply list_elem_of_filter in Ha as [-> _]. }
    rewrite Heq. apply fmap_sublist, sublist_filter.
Qed.

Lemma hard_violations_zero tbl :
  _count_hard_constraint_violations tbl = 0 ↔
  conflict_free (assignments tbl).
Proof.
  unfold _count_hard_constraint_violations, conflict_free.
  unfold instr_key, room_key, section_key.
  rewrite <- !NoDup_groups_pairs, <- !count_conflicts_zero. lia.
Qed.

(** X6.  The evaluator counts no hard violation exactly when no two
    assignments of the timetable share an instructor id and a slot id, a
    room id and a slot id, or a section id and a slot id. *)
Theorem hard_violations_zero_iff_conflict_free tbl :
  _count_hard_constraint_violations tbl = 0 ↔
  conflict_free (assignments tbl).
Proof. apply hard_violations_zero. Qed.

(** X7.  The evaluator counts no hard violation on any timetable that
    [solve] returns. *)
Theorem solve_result_no_hard_violations cs ins rs ss tsl r t :
  solve_entities cs ins rs ss tsl = Returned r →
  result r = Some t →
  _count_hard_constraint_violations t = 0.
Proof.
  intros Hrun Hres. apply hard_violations_zero.
  destruct (solve_entities_spec _ _ _ _ _ _ Hrun)
    as (S & out & _ & _ & _ & _ & Hgood).
  by destruct (Hgood t Hres) as (_ & ? & _).
Qed.

Lemma solve_result_no_hard_violations_witness :
  _count_hard_constraint_violations demo_timetable = 0.
Proof.
  exact (solve_result_no_hard_violations demo_courses demo_instructors
           demo_rooms demo_sections demo_time_slots demo_run demo_timetable
           demo_run_eq demo_result_eq).
Defined.

(** The timetable of [C6]'s second scenario, with the instructor, the room
    and the slot booked for two sections: two surplus bookings. *)
Example double_booking_counted :
  _count_hard_constraint_violations
    (add_assignment booked_once second_booking) = 2.
Proof. vm_compute. reflexivity. Qed.

(** * Further properties of the solver's construction *)

(** ** Domains *)

Lemma generate_domain_elem_of_iff tsl srooms sinstrs ts rm ins :
  (ts, rm, ins) ∈ generate_domain tsl srooms sinstrs ↔
  ts ∈ odict_values tsl ∧ rm ∈ srooms ∧ ins ∈ sinstrs ∧
  TimeSlot.day ts ∉ Instructor.unavailable_days ins.
Proof.
  split; [apply generate_domain_elem_of|].
  intros (Hts & Hrm & Hins & Hday). unfold generate_domain.
  apply list_elem_of_bind. exists ts. split; [|done].
  apply list_elem_of_bind. exists rm. split; [|done].
  apply list_elem_of_bind. exists ins. split; [|done].
  rewrite decide_False by done. by left.
Qed.

Lemma domain_of_elem_of_iff instrs rms tsl course_id course ts rm ins :
  (ts, rm, ins) ∈ (domain_of instrs rms tsl course_id course).1 ↔
  ts ∈ odict_values tsl ∧
  rm ∈ odict_values rms ∧
  Room.type rm = room_type_of course_id course ∧
  ins ∈ odict_values instrs ∧
  course_id ∈ Instructor.qualified_courses ins ∧
  TimeSlot.day ts ∉ Instructor.unavailable_days ins.
Proof.
  split; [apply domain_of_elem_of|].
  intros (Hts & Hrm & Hty & Hins & Hq & Hday). unfold domain_of.
  assert (Hr : rm ∈ suitable_rooms_of rms course_id course)
    by (by apply list_elem_of_filter).
  assert (Hi : ins ∈ qualified_instructors_of instrs course_id)
    by (by apply list_elem_of_filter).
  destruct (qualified_instructors_of instrs course_id) as [|i0 is0] eqn:Ei;
    [by apply elem_of_nil in Hi|].
  destruct (suitable_rooms_of rms course_id course) as [|r0 rs0] eqn:Er;
    [by apply elem_of_nil in Hr|].
  simpl. by apply generate_domain_elem_of_iff.
Qed.

(** X8.  The precomputed domain of a variable is exactly the set of
    (time slot, room, instructor) triples of the solver such that the room
    has the class the course asks for, the instructor is qualified for the
    course, and the instructor is not unavailable on the day of the slot;
    and the variables that have a domain are exactly the solver's
    variables. *)
Theorem domains_are_exact cs ins rs ss tsl S out :
  FinalFixSolver_init cs ins rs ss tsl = Ok (S, out) →
  (∀ v, is_Some (domains S !! v) ↔ v ∈ variables S) ∧
  ∀ v domain, domains S !! v = Some domain →
    ∃ course, odict_get v.2 (courses S) = Some course ∧
      ∀ ts rm i,
        (ts, rm, i) ∈ domain ↔
        ts ∈ odict_values (time_slots S) ∧
        rm ∈ odict_values (rooms S) ∧
        Room.type rm = room_type_of v.2 course ∧
        i ∈ odict_values (instructors S) ∧
        v.2 ∈ Instructor.qualified_courses i ∧
        TimeSlot.day ts ∉ Instructor.unavailable_days i.
Proof.
  intros Hinit.
  pose proof (FinalFixSolver_init_well_built _ _ _ _ _ _ _ Hinit) as HS.
  split.
  - intros v. split; [apply (wb_keys S HS)|].
    intros Hv. by apply (proj1 (Forall_forall _ _) (wb_covered S HS)).
  - intros v domain Hv.
    destruct (wb_domains S HS v domain Hv) as (course & Hc & ->).
    exists course. split; [done|]. intros ts rm i.
    apply domain_of_elem_of_iff.
Qed.

Definition demo_init : Solver * list event :=
  Eval vm_compute in
    match FinalFixSolver_init demo_courses demo_instructors demo_rooms
            demo_sections demo_time_slots with
    | Ok p => p
    | Raise _ => (self no_run, [])
    end.

Lemma demo_init_eq :
  FinalFixSolver_init demo_courses demo_instructors demo_rooms demo_sections
    demo_time_slots = Ok (demo_init.1, demo_init.2).
Proof. vm_compute. reflexivity. Qed.

Lemma domains_are_exact_witness :
  (∀ v, is_Some (domains demo_init.1 !! v) ↔ v ∈ variables demo_init.1) ∧
  ∃ domain, domains demo_init.1 !! ("S1", "PHY113") = Some domain ∧
    length domain = 2.
Proof.
  destruct (domains_are_exact _ _ _ _ _ _ _ demo_init_eq) as [Hkeys _].
  split; [exact Hkeys|]. eexists. split; vm_compute; reflexivity.
Defined.

(** ** Outcome of the construction *)






Example init_unknown_course :
  FinalFixSolver_init [] demo_instructors demo_rooms demo_sections
    demo_time_slots = Raise KeyError.
Proof. vm_compute. reflexivity. Qed.

(** ** Room promotion *)

Lemma odict_set_fresh {V} k (v : V) d :
  k ∉ d.*1 → odict_set k v d = d ++ [(k, v)].
Proof.
  induction d as [|[k' v'] d IH]; intros Hk; csimpl; [done|].
  csimpl in Hk. apply not_elem_of_cons in Hk as [Hne Hk].
  rewrite decide_False by done. by rewrite IH.
Qed.

(** Without repeated keys the dict comprehension keeps every element, in
    order. *)
Lemma odict_of_list_NoDup {V} (key : V → string) (l : list V) :
  NoDup (key <$> l) → odict_of_list key l = (λ v, (key v, v)) <$> l.
Proof.
  unfold odict_of_list. intros Hnd.
  assert (H : ∀ d : odict V,
    (∀ v, v ∈ l → key v ∉ d.*1) →
    foldl (λ d v, odict_set (key v) v d) d l = d ++ ((λ v, (key v, v)) <$> l)).
  { induction l as [|v l IH]; intros d Hd; csimpl; [by rewrite app_nil_r|].
    csimpl in Hnd. apply NoDup_cons in Hnd as [Hv Hnd].
    rewrite odict_set_fresh by (apply Hd; by left).
    rewrite IH; [by rewrite <- app_assoc|done|].
    intros w Hw. rewrite fmap_app, elem_of_app. csimpl.
    rewrite list_elem_of_singleton. intros [Hin|Heq].
    - by apply (Hd w); [right|].
    - apply Hv. rewrite <- Heq. apply list_elem_of_fmap. by exists w. }
  rewrite H; [done|]. intros v _. apply not_elem_of_nil.
Qed.

Lemma odict_values_of_list {V} (key : V → string) (l : list V) :
  NoDup (key <$> l) → odict_values (odict_of_list key l) = l.
Proof.
  intros Hnd. rewrite odict_of_list_NoDup by done. unfold odict_values.
  rewrite <- list_fmap_compose. rewrite <- (list_fmap_id l) at 2.
  by apply list_fmap_ext.
Qed.

Definition count_type (ty : string) (rooms : list Room.t) : nat :=
  length (filter (λ r, Room.type r = ty) rooms).

Lemma convert_labs_ids n rooms :
  Room.id <$> convert_labs n rooms = Room.id <$> rooms ∧
  Room.capacity <$> convert_labs n rooms = Room.capacity <$> rooms.
Proof.
  revert n. induction rooms as [|r rooms IH]; intros n; csimpl; [done|].
  case_decide.
  - destruct n as [|n]; [done|]. csimpl. destruct (IH n) as [-> ->]. done.
  - csimpl. destruct (IH n) as [-> ->]. done.
Qed.

Lemma convert_labs_lookup rooms : ∀ n i r,
  rooms !! i = Some r →
  convert_labs n rooms !! i =
  Some (if decide (Room.type r = "Lab" ∧ (count_type "Lab" (take i rooms) < n)%nat)
        then set_room_type "Classroom" r else r).
Proof.
  unfold count_type.
  induction rooms as [|r0 rooms IH]; intros n i r Hi; [done|].
  destruct i as [|i]; simpl in Hi.
  - simplify_eq. simpl. case_decide as Hlab.
    + destruct n as [|n]; simpl.
      * rewrite decide_False by (intros [_ ?]; lia). done.
      * rewrite decide_True by (split; [done|lia]). done.
    + simpl. rewrite decide_False by (by intros [? _]). done.
  - simpl. rewrite filter_cons. case_decide as Hlab.
    + destruct n as [|n]; simpl.
      * rewrite Hi. rewrite decide_False by (intros [_ ?]; lia). done.
      * rewrite (IH n i r Hi). f_equal.
        destruct (decide (Room.type r = "Lab" ∧ _)) as [[? ?]|Hn].
        -- rewrite decide_True by (split; [done|lia]). done.
        -- rewrite decide_False; [done|]. intros [? ?]. apply Hn.
           split; [done|lia].
    + simpl. by rewrite (IH n i r Hi).
Qed.

Lemma count_type_cons ty r l :
  count_type ty (r :: l) =
  ((if decide (Room.type r = ty) then 1 else 0) + count_type ty l)%nat.
Proof. unfold count_type. rewrite filter_cons. by case_decide. Qed.

Lemma convert_labs_counts rooms : ∀ n,
  count_type "Classroom" (convert_labs n rooms) =
    (count_type "Classroom" rooms + n `min` count_type "Lab" rooms)%nat ∧
  count_type "Lab" (convert_labs n rooms) = (count_type "Lab" rooms - n)%nat.
Proof.
  induction rooms as [|r rooms IH]; intros n; [by destruct n|].
  cbn [convert_labs].
  destruct (decide (Room.type r = "Lab")) as [Hlab|Hlab].
  - assert (Hnc : Room.type r ≠ "Classroom") by (rewrite Hlab; discriminate).
    destruct n as [|n].
    + rewrite !count_type_cons.
      rewrite (decide_True (P := Room.type r = "Lab")) by done.
      rewrite (decide_False (P := Room.type r = "Classroom")) by done.
      lia.
    + rewrite !count_type_cons. cbn [set_room_type Room.type].
      rewrite (decide_True (P := Room.type r = "Lab")) by done.
      rewrite (decide_False (P := Room.type r = "Classroom")) by done.
      rewrite (decide_True (P := "Classroom" = "Classroom")) by done.
      rewrite (decide_False (P := "Classroom" = "Lab")) by done.
      destruct (IH n) as [-> ->]. lia.
  - rewrite !count_type_cons.
    rewrite (decide_False (P := Room.type r = "Lab")) by done.
    destruct (IH n) as [-> ->]. case_decide; lia.
Qed.

(** X10.  On rooms with pairwise distinct ids, the room normaliser keeps
    the rooms, their order, ids and capacities.  When some room is a
    classroom it changes nothing.  When none is, it turns exactly the first
    twenty lab rooms (all of them if there are fewer) into classrooms and
    touches no other room. *)
Theorem room_promotion rooms :
  NoDup (Room.id <$> rooms) →
  let rooms' := odict_values (_fix_room_types rooms) in
  Room.id <$> rooms' = Room.id <$> rooms ∧
  Room.capacity <$> rooms' = Room.capacity <$> rooms ∧
  (count_type "Classroom" rooms ≠ 0 → rooms' = rooms) ∧
  (count_type "Classroom" rooms = 0 →
   count_type "Classroom" rooms' = 20 `min` count_type "Lab" rooms ∧
   count_type "Lab" rooms' = (count_type "Lab" rooms - 20)%nat ∧
   ∀ i r, rooms !! i = Some r →
     rooms' !! i =
     Some (if decide (Room.type r = "Lab" ∧
                      (count_type "Lab" (take i rooms) < 20)%nat)
           then set_room_type "Classroom" r else r)).
Proof.
  intros Hnd rooms'. subst rooms'. unfold _fix_room_types.
  fold (count_type "Classroom" rooms).
  destruct (convert_labs_ids 20 rooms) as [Hids Hcaps].
  case_decide as Hc.
  - rewrite odict_values_of_list by (by rewrite Hids).
    split_and!; [done|done|done|]. intros _.
    destruct (convert_labs_counts rooms 20) as [Hcl Hlab].
    split_and!; [lia|done|]. intros i r Hi. by apply convert_labs_lookup.
  - rewrite odict_values_of_list by done. by split_and!.
Qed.

(** Twenty-two labs and a hall, no classroom. *)
Definition lab_only_rooms : list Room.t :=
  ((λ n, Room.mk (String (Ascii.ascii_of_nat (65 + n)) "LAB") "Lab" 30)
     <$> seq 0 22) ++ [Room.mk "HALL" "Hall" 200].

Lemma room_promotion_witness :
  let rooms' := odict_values (_fix_room_types lab_only_rooms) in
  count_type "Classroom" rooms' = 20 ∧ count_type "Lab" rooms' = 2 ∧
  Room.type <$> drop 20 rooms' = ["Lab"; "Lab"; "Hall"].
Proof.
  assert (Hnd : NoDup (Room.id <$> lab_only_rooms)).
  { apply (bool_decide_unpack (NoDup (Room.id <$> lab_only_rooms))).
    by vm_compute. }
  destruct (room_promotion lab_only_rooms Hnd) as (_ & _ & _ & Hnone).
  destruct Hnone as (Hcl & Hlab & _); [by vm_compute|].
  split_and!; [exact Hcl|exact Hlab|vm_compute; reflexivity].
Defined.

(** * The timetable operations *)

Lemma list_remove_Some a l l' :
  list_remove a l = Some l' ↔
  ∃ l1 l2, l = l1 ++ a :: l2 ∧ (a ∉ l1) ∧ l' = l1 ++ l2.
Proof.
  revert l'. induction l as [|y l IH]; intros l'; simpl.
  - split; [done|]. intros (l1 & l2 & H & _). by destruct l1.
  - case_decide as Hy.
    + subst y. split.
      * intros [= <-]. exists [], l. split_and!; [done| |done].
        apply not_elem_of_nil.
      * intros (l1 & l2 & H & Hnotin & ->). destruct l1 as [|z l1].
        -- simpl in *. by simplify_eq.
        -- simpl in H. injection H as -> _. exfalso. apply Hnotin. by left.
    + destruct (list_remove a l) as [r|] eqn:Hr.
      * destruct (proj1 (IH r) eq_refl) as (l1 & l2 & -> & Hnotin & ->).
        split.
        -- intros [= <-]. exists (y :: l1), l2. split_and!; [done| |done].
           intros Hin. apply elem_of_cons in Hin as [?|?]; by subst.
        -- intros (k1 & k2 & H & Hk & ->). destruct k1 as [|z k1].
           ++ simpl in H. by simplify_eq.
           ++ simpl in H. injection H as <- H. f_equal.
              assert (Some (l1 ++ l2) = Some (k1 ++ k2)) as [= ->]; [|done].
              apply IH. exists k1, k2. split_and!; [done| |done].
              intros Hin. apply Hk. by right.
      * split; [done|]. intros (k1 & k2 & H & Hk & ->).
        destruct k1 as [|z k1]; simpl in H; [by simplify_eq|].
        injection H as <- H.
        assert (None = Some (k1 ++ k2)); [|done].
        apply IH. exists k1, k2. split_and!; [done| |done].
        intros Hin. apply Hk. by right.
Qed.

Lemma list_remove_None a l : list_remove a l = None ↔ a ∉ l.
Proof.
  split.
  - intros Hnone Hin. destruct (list_remove_elem_of a l Hin) as [r Hr].
    congruence.
  - intros Hnotin. destruct (list_remove a l) as [r|] eqn:Hr; [|done].
    apply list_remove_Some in Hr as (l1 & l2 & -> & _). exfalso.
    apply Hnotin. apply elem_of_app. right. by left.
Qed.

Lemma sched_remove_Ok k x m m' :
  sched_remove k x m = Ok m' ↔
  x ∈ slots m k ∧ m' = <[k := slots m k ∖ {[x]}]> m.
Proof.
  unfold sched_remove. case_decide.
  - split; [by intros [= <-]|]. by intros [_ ->].
  - split; [done|]. by intros [? _].
Qed.

Lemma sched_remove_Raise k x m e :
  sched_remove k x m = Raise e ↔ (x ∉ slots m k) ∧ e = KeyError.
Proof.
  unfold sched_remove. case_decide.
  - split; [done|]. by intros [? _].
  - split; [by intros [= <-]|]. by intros [_ ->].
Qed.

Lemma remove_assignment_cases tbl a :
  let slot := TimeSlot.id (time_slot a) in
  let booked :=
    slot ∈ slots (instructor_schedule tbl) (Instructor.id (instructor a)) ∧
    slot ∈ slots (room_schedule tbl) (Room.id (room a)) ∧
    slot ∈ slots (section_schedule tbl) (section_id a) in
  (remove_assignment tbl a = Raise ValueError ↔ (a ∉ assignments tbl)) ∧
  (remove_assignment tbl a = Raise KeyError ↔
   a ∈ assignments tbl ∧
   (assignment_dict tbl !! var_of a = None ∨ ¬ booked)) ∧
  (∀ tbl', remove_assignment tbl a = Ok tbl' ↔
     is_Some (assignment_dict tbl !! var_of a) ∧ booked ∧
     (∃ l1 l2, assignments tbl = l1 ++ a :: l2 ∧ (a ∉ l1) ∧
               assignments tbl' = l1 ++ l2) ∧
     assignment_dict tbl' = delete (var_of a) (assignment_dict tbl) ∧
     instructor_schedule tbl' =
       <[Instructor.id (instructor a) :=
           slots (instructor_schedule tbl) (Instructor.id (instructor a))
             ∖ {[slot]}]> (instructor_schedule tbl) ∧
     room_schedule tbl' =
       <[Room.id (room a) :=
           slots (room_schedule tbl) (Room.id (room a)) ∖ {[slot]}]>
         (room_schedule tbl) ∧
     section_schedule tbl' =
       <[section_id a :=
           slots (section_schedule tbl) (section_id a) ∖ {[slot]}]>
         (section_schedule tbl)).
Proof.
  intros slot booked. subst slot booked. unfold remove_assignment.
  fold (var_of a).
  destruct (list_remove a (assignments tbl)) as [l|] eqn:Hl.
  2:{ apply list_remove_None in Hl. split_and!.
      - done.
      - split; [done|]. by intros [? _].
      - intros tbl'. split; [done|].
        intros (_ & _ & (l1 & l2 & H & _) & _). exfalso. apply Hl.
        rewrite H. apply elem_of_app. right. by left. }
  pose proof (proj1 (list_remove_Some _ _ _) Hl) as (l1 & l2 & Hl12 & Hnot & ->).
  assert (Hin : a ∈ assignments tbl).
  { rewrite Hl12. apply elem_of_app. right. by left. }
  assert (Huniq : ∀ k1 k2, assignments tbl = k1 ++ a :: k2 → a ∉ k1 →
                           k1 ++ k2 = l1 ++ l2).
  { intros k1 k2 Hk Hk1.
    assert (Some (k1 ++ k2) = Some (l1 ++ l2)) as [= ->]; [|done].
    rewrite <- Hl. symmetry. apply list_remove_Some. by exists k1, k2. }
  destruct (assignment_dict tbl !! var_of a) as [b|] eqn:Hd.
  2:{ split_and!.
      - split; [done|]. by intros ?.
      - split; [|done]. intros _. split; [done|]. by left.
      - intros tbl'. split; [done|]. by intros ([? ?] & _). }
  destruct (sched_remove (Instructor.id (instructor a)) _
              (instructor_schedule tbl)) as [mi|ei] eqn:Hi; simpl.
  2:{ apply sched_remove_Raise in Hi as [Hi ->]. split_and!.
      - split; [done|]. by intros ?.
      - split; [|done]. intros _. split; [done|]. right. by intros [? _].
      - intros tbl'. split; [done|]. by intros (_ & [? _] & _). }
  apply sched_remove_Ok in Hi as [Hi ->].
  destruct (sched_remove (Room.id (room a)) _ (room_schedule tbl))
    as [mr|er] eqn:Hr; simpl.
  2:{ apply sched_remove_Raise in Hr as [Hr ->]. split_and!.
      - split; [done|]. by intros ?.
      - split; [|done]. intros _. split; [done|]. right.
        by intros (_ & ? & _).
      - intros tbl'. split; [done|]. by intros (_ & (_ & ? & _) & _). }
  apply sched_remove_Ok in Hr as [Hr ->].
  destruct (sched_remove (section_id a) _ (section_schedule tbl))
    as [ms|es] eqn:Hs; simpl.
  2:{ apply sched_remove_Raise in Hs as [Hs ->]. split_and!.
      - split; [done|]. by intros ?.
      - split; [|done]. intros _. split; [done|]. right.
        by intros (_ & _ & ?).
      - intros tbl'. split; [done|]. by intros (_ & (_ & _ & ?) & _). }
  apply sched_remove_Ok in Hs as [Hs ->].
  split_and!.
  - split; [done|]. by intros ?.
  - split; [done|]. intros (_ & [?|Hnb]); [done|]. by destruct Hnb.
  - intros tbl'. split.
    + intros [= <-]. simpl. split_and!; try done. by exists l1, l2.
    + intros (_ & _ & (k1 & k2 & Hk & Hk1 & Hl') & Hd' & Hi' & Hr' & Hs').
      destruct tbl' as [l' d' i' r' s']. simpl in *. subst.
      f_equal. f_equal. symmetry. by apply Huniq.
Qed.

(** X11.  [remove_assignment] raises [ValueError] exactly when the
    assignment is not in the list, and [KeyError] exactly when it is in the
    list but its variable has no map entry or its slot is missing from one
    of the three sets.  Otherwise it drops the first occurrence of the
    assignment from the list, deletes the map entry of its variable and
    takes its slot out of the three sets, leaving every other key as it
    was. *)
Theorem remove_assignment_outcome tbl a :
  let slot := TimeSlot.id (time_slot a) in
  let booked :=
    slot ∈ slots (instructor_schedule tbl) (Instructor.id (instructor a)) ∧
    slot ∈ slots (room_schedule tbl) (Room.id (room a)) ∧
    slot ∈ slots (section_schedule tbl) (section_id a) in
  (remove_assignment tbl a = Raise ValueError ↔ (a ∉ assignments tbl)) ∧
  (remove_assignment tbl a = Raise KeyError ↔
   a ∈ assignments tbl ∧
   (assignment_dict tbl !! var_of a = None ∨ ¬ booked)) ∧
  (∀ tbl', remove_assignment tbl a = Ok tbl' ↔
     is_Some (assignment_dict tbl !! var_of a) ∧ booked ∧
     (∃ l1 l2, assignments tbl = l1 ++ a :: l2 ∧ (a ∉ l1) ∧
               assignments tbl' = l1 ++ l2) ∧
     assignment_dict tbl' = delete (var_of a) (assignment_dict tbl) ∧
     instructor_schedule tbl' =
       <[Instructor.id (instructor a) :=
           slots (instructor_schedule tbl) (Instructor.id (instructor a))
             ∖ {[slot]}]> (instructor_schedule tbl) ∧
     room_schedule tbl' =
       <[Room.id (room a) :=
           slots (room_schedule tbl) (Room.id (room a)) ∖ {[slot]}]>
         (room_schedule tbl) ∧
     section_schedule tbl' =
       <[section_id a :=
           slots (section_schedule tbl) (section_id a) ∖ {[slot]}]>
         (section_schedule tbl)).
Proof. apply remove_assignment_cases. Qed.

Example remove_absent :
  remove_assignment Timetable_new first_booking = Raise ValueError.
Proof. vm_compute. reflexivity. Qed.

(** ** The indices as projections of the list *)

Definition ts2_slot : TimeSlot.t :=
  TimeSlot.mk "T2" "Monday" "10:00" "10:45" 45.

Definition indices_match (tbl : Timetable) : Prop :=
  index_sound tbl ∧ index_exact tbl.

Lemma index_sound_add t a : index_sound t → index_sound (add_assignment t a).
Proof.
  intros Hs b Hb. simpl in *. apply elem_of_app in Hb as [Hb|Hb].
  - destruct (Hs b Hb) as (? & ? & ?).
    split_and!; by apply slots_sched_add_mono.
  - apply list_elem_of_singleton in Hb as ->.
    split_and!; apply slots_sched_add_new.
Qed.

Lemma remove_slot_matches (key : Assignment → string * string) m k x l1 l2 a :
  key a = (k, x) →
  NoDup (key <$> (l1 ++ a :: l2)) →
  (∀ b, b ∈ l1 ++ a :: l2 → (key b).2 ∈ slots m (key b).1) →
  (∀ k' y, y ∈ slots m k' → ∃ b, b ∈ l1 ++ a :: l2 ∧ key b = (k', y)) →
  (∀ b, b ∈ l1 ++ l2 →
        (key b).2 ∈ slots (<[k := slots m k ∖ {[x]}]> m) (key b).1) ∧
  (∀ k' y, y ∈ slots (<[k := slots m k ∖ {[x]}]> m) k' →
           ∃ b, b ∈ l1 ++ l2 ∧ key b = (k', y)).
Proof.
  intros Ha Hnd Hsound Hexact.
  assert (Hother : ∀ b, b ∈ l1 ++ l2 → b ∈ l1 ++ a :: l2 ∧ key b ≠ key a).
  { intros b Hb. split.
    - apply elem_of_app in Hb as [?|?]; apply elem_of_app; [by left|].
      right. by right.
    - rewrite fmap_app, fmap_cons in Hnd.
      apply NoDup_app in Hnd as (_ & Hdisj & Hnd2).
      apply NoDup_cons in Hnd2 as [Hnotin _].
      intros Heq. apply elem_of_app in Hb as [Hb|Hb].
      + apply (Hdisj (key b)); [apply list_elem_of_fmap; by exists b|].
        rewrite Heq. by left.
      + apply Hnotin. rewrite <- Heq. apply list_elem_of_fmap. by exists b. }
  split.
  - intros b Hb. destruct (Hother b Hb) as [Hin Hne].
    rewrite slots_insert. case_decide as Hk; [|by apply Hsound].
    apply elem_of_difference. split; [rewrite Hk; by apply Hsound|].
    intros Hx. apply elem_of_singleton in Hx. apply Hne. rewrite Ha.
    destruct (key b). simpl in *. by subst.
  - intros k' y Hy. rewrite slots_insert in Hy.
    assert (Hold : y ∈ slots m k' ∧ (k', y) ≠ (k, x)).
    { case_decide as Hk.
      - subst k'. apply elem_of_difference in Hy as [Hy Hne].
        split; [done|]. intros [= ->]. apply Hne. by apply elem_of_singleton.
      - split; [done|]. by intros [= -> _]. }
    destruct Hold as [Hold Hne].
    destruct (Hexact k' y Hold) as (b & Hb & Hkb).
    exists b. split; [|done].
    apply elem_of_app in Hb as [Hb|Hb]; apply elem_of_app; [by left|].
    apply elem_of_cons in Hb as [->|Hb]; [|by right]. congruence.
Qed.

(** X12.  The three indices stay the projections of the list: if they are
    before [add_assignment] they are after it, whatever is added; and if
    they are before [remove_assignment] on a timetable without double
    booking, they are after it, and the timetable is still without double
    booking. *)
Theorem indices_stay_projections tbl a :
  indices_match tbl →
  indices_match (add_assignment tbl a) ∧
  (conflict_free (assignments tbl) →
   ∀ tbl', remove_assignment tbl a = Ok tbl' →
     indices_match tbl' ∧ conflict_free (assignments tbl')).
Proof.
  intros [Hsound Hexact]. split.
  - split; [by apply index_sound_add|by apply index_exact_add].
  - intros (Ni & Nr & Ns) tbl' Hrm.
    apply remove_assignment_cases in Hrm
      as (_ & _ & (l1 & l2 & Hl & _ & Hl') & _ & Hi & Hr & Hs).
    destruct Hexact as (Ei & Er & Es). unfold index_sound in Hsound.
    rewrite Hl in *.
    destruct (remove_slot_matches instr_key (instructor_schedule tbl)
                _ _ l1 l2 a eq_refl Ni) as [Si' Ei']; [|done|].
    { intros b Hb. by destruct (Hsound b Hb) as (? & _). }
    destruct (remove_slot_matches room_key (room_schedule tbl)
                _ _ l1 l2 a eq_refl Nr) as [Sr' Er']; [|done|].
    { intros b Hb. by destruct (Hsound b Hb) as (_ & ? & _). }
    destruct (remove_slot_matches section_key (section_schedule tbl)
                _ _ l1 l2 a eq_refl Ns) as [Ss' Es']; [|done|].
    { intros b Hb. by destruct (Hsound b Hb) as (_ & _ & ?). }
    split; [split|].
    + intros b Hb. rewrite Hl' in Hb. rewrite Hi, Hr, Hs.
      split_and!; [by apply Si'|by apply Sr'|by apply Ss'].
    + unfold index_exact. rewrite Hl', Hi, Hr, Hs. by split_and!.
    + rewrite Hl'.
      assert (Hsub : l1 ++ l2 ⊆+ l1 ++ a :: l2).
      { apply submseteq_skips_l. by apply submseteq_cons. }
      by apply (conflict_free_submseteq _ _ Hsub).
Qed.

Lemma indices_match_new : indices_match Timetable_new.
Proof.
  split; [|apply index_exact_new]. intros a Ha. by apply elem_of_nil in Ha.
Qed.

Lemma indices_stay_projections_witness :
  indices_match (add_assignment Timetable_new first_booking) ∧
  ∃ tbl', remove_assignment (add_assignment booked_once
                               (mkAssignment "S2" "ENG101" ts2_slot
                                  demo_room demo_instructor))
            first_booking = Ok tbl' ∧
          indices_match tbl'.
Proof.
  destruct (indices_stay_projections Timetable_new first_booking
              indices_match_new) as [Hadd _].
  split; [exact Hadd|].
  set (other := mkAssignment "S2" "ENG101" ts2_slot demo_room demo_instructor).
  destruct (indices_stay_projections booked_once other Hadd) as [Hadd2 _].
  destruct (indices_stay_projections (add_assignment booked_once other)
              first_booking Hadd2) as [_ Hrm].
  eexists. split; [vm_compute; reflexivity|].
  apply Hrm.
  - split_and!; apply (bool_decide_unpack _); by vm_compute.
  - vm_compute. reflexivity.
Defined.

(** * From the input entities to the assignments *)

Lemma odict_set_values {V} k (v w : V) d :
  w ∈ odict_values (odict_set k v d) → w = v ∨ w ∈ odict_values d.
Proof.
  unfold odict_values. induction d as [|[k' v'] d IH]; csimpl.
  - intros H. apply list_elem_of_singleton in H. by left.
  - case_decide; csimpl; intros Hw; apply elem_of_cons in Hw as [->|Hw].
    + by left.
    + right. by right.
    + right. by left.
    + destruct (IH Hw) as [?|?]; [by left|right; by right].
Qed.

(** The values of a dict comprehension are elements of the list. *)
Lemma odict_of_list_values {V} (key : V → string) (l : list V) w :
  w ∈ odict_values (odict_of_list key l) → w ∈ l.
Proof.
  unfold odict_of_list.
  assert (H : ∀ d : odict V,
    w ∈ odict_values (foldl (λ d v, odict_set (key v) v d) d l) →
    w ∈ odict_values d ∨ w ∈ l).
  { induction l as [|v l IH]; intros d Hw; simpl in Hw; [by left|].
    destruct (IH _ Hw) as [Hd|Hl]; [|right; by right].
    destruct (odict_set_values _ _ _ _ Hd) as [->|?]; [right; by left|by left]. }
  intros Hw. destruct (H [] Hw) as [Hnil|?]; [|done].
  by apply elem_of_nil in Hnil.
Qed.

Lemma odict_get_values {V} k (d : odict V) v :
  odict_get k d = Some v → (k, v) ∈ d.
Proof.
  induction d as [|[k' v'] d IH]; simpl; [done|].
  case_decide; [intros [= <-]; subst; by left|]. intros Hg. right.
  by apply IH.
Qed.

Lemma odict_of_list_get {V} (key : V → string) (l : list V) k v :
  odict_get k (odict_of_list key l) = Some v → v ∈ l ∧ key v = k.
Proof.
  unfold odict_of_list.
  assert (H : ∀ d : odict V,
    Forall (λ kv, kv.1 = key kv.2) d →
    Forall (λ kv, kv.1 = key kv.2)
      (foldl (λ d v, odict_set (key v) v d) d l)).
  { induction l as [|w l IH]; intros d Hd; simpl; [done|]. apply IH.
    clear IH. induction d as [|[k' v'] d IHd]; simpl.
    - by constructor.
    - apply Forall_cons in Hd as [Hk Hd]. case_decide.
      + by constructor.
      + constructor; [done|]. by apply IHd. }
  intros Hget. apply odict_get_values in Hget.
  split.
  - apply (odict_of_list_values key). unfold odict_values.
    apply list_elem_of_fmap. by exists (k, v).
  - assert (Hnil : Forall (λ kv : string * V, kv.1 = key kv.2) [])
      by constructor.
    specialize (H [] Hnil).
    symmetry. by apply (proj1 (Forall_forall _ _) H (k, v)).
Qed.

Lemma convert_labs_elem_of n rooms r :
  r ∈ convert_labs n rooms →
  r ∈ rooms ∨
  ∃ r0, r0 ∈ rooms ∧ Room.type r0 = "Lab" ∧ r = set_room_type "Classroom" r0.
Proof.
  revert n. induction rooms as [|r1 rooms IH]; intros n Hr; simpl in Hr;
    [by left|].
  assert (Hrest : ∀ m, r ∈ convert_labs m rooms →
    r ∈ r1 :: rooms ∨
    ∃ r0, r0 ∈ r1 :: rooms ∧ Room.type r0 = "Lab" ∧
          r = set_room_type "Classroom" r0).
  { intros m Hm. destruct (IH m Hm) as [?|(r0 & ? & ? & ?)].
    - left. by right.
    - right. exists r0. split; [by right|done]. }
  case_decide as Hlab.
  - destruct n as [|n]; [by left|].
    apply elem_of_cons in Hr as [->|Hr]; [|by apply (Hrest n)].
    right. exists r1. split; [by left|done].
  - apply elem_of_cons in Hr as [->|Hr]; [left; by left|by apply (Hrest n)].
Qed.

Lemma fix_rooms_values rs r :
  r ∈ odict_values (_fix_room_types rs) →
  ∃ r0, r0 ∈ rs ∧ Room.id r0 = Room.id r ∧
        Room.capacity r0 = Room.capacity r ∧
        (Room.type r = Room.type r0 ∨
         (Room.type r0 = "Lab" ∧ Room.type r = "Classroom")).
Proof.
  unfold _fix_room_types. intros Hr. apply odict_of_list_values in Hr.
  case_decide.
  - destruct (convert_labs_elem_of _ _ _ Hr) as [?|(r0 & ? & ? & ->)].
    + exists r. split_and!; [done|done|done|by left].
    + exists r0. split_and!; try done. by right.
  - exists r. split_and!; [done|done|done|by left].
Qed.

Lemma suitable_add_qualifications cs i :
  suitable (add_qualifications cs i) = suitable i.
Proof. apply suitable_by_id, add_qualifications_id. Qed.

Lemma add_qualification_fields c i :
  Instructor.name (add_qualification c i) = Instructor.name i ∧
  Instructor.unavailable_days (add_qualification c i)
    = Instructor.unavailable_days i ∧
  (∀ x, x ∈ Instructor.qualified_courses (add_qualification c i) ↔
        x ∈ Instructor.qualified_courses i ∨
        x = c).
Proof.
  unfold add_qualification. case_decide as Hc; simpl.
  - split_and!; [done|done|]. intros x. split; [by left|].
    intros [?|Heq]; [done|by subst].
  - split_and!; [done|done|]. intros x.
    by rewrite elem_of_app, list_elem_of_singleton.
Qed.

Lemma add_qualifications_fields cs : ∀ i,
  Instructor.name (add_qualifications cs i) = Instructor.name i ∧
  Instructor.unavailable_days (add_qualifications cs i)
    = Instructor.unavailable_days i ∧
  (∀ x, x ∈ Instructor.qualified_courses (add_qualifications cs i) ↔
        x ∈ Instructor.qualified_courses i ∨ x ∈ cs).
Proof.
  unfold add_qualifications.
  induction cs as [|c cs IH]; intros i; simpl.
  - split_and!; [done|done|]. intros x. split; [by left|].
    intros [?|H]; [done|by apply elem_of_nil in H].
  - destruct (IH (add_qualification c i)) as (-> & -> & Hq).
    destruct (add_qualification_fields c i) as (-> & -> & Hq1).
    split_and!; [done|done|]. intros x.
    rewrite Hq, Hq1, elem_of_cons. tauto.
Qed.

(** The instructors of the solver against the dict they were built
    from. *)
Lemma fix_qualifications_values d i :
  keyed_by_id d →
  i ∈ odict_values (_fix_instructor_qualifications d) →
  ∃ i0, i0 ∈ odict_values d ∧
    Instructor.id i0 = Instructor.id i ∧
    Instructor.name i0 = Instructor.name i ∧
    Instructor.unavailable_days i0 = Instructor.unavailable_days i ∧
    ∀ x, x ∈ Instructor.qualified_courses i ↔
         x ∈ Instructor.qualified_courses i0 ∨
         (x ∈ missing_courses ∧ i0 ∈ first_three d).
Proof.
  intros Hd. unfold _fix_instructor_qualifications.
  rewrite fix_courses_spec, alter_at_by_value by done.
  unfold odict_values. rewrite <- list_fmap_compose.
  intros Hi. apply list_elem_of_fmap in Hi as ([k i0] & -> & Hin).
  unfold compose. cbn [fst snd].
  exists i0. split; [apply list_elem_of_fmap; by exists (k, i0)|].
  case_decide as Hft.
  - destruct (add_qualifications_fields missing_courses i0) as (-> & -> & Hq).
    rewrite add_qualifications_id. split_and!; try done.
    intros x. rewrite Hq. tauto.
  - split_and!; try done. intros x. tauto.
Qed.

(** Where the parts of an assignment of a returned timetable come from. *)
Lemma assignment_origin cs ins rs ss tsl r t a :
  solve_entities cs ins rs ss tsl = Returned r →
  result r = Some t →
  a ∈ assignments t →
  time_slot a ∈ tsl ∧
  (∃ r0, r0 ∈ rs ∧ Room.id r0 = Room.id (room a) ∧
         Room.capacity r0 = Room.capacity (room a) ∧
         (Room.type (room a) = Room.type r0 ∨
          (Room.type r0 = "Lab" ∧ Room.type (room a) = "Classroom"))) ∧
  (∃ i0, i0 ∈ ins ∧
         Instructor.id i0 = Instructor.id (instructor a) ∧
         Instructor.name i0 = Instructor.name (instructor a) ∧
         Instructor.unavailable_days i0
           = Instructor.unavailable_days (instructor a) ∧
         (TimeSlot.day (time_slot a) ∉ Instructor.unavailable_days i0) ∧
         (course_id a ∈ Instructor.qualified_courses i0 ∨
          (course_id a ∈ missing_courses ∧ suitable i0 = true))) ∧
  (∃ s, s ∈ ss ∧ Section_.id s = section_id a ∧
        course_id a ∈ Section_.courses s) ∧
  (∃ c, c ∈ cs ∧ Course.id c = course_id a).
Proof.
  intros Hrun Hres Ha.
  destruct (solve_entities_spec _ _ _ _ _ _ Hrun)
    as (S & out & Hinit & HS & _ & _ & Hgood).
  destruct (Hgood t Hres) as (_ & _ & _ & Hdom).
  pose proof (proj1 (Forall_forall _ _) Hdom a Ha) as Hin.
  destruct (in_domain_built S a HS Hin) as (course & Hc & Hel).
  apply domain_of_elem_of in Hel as (Hts & Hrm & _ & Hi & Hq & Hday).
  pose proof (init_variables _ _ _ _ _ _ _ Hinit) as Hvars.
  assert (Hvar : (section_id a, course_id a) ∈ variables S).
  { destruct Hin as (dom & Hd & _). apply (wb_keys S HS). eauto. }
  assert (HS' : courses S = odict_of_list Course.id cs ∧
                instructors S = _fix_instructor_qualifications
                                  (odict_of_list Instructor.id ins) ∧
                rooms S = _fix_room_types rs ∧
                time_slots S = odict_of_list TimeSlot.id tsl).
  { clear -Hinit. unfold FinalFixSolver_init in Hinit.
    destruct (_precompute_domains_final _ _ _ _ _) as [[d o]|e];
      [|discriminate].
    simpl in Hinit. destruct (map_to_list d); [discriminate|].
    simpl in Hinit. destruct (filter _ _); by simplify_eq. }
  destruct HS' as (Hcs & His & Hrs & Htsl).
  rewrite Hcs in Hc. rewrite His in Hi. rewrite Hrs in Hrm.
  rewrite Htsl in Hts.
  split_and!.
  - by apply odict_of_list_values in Hts.
  - by apply fix_rooms_values.
  - destruct (fix_qualifications_values _ _ (odict_of_list_keyed ins) Hi)
      as (i0 & Hi0 & Hid & Hname & Hun & Hqual).
    exists i0. split_and!; try done.
    + by apply odict_of_list_values in Hi0.
    + by rewrite Hun.
    + apply Hqual in Hq as [?|[Hm Hft]]; [by left|right]. split; [done|].
      unfold first_three in Hft. apply elem_of_take in Hft as (n & Hn & _).
      apply list_elem_of_lookup_2 in Hn.
      by apply list_elem_of_filter in Hn as [? _].
  - rewrite Hvars in Hvar. by apply elem_of_create_variables.
  - apply odict_of_list_get in Hc as [? ?]. by exists course.
Qed.

(** X13.  Every assignment of a timetable returned by [solve] is made of
    input entities: its time slot is an input time slot; its room is an
    input room with the same id and capacity, of the same type or a lab
    promoted to classroom; its instructor is an input instructor with the
    same id, name and unavailable days, who was qualified for the course
    in the input or is one of the instructors the missing courses are
    given to, and who is not unavailable that day; its section and course
    are an input section and one of that section's courses, and the
    course is in the catalogue. *)
Theorem assignments_use_input_entities cs ins rs ss tsl r t a :
  solve_entities cs ins rs ss tsl = Returned r →
  result r = Some t →
  a ∈ assignments t →
  time_slot a ∈ tsl ∧
  (∃ r0, r0 ∈ rs ∧ Room.id r0 = Room.id (room a) ∧
         Room.capacity r0 = Room.capacity (room a) ∧
         (Room.type (room a) = Room.type r0 ∨
          (Room.type r0 = "Lab" ∧ Room.type (room a) = "Classroom"))) ∧
  (∃ i0, i0 ∈ ins ∧
         Instructor.id i0 = Instructor.id (instructor a) ∧
         Instructor.name i0 = Instructor.name (instructor a) ∧
         Instructor.unavailable_days i0
           = Instructor.unavailable_days (instructor a) ∧
         (TimeSlot.day (time_slot a) ∉ Instructor.unavailable_days i0) ∧
         (course_id a ∈ Instructor.qualified_courses i0 ∨
          (course_id a ∈ missing_courses ∧ suitable i0 = true))) ∧
  (∃ s, s ∈ ss ∧ Section_.id s = section_id a ∧
        course_id a ∈ Section_.courses s) ∧
  (∃ c, c ∈ cs ∧ Course.id c = course_id a).
Proof. apply assignment_origin. Qed.

Lemma assignments_use_input_entities_witness :
  Forall (λ a,
    time_slot a ∈ demo_time_slots ∧
    (∃ i0, i0 ∈ demo_instructors ∧
           Instructor.id i0 = Instructor.id (instructor a) ∧
           TimeSlot.day (time_slot a) ∉ Instructor.unavailable_days i0))
    (assignments demo_timetable).
Proof.
  apply Forall_forall. intros a Ha.
  destruct (assignments_use_input_entities demo_courses demo_instructors
              demo_rooms demo_sections demo_time_slots demo_run
              demo_timetable a demo_run_eq demo_result_eq Ha)
    as (Hts & _ & (i0 & Hi0 & Hid & _ & _ & Hday & _) & _).
  split; [exact Hts|]. by exists i0.
Defined.

(** * Running the normalisers again *)

Lemma filter_none {A} (P : A → Prop) `{∀ x, Decision (P x)} (l : list A) :
  (∀ x, x ∈ l → ¬ P x) → filter P l = [].
Proof.
  intros Hl. destruct (filter P l) as [|x k] eqn:E; [done|].
  assert (Hx : x ∈ filter P l) by (rewrite E; by left).
  apply list_elem_of_filter in Hx as [HP Hx]. by destruct (Hl x Hx).
Qed.

Lemma augmented_twice cs i : augmented cs (augmented cs i) = augmented cs i.
Proof.
  unfold augmented. simpl.
  rewrite (filter_none
             (λ c, c ∉ Instructor.qualified_courses i ++
                       filter (λ c, c ∉ Instructor.qualified_courses i) cs));
    [by rewrite app_nil_r|].
  intros c Hc Hnot. apply Hnot. apply elem_of_app.
  destruct (decide (c ∈ Instructor.qualified_courses i)); [by left|].
  right. by apply list_elem_of_filter.
Qed.

Lemma fix_qualifications_twice d :
  keyed_by_id d →
  _fix_instructor_qualifications (_fix_instructor_qualifications d) =
  _fix_instructor_qualifications d.
Proof.
  intros Hd. unfold _fix_instructor_qualifications.
  rewrite (fix_courses_spec missing_courses d Hd).
  rewrite fix_courses_spec
    by (apply alter_at_keyed; [apply add_qualifications_id|done]).
  rewrite alter_at_targets by apply add_qualifications_id.
  rewrite alter_at_compose. unfold alter_at.
  apply list_fmap_ext. intros _ [k v] _. cbn [fst snd]. f_equal.
  case_decide; [|done]. unfold compose.
  rewrite !add_qualifications_augmented by apply missing_courses_NoDup.
  apply augmented_twice.
Qed.

(** X14.  The qualification normaliser is idempotent on the instructors
    dict: run on its own result, as when a second solver is built from the
    instructor objects a first one has already changed, it changes
    nothing. *)
Theorem qualification_augmentation_idempotent d :
  keyed_by_id d →
  _fix_instructor_qualifications (_fix_instructor_qualifications d) =
  _fix_instructor_qualifications d.
Proof. apply fix_qualifications_twice. Qed.

Lemma qualification_augmentation_idempotent_witness :
  _fix_instructor_qualifications
    (_fix_instructor_qualifications (odict_of_list Instructor.id staff)) =
  _fix_instructor_qualifications (odict_of_list Instructor.id staff).
Proof.
  apply (qualification_augmentation_idempotent
           (odict_of_list Instructor.id staff)).
  apply odict_of_list_keyed.
Defined.

Lemma convert_labs_no_labs n rooms :
  count_type "Lab" rooms = 0 → convert_labs n rooms = rooms.
Proof.
  revert n. induction rooms as [|r rooms IH]; intros n Hc; [done|].
  rewrite count_type_cons in Hc. cbn [convert_labs].
  destruct (decide (Room.type r = "Lab")); [lia|].
  rewrite IH; [done|lia].
Qed.

Lemma fix_room_types_twice rooms :
  NoDup (Room.id <$> rooms) →
  _fix_room_types (odict_values (_fix_room_types rooms)) =
  _fix_room_types rooms.
Proof.
  intros Hnd. unfold _fix_room_types at 2 3.
  fold (count_type "Classroom" rooms).
  destruct (convert_labs_ids 20 rooms) as [Hids _].
  destruct (convert_labs_counts rooms 20) as [Hcl Hlab].
  case_decide as Hc.
  - rewrite odict_values_of_list by (by rewrite Hids).
    unfold _fix_room_types.
    fold (count_type "Classroom" (convert_labs 20 rooms)).
    case_decide as Hc'; [|done].
    rewrite convert_labs_no_labs; [done|lia].
  - rewrite odict_values_of_list by done. unfold _fix_room_types.
    fold (count_type "Classroom" rooms). by rewrite decide_False.
Qed.

(** X15.  The room normaliser is idempotent on rooms with pairwise
    distinct ids: run on the rooms it has produced it gives the same
    dict. *)
Theorem room_promotion_idempotent rooms :
  NoDup (Room.id <$> rooms) →
  _fix_room_types (odict_values (_fix_room_types rooms)) =
  _fix_room_types rooms.
Proof. apply fix_room_types_twice. Qed.

Lemma room_promotion_idempotent_witness :
  _fix_room_types (odict_values (_fix_room_types lab_only_rooms)) =
  _fix_room_types lab_only_rooms.
Proof.
  apply (room_promotion_idempotent lab_only_rooms).
  apply (bool_decide_unpack (NoDup (Room.id <$> lab_only_rooms))).
  by vm_compute.
Defined.

(** * The data source: parsing of the instructor and section rows

    A Python [str] is the string of the bytes of its UTF-8 encoding.  A
    comma is one byte that occurs in no other character's encoding, and a
    whitespace character is the first (last) character of a string exactly
    when its encoding is a prefix (suffix) of the bytes, so [split(',')]
    and [strip()] are modelled on the bytes. *)

(** The byte 0x2C. *)
Definition is_comma (c : Ascii.ascii) : bool := (Ascii.N_of_ascii c =? 44)%N.

(** [s.split(',')] *)
Fixpoint split_comma (s : string) : list string :=
  match s with
  | EmptyString => [EmptyString]
  | String c rest =>
      if is_comma c then EmptyString :: split_comma rest
      else match split_comma rest with
           | [] => [String c EmptyString]
           | x :: xs => String c x :: xs
           end
  end.

(** The whitespace characters of [str.strip()] below U+0080: tab to
    carriage return, the four separators U+001C to U+001F, and space. *)
Definition ascii_space (c : Ascii.ascii) : bool :=
  let n := Ascii.N_of_ascii c in
  ((9 <=? n) && (n <=? 13) || (28 <=? n) && (n <=? 32))%N.

(** U+0085 and U+00A0, in two bytes. *)
Definition two_byte_space (c1 c2 : Ascii.ascii) : bool :=
  let n1 := Ascii.N_of_ascii c1 in
  let n2 := Ascii.N_of_ascii c2 in
  ((n1 =? 194) && ((n2 =? 133) || (n2 =? 160)))%N.

(** U+1680, U+2000 to U+200A, U+2028, U+2029, U+202F, U+205F and U+3000,
    in three bytes. *)
Definition three_byte_space (c1 c2 c3 : Ascii.ascii) : bool :=
  let n1 := Ascii.N_of_ascii c1 in
  let n2 := Ascii.N_of_ascii c2 in
  let n3 := Ascii.N_of_ascii c3 in
  ((n1 =? 225) && (n2 =? 154) && (n3 =? 128)
   || (n1 =? 226) && (n2 =? 128) &&
      ((128 <=? n3) && (n3 <=? 138) || (n3 =? 168) || (n3 =? 169)
       || (n3 =? 175))
   || (n1 =? 226) && (n2 =? 129) && (n3 =? 159)
   || (n1 =? 227) && (n2 =? 128) && (n3 =? 128))%N.

(** What is left of the string after its first character, when that
    character is whitespace. *)
Definition drop_space (s : string) : option string :=
  match s with
  | EmptyString => None
  | String c1 rest1 =>
      if ascii_space c1 then Some rest1 else
      match rest1 with
      | EmptyString => None
      | String c2 rest2 =>
          if two_byte_space c1 c2 then Some rest2 else
          match rest2 with
          | EmptyString => None
          | String c3 rest3 =>
              if three_byte_space c1 c2 c3 then Some rest3 else None
          end
      end
  end.

(** [s.lstrip()] *)
Fixpoint lstrip_fuel (fuel : nat) (s : string) : string :=
  match fuel with
  | O => s
  | S fuel' =>
      match drop_space s with
      | Some rest => lstrip_fuel fuel' rest
      | None => s
      end
  end.

Definition lstrip (s : string) : string := lstrip_fuel (String.length s) s.

(** [s.rstrip()]: nothing is left of a string of whitespace only; otherwise
    the first byte stays. *)
Fixpoint rstrip (s : string) : string :=
  match s with
  | EmptyString => EmptyString
  | String c rest =>
      if decide (lstrip s = EmptyString) then EmptyString
      else String c (rstrip rest)
  end.

(** [s.strip()] *)
Definition strip (s : string) : string := rstrip (lstrip s).

(** [[c.strip() for c in s.split(',') if c.strip()]] *)
Definition parse_list (s : string) : list string :=
  filter (λ c, c ≠ EmptyString) (strip <$> split_comma s).

(** The chain of [if 'Not on <day>' in preferred_slots:
    unavailable_days.append(<day>)]. *)
Definition parse_unavailable_days (preferred_slots : string) : list string :=
  let unavailable_days := [] in
  let unavailable_days :=
    if contains "Not on Sunday" preferred_slots
    then unavailable_days ++ ["Sunday"] else unavailable_days in
  let unavailable_days :=
    if contains "Not on Monday" preferred_slots
    then unavailable_days ++ ["Monday"] else unavailable_days in
  let unavailable_days :=
    if contains "Not on Tuesday" preferred_slots
    then unavailable_days ++ ["Tuesday"] else unavailable_days in
  let unavailable_days :=
    if contains "Not on Wednesday" preferred_slots
    then unavailable_days ++ ["Wednesday"] else unavailable_days in
  let unavailable_days :=
    if contains "Not on Thursday" preferred_slots
    then unavailable_days ++ ["Thursday"] else unavailable_days in
  let unavailable_days :=
    if contains "Not on Friday" preferred_slots
    then unavailable_days ++ ["Friday"] else unavailable_days in
  unavailable_days.

Example parse_list_ex :
  parse_list " CS101 , MATH 2,, ,PHY113 " = ["CS101"; "MATH 2"; "PHY113"].
Proof. vm_compute. reflexivity. Qed.

Example parse_list_nan : parse_list "nan" = ["nan"].
Proof. vm_compute. reflexivity. Qed.

Example parse_days_ex :
  parse_unavailable_days "Not on Friday, Not on Monday" = ["Monday"; "Friday"].
Proof. vm_compute. reflexivity. Qed.

(** ** Stripping *)

Lemma drop_space_length s r :
  drop_space s = Some r → (String.length r < String.length s)%nat.
Proof.
  unfold drop_space. destruct s as [|c1 [|c2 [|c3 r3]]]; simpl;
    repeat case_match; intros; simplify_eq; simpl; lia.
Qed.

Lemma drop_space_app s r t :
  drop_space s = Some r → drop_space (s +:+ t) = Some (r +:+ t).
Proof.
  unfold drop_space. destruct s as [|c1 [|c2 [|c3 r3]]]; simpl;
    repeat case_match; intros; simplify_eq; done.
Qed.

Lemma lstrip_fuel_irrelevant fuel : ∀ fuel' s,
  (String.length s ≤ fuel)%nat → (String.length s ≤ fuel')%nat →
  lstrip_fuel fuel s = lstrip_fuel fuel' s.
Proof.
  induction fuel as [|fuel IH]; intros fuel' s Hlen Hlen'.
  - destruct s; [by destruct fuel'|simpl in Hlen; lia].
  - destruct s as [|c rest]; [by destruct fuel'|].
    destruct fuel' as [|fuel']; [simpl in Hlen'; lia|].
    cbn [lstrip_fuel].
    destruct (drop_space (String c rest)) as [r|] eqn:Hd; [|done].
    pose proof (drop_space_length _ _ Hd) as Hr. simpl in Hr, Hlen, Hlen'.
    apply IH; lia.
Qed.

Lemma lstrip_fuel_enough fuel s :
  (String.length s ≤ fuel)%nat → lstrip_fuel fuel s = lstrip s.
Proof. intros Hlen. by apply lstrip_fuel_irrelevant. Qed.

Lemma lstrip_step s :
  lstrip s = match drop_space s with Some r => lstrip r | None => s end.
Proof.
  destruct s as [|c rest]; [done|]. unfold lstrip at 1.
  cbn [lstrip_fuel String.length].
  destruct (drop_space (String c rest)) as [r|] eqn:Hd; [|done].
  pose proof (drop_space_length _ _ Hd) as Hr. simpl in Hr.
  apply lstrip_fuel_enough. lia.
Qed.

(** Induction along the steps of [lstrip]. *)
Lemma lstrip_ind (P : string → Prop) :
  (∀ s, drop_space s = None → P s) →
  (∀ s r, drop_space s = Some r → P r → P s) →
  ∀ s, P s.
Proof.
  intros Hnone Hsome s.
  remember (String.length s) as n eqn:Hn. revert s Hn.
  induction n as [n IH] using lt_wf_ind. intros s ->.
  destruct (drop_space s) as [r|] eqn:Hd; [|by apply Hnone].
  apply (Hsome s r Hd). apply (IH (String.length r)); [|done].
  by apply drop_space_length.
Qed.

Lemma lstrip_no_space s : drop_space (lstrip s) = None.
Proof.
  induction s as [s Hd|s r Hd IH] using lstrip_ind;
    rewrite lstrip_step, Hd; done.
Qed.

Lemma lstrip_fixed s : drop_space s = None → lstrip s = s.
Proof. intros Hd. by rewrite lstrip_step, Hd. Qed.

Lemma lstrip_lstrip s : lstrip (lstrip s) = lstrip s.
Proof. apply lstrip_fixed, lstrip_no_space. Qed.

(** A string of whitespace only. *)
Definition blank (s : string) : Prop := lstrip s = EmptyString.

Lemma lstrip_blank_app w s : blank w → lstrip (w +:+ s) = lstrip s.
Proof.
  unfold blank. induction w as [w Hd|w r Hd IH] using lstrip_ind; intros Hw.
  - rewrite lstrip_fixed in Hw by done. by subst.
  - rewrite lstrip_step, Hd in Hw.
    rewrite lstrip_step, (drop_space_app _ _ _ Hd). by apply IH.
Qed.

Lemma drop_space_token s r :
  drop_space s = Some r →
  ∃ tok, s = tok +:+ r ∧ drop_space tok = Some EmptyString.
Proof.
  unfold drop_space. destruct s as [|c1 [|c2 [|c3 r3]]]; simpl;
    repeat case_match; intros; simplify_eq.
  all: first
    [ by exists (String c1 EmptyString); simpl; rewrite ?H
    | by exists (String c1 (String c2 EmptyString)); simpl; rewrite ?H, ?H0
    | by exists (String c1 (String c2 (String c3 EmptyString))); simpl;
        rewrite ?H, ?H0, ?H1 ].
Qed.

Lemma string_app_cons x (a b : string) :
  String x a +:+ b = String x (a +:+ b).
Proof. reflexivity. Qed.

Lemma string_app_assoc (a b c : string) : (a +:+ b) +:+ c = a +:+ (b +:+ c).
Proof.
  induction a as [|x a IH]; [done|]. rewrite !string_app_cons. congruence.
Qed.

Lemma string_app_nil_r (a : string) : a +:+ EmptyString = a.
Proof.
  induction a as [|x a IH]; [done|]. rewrite string_app_cons. congruence.
Qed.

Lemma lstrip_suffix s : ∃ w, s = w +:+ lstrip s ∧ blank w.
Proof.
  unfold blank. induction s as [s Hd|s r Hd IH] using lstrip_ind.
  - exists EmptyString. by rewrite lstrip_fixed.
  - destruct IH as (w & Hr & Hw). rewrite (lstrip_step s), Hd.
    destruct (drop_space_token _ _ Hd) as (tok & Hs & Htok).
    exists (tok +:+ w). split.
    + rewrite string_app_assoc. congruence.
    + by rewrite lstrip_step, (drop_space_app _ _ _ Htok).
Qed.

Lemma blank_app u t : blank u → blank t → blank (u +:+ t).
Proof. unfold blank. intros Hu Ht. by rewrite lstrip_blank_app. Qed.

Lemma rstrip_prefix s : ∃ t, s = rstrip s +:+ t ∧ blank t.
Proof.
  induction s as [|c rest (t & Hrest & Ht)]; [by exists EmptyString|].
  cbn [rstrip]. case_decide as Hb.
  - by exists (String c rest).
  - exists t. split; [|done]. rewrite string_app_cons. congruence.
Qed.

Lemma rstrip_blank s : blank s → rstrip s = EmptyString.
Proof.
  unfold blank. destruct s as [|c rest]; [done|]. intros Hb.
  cbn [rstrip]. by rewrite decide_True.
Qed.

Lemma rstrip_rstrip s : rstrip (rstrip s) = rstrip s.
Proof.
  induction s as [|c rest IH]; [done|].
  cbn [rstrip]. case_decide as Hb; [done|].
  cbn [rstrip]. rewrite IH. case_decide as Hb'; [|done].
  destruct Hb. destruct (rstrip_prefix rest) as (t & Hrest & Ht).
  rewrite Hrest, <- string_app_cons. by apply blank_app.
Qed.

Lemma rstrip_no_space s : drop_space s = None → drop_space (rstrip s) = None.
Proof.
  intros Hd. destruct (rstrip_prefix s) as (t & Hs & _).
  destruct (drop_space (rstrip s)) as [r|] eqn:Hr; [|done].
  apply (drop_space_app _ _ t) in Hr. rewrite <- Hs in Hr. congruence.
Qed.

Lemma strip_no_space s : drop_space (strip s) = None.
Proof. apply rstrip_no_space, lstrip_no_space. Qed.

Lemma strip_strip s : strip (strip s) = strip s.
Proof.
  unfold strip at 1. rewrite (lstrip_fixed (strip s)) by apply strip_no_space.
  apply rstrip_rstrip.
Qed.

Lemma strip_blank_app w s : blank w → strip (w +:+ s) = strip s.
Proof. intros Hw. unfold strip. by rewrite lstrip_blank_app. Qed.

(** What [strip] returns is a piece of its argument, between whitespace. *)
Lemma strip_infix s :
  ∃ w t, s = w +:+ strip s +:+ t ∧ blank w ∧ blank t.
Proof.
  destruct (lstrip_suffix s) as (w & Hs & Hw).
  destruct (rstrip_prefix (lstrip s)) as (t & Hl & Ht).
  exists w, t. split_and!; try done. unfold strip. congruence.
Qed.

(** ** Splitting *)

Fixpoint has_comma (s : string) : bool :=
  match s with
  | EmptyString => false
  | String c rest => is_comma c || has_comma rest
  end.

(** [sep.join(l)] *)
Fixpoint join (sep : string) (l : list string) : string :=
  match l with
  | [] => EmptyString
  | x :: rest =>
      match rest with
      | [] => x
      | _ :: _ => x +:+ sep +:+ join sep rest
      end
  end.

Lemma has_comma_app a b : has_comma (a +:+ b) = has_comma a || has_comma b.
Proof.
  induction a as [|c a IH]; [done|].
  rewrite string_app_cons. simpl. by rewrite IH, orb_assoc.
Qed.

Lemma split_comma_nonempty s : split_comma s ≠ [].
Proof.
  destruct s as [|c rest]; [done|]. simpl.
  destruct (is_comma c); [done|]. by destruct (split_comma rest).
Qed.

Lemma split_comma_cons x s :
  has_comma x = false →
  split_comma (x +:+ String (Ascii.ascii_of_N 44) s) = x :: split_comma s.
Proof.
  induction x as [|c x IH]; intros Hx.
  - done.
  - simpl in Hx. apply orb_false_elim in Hx as [Hc Hx].
    rewrite string_app_cons. cbn [split_comma]. rewrite Hc.
    by rewrite IH.
Qed.

Lemma split_comma_one x : has_comma x = false → split_comma x = [x].
Proof.
  induction x as [|c x IH]; intros Hx; [done|].
  simpl in Hx. apply orb_false_elim in Hx as [Hc Hx].
  cbn [split_comma]. rewrite Hc. by rewrite IH.
Qed.

Lemma split_comma_no_comma s : Forall (λ x, has_comma x = false) (split_comma s).
Proof.
  induction s as [|c rest IH]; [by repeat constructor|].
  cbn [split_comma]. destruct (is_comma c) eqn:Hc; [by constructor|].
  destruct (split_comma rest) as [|x xs].
  - repeat constructor. simpl. by rewrite Hc.
  - inversion_clear IH. constructor; [|done]. simpl. by rewrite Hc.
Qed.

Lemma is_comma_eq c : is_comma c = true → c = Ascii.ascii_of_N 44.
Proof.
  unfold is_comma. intros Hc. apply N.eqb_eq in Hc.
  by rewrite <- Hc, Ascii.ascii_N_embedding.
Qed.

Lemma join_cons sep x y l :
  join sep (x :: y :: l) = x +:+ sep +:+ join sep (y :: l).
Proof. reflexivity. Qed.

Lemma join_split_comma s : join "," (split_comma s) = s.
Proof.
  induction s as [|c rest IH]; [done|].
  cbn [split_comma]. destruct (is_comma c) eqn:Hc.
  - apply is_comma_eq in Hc as ->.
    pose proof (split_comma_nonempty rest) as Hne.
    destruct (split_comma rest) as [|y l] eqn:E; [done|].
    rewrite join_cons, IH. done.
  - pose proof (split_comma_nonempty rest) as Hne.
    destruct (split_comma rest) as [|y l] eqn:E; [done|].
    destruct l as [|z l].
    + simpl in *. congruence.
    + rewrite join_cons, string_app_cons. rewrite join_cons in IH. congruence.
Qed.

Lemma split_comma_join l :
  l ≠ [] → Forall (λ x, has_comma x = false) l →
  split_comma (join "," l) = l.
Proof.
  induction l as [|x [|y l] IH]; intros Hne Hl; [done| |].
  - simpl. apply split_comma_one. by inversion Hl.
  - rewrite join_cons. inversion_clear Hl as [|? ? Hx Hrest].
    change ("," +:+ join "," (y :: l))
      with (String (Ascii.ascii_of_N 44) (join "," (y :: l))).
    rewrite split_comma_cons by done. by rewrite IH.
Qed.

Lemma ascii_space_no_comma c : ascii_space c = true → is_comma c = false.
Proof.
  unfold ascii_space, is_comma.
  rewrite orb_true_iff, !andb_true_iff, !N.leb_le. intros Hc.
  apply N.eqb_neq. lia.
Qed.

Lemma two_byte_space_no_comma c1 c2 :
  two_byte_space c1 c2 = true → is_comma c1 = false ∧ is_comma c2 = false.
Proof.
  unfold two_byte_space, is_comma.
  rewrite andb_true_iff, orb_true_iff, !N.eqb_eq. intros Hc.
  split; apply N.eqb_neq; lia.
Qed.

Lemma three_byte_space_no_comma c1 c2 c3 :
  three_byte_space c1 c2 c3 = true →
  is_comma c1 = false ∧ is_comma c2 = false ∧ is_comma c3 = false.
Proof.
  unfold three_byte_space, is_comma.
  rewrite !orb_true_iff, !andb_true_iff, !orb_true_iff, !andb_true_iff,
    !N.eqb_eq, !N.leb_le.
  intros Hc. split_and!; apply N.eqb_neq; lia.
Qed.

Lemma drop_space_has_comma s r :
  drop_space s = Some r → has_comma s = has_comma r.
Proof.
  unfold drop_space. destruct s as [|c1 [|c2 [|c3 r3]]]; simpl;
    repeat case_match; intros; simplify_eq; simpl;
    repeat match goal with
    | H : ascii_space _ = true |- _ =>
        apply ascii_space_no_comma in H; rewrite ?H
    | H : two_byte_space _ _ = true |- _ =>
        apply two_byte_space_no_comma in H as [-> ->]
    | H : three_byte_space _ _ _ = true |- _ =>
        apply three_byte_space_no_comma in H as (-> & -> & ->)
    end; done.
Qed.

Lemma blank_no_comma w : blank w → has_comma w = false.
Proof.
  unfold blank. induction w as [w Hd|w r Hd IH] using lstrip_ind; intros Hw.
  - rewrite lstrip_fixed in Hw by done. by subst.
  - rewrite lstrip_step, Hd in Hw.
    rewrite (drop_space_has_comma _ _ Hd). by apply IH.
Qed.

(** An entry as [parse_list] returns them. *)
Definition clean (e : string) : Prop :=
  e ≠ EmptyString ∧ has_comma e = false ∧ strip e = e.

Lemma strip_no_comma x : has_comma x = false → has_comma (strip x) = false.
Proof.
  destruct (strip_infix x) as (w & t & Hx & _). intros Hc.
  rewrite Hx, !has_comma_app in Hc.
  apply orb_false_elim in Hc as [_ Hc]. by apply orb_false_elim in Hc as [? _].
Qed.

Definition infix_of (e s : string) : Prop := ∃ a b, s = a +:+ e +:+ b.

Lemma infix_of_cons c e s : infix_of e s → infix_of e (String c s).
Proof. intros (a & b & ->). by exists (String c a), b. Qed.

Lemma split_comma_infix s :
  match split_comma s with
  | [] => False
  | x :: xs => (∃ b, s = x +:+ b) ∧ Forall (λ y, infix_of y s) xs
  end.
Proof.
  induction s as [|c rest IH].
  - simpl. split; [by exists EmptyString|constructor].
  - cbn [split_comma]. destruct (is_comma c).
    + split; [by exists (String c rest)|].
      destruct (split_comma rest) as [|x xs]; [done|].
      destruct IH as [(b & Hb) Hxs]. constructor.
      * exists (String c EmptyString), b. by rewrite Hb at 1.
      * eapply Forall_impl; [exact Hxs|]. intros y. apply infix_of_cons.
    + destruct (split_comma rest) as [|x xs]; [done|].
      destruct IH as [(b & Hb) Hxs]. split.
      * exists b. rewrite string_app_cons. congruence.
      * eapply Forall_impl; [exact Hxs|]. intros y. apply infix_of_cons.
Qed.

Lemma split_comma_pieces s : Forall (λ y, infix_of y s) (split_comma s).
Proof.
  pose proof (split_comma_infix s) as H.
  destruct (split_comma s) as [|x xs]; [done|].
  destruct H as [(b & Hb) Hxs]. constructor; [|done].
  by exists EmptyString, b.
Qed.

Lemma strip_infix_of e s : infix_of e s → infix_of (strip e) s.
Proof.
  intros (a & b & ->). destruct (strip_infix e) as (w & t & He & _).
  exists (a +:+ w), (t +:+ b).
  rewrite He at 1. by rewrite !string_app_assoc.
Qed.

Lemma parse_list_elem_of s e :
  e ∈ parse_list s → clean e ∧ infix_of e s.
Proof.
  intros He. unfold parse_list in He.
  apply list_elem_of_filter in He as [Hne He].
  apply list_elem_of_fmap in He as (x & -> & Hx).
  pose proof (proj1 (Forall_forall _ _) (split_comma_no_comma s) x Hx) as Hc.
  pose proof (proj1 (Forall_forall _ _) (split_comma_pieces s) x Hx) as Hi.
  split; [split_and!|].
  - done.
  - by apply strip_no_comma.
  - apply strip_strip.
  - by apply strip_infix_of.
Qed.

(** X16.  The entries [DataManager._convert_instructors],
    [DataManager._convert_sections] and [load_data] read out of a
    comma-separated cell ([QualifiedCourses], [Courses]) are never empty,
    contain no comma, have no whitespace left to strip at either end, and
    are pieces of the cell's text. *)
Theorem parse_list_entries s :
  Forall (λ e, e ≠ EmptyString ∧ has_comma e = false ∧ strip e = e ∧
               drop_space e = None ∧ rstrip e = e ∧ infix_of e s)
    (parse_list s).
Proof.
  apply Forall_forall. intros e He.
  apply parse_list_elem_of in He as ((Hne & Hc & Hs) & Hi).
  split_and!; try done.
  - rewrite <- Hs. apply strip_no_space.
  - rewrite <- Hs. unfold strip. apply rstrip_rstrip.
Qed.

Lemma parse_list_join_gen w l : blank w → Forall clean l → l ≠ [] →
  ∀ w', blank w' →
    filter (λ c, c ≠ EmptyString)
      (strip <$> split_comma (w' +:+ join ("," +:+ w) l)) = l.
Proof.
  intros Hw Hl. induction Hl as [|x l (Hne & Hc & Hs) Hl IH]; [done|].
  intros _ w' Hw'. destruct l as [|y l].
  - cbn [join]. rewrite split_comma_one.
    + csimpl. rewrite strip_blank_app, Hs by done.
      by rewrite filter_cons_True.
    + rewrite has_comma_app, Hc, (blank_no_comma w') by done. done.
  - rewrite join_cons, <- string_app_assoc.
    change (("," +:+ w) +:+ join ("," +:+ w) (y :: l))
      with (String (Ascii.ascii_of_N 44) (w +:+ join ("," +:+ w) (y :: l))).
    rewrite split_comma_cons.
    + csimpl. rewrite strip_blank_app, Hs by done.
      rewrite filter_cons_True by done. f_equal. by apply IH.
    + rewrite has_comma_app, Hc, (blank_no_comma w') by done. done.
Qed.

(** X17.  Round trip of the cell parser: a list of entries that are
    non-empty, comma-free and stripped, written as one cell with a comma
    followed by any whitespace between them (Python's [", ".join(l)], say),
    is read back as the same list. *)
Theorem parse_list_join w l :
  blank w → Forall clean l → parse_list (join ("," +:+ w) l) = l.
Proof.
  intros Hw Hl. destruct l as [|x l]; [done|].
  unfold parse_list.
  by apply (parse_list_join_gen w (x :: l) Hw Hl) with (w' := EmptyString).
Qed.

Lemma parse_list_join_witness :
  parse_list (join ", " ["CS101"; "MATH 2"; "PHY113"])
  = ["CS101"; "MATH 2"; "PHY113"].
Proof.
  apply (parse_list_join " " ["CS101"; "MATH 2"; "PHY113"]).
  - reflexivity.
  - repeat constructor; vm_compute; congruence.
Defined.

(** The days an instructor's [PreferredSlots] can rule out. *)
Definition weekdays : list string :=
  ["Sunday"; "Monday"; "Tuesday"; "Wednesday"; "Thursday"; "Friday"].

Lemma parse_unavailable_days_filter s :
  parse_unavailable_days s
  = filter (λ d, contains ("Not on " +:+ d) s = true) weekdays.
Proof.
  unfold parse_unavailable_days, weekdays.
  rewrite !filter_cons, filter_nil.
  change ("Not on " +:+ "Sunday") with "Not on Sunday".
  change ("Not on " +:+ "Monday") with "Not on Monday".
  change ("Not on " +:+ "Tuesday") with "Not on Tuesday".
  change ("Not on " +:+ "Wednesday") with "Not on Wednesday".
  change ("Not on " +:+ "Thursday") with "Not on Thursday".
  change ("Not on " +:+ "Friday") with "Not on Friday".
  destruct (contains "Not on Sunday" s),
    (contains "Not on Monday" s), (contains "Not on Tuesday" s),
    (contains "Not on Wednesday" s), (contains "Not on Thursday" s),
    (contains "Not on Friday" s); reflexivity.
Qed.

(** X18.  The unavailable days read from a [PreferredSlots] cell are the
    days from Sunday to Friday, in that order and once each, whose phrase
    [Not on <day>] occurs in the cell; Saturday is never among them. *)
Theorem parse_unavailable_days_spec s :
  parse_unavailable_days s
  = filter (λ d, contains ("Not on " +:+ d) s = true) weekdays ∧
  (∀ d, d ∈ parse_unavailable_days s ↔
        d ∈ weekdays ∧ contains ("Not on " +:+ d) s = true) ∧
  NoDup (parse_unavailable_days s) ∧
  "Saturday" ∉ parse_unavailable_days s.
Proof.
  pose proof (parse_unavailable_days_filter s) as Heq.
  assert (Hnd : NoDup weekdays)
    by (apply (bool_decide_unpack (NoDup weekdays)); by vm_compute).
  split_and!.
  - done.
  - intros d. rewrite Heq, list_elem_of_filter. tauto.
  - rewrite Heq. by apply NoDup_filter.
  - rewrite Heq, list_elem_of_filter. intros [_ Hd].
    unfold weekdays in Hd.
    repeat (apply elem_of_cons in Hd as [Hd|Hd]; [discriminate|]).
    by apply elem_of_nil in Hd.
Qed.

(** ** From the rows to the timetable *)

(** A row of the instructor sheet; [PreferredSlots] and [QualifiedCourses]
    are the [str()] of the cells. *)
Module InstructorRow.
Record t := mk
  { InstructorID : string; Name : string;
    PreferredSlots : string; QualifiedCourses : string }.
End InstructorRow.

(** A row of the section sheet; [Courses] is the [str()] of the cell. *)
Module SectionRow.
Record t := mk
  { SectionID : string; StudentCount : Z; Courses : string }.
End SectionRow.








